(** * terraform-provider-awspresence: the aws_lb_listener_rule resource

    A shallow embedding of [awspresence/resource_aws_lb_listener_rule.go]:
    the priority validator, the derivation of a listener ARN from a rule ARN,
    the hash of the [condition] set, the expansion of schema conditions into
    [elbv2.RuleCondition] values and their flattening in Read, the allocation
    of a priority in Create and the Delete operation.

    Conventions.
    - A Go [string] is a [string]; where a function walks over the bytes of a
      string the bytes are the [list ascii] of [list_ascii_of_string].
    - Go's [int] and [int64] are 64-bit integers, modelled in [Z] with the
      wrap-around written out ([wrap64]).
    - A [*string] of the AWS SDK is an [option string]; [aws.String] is
      [Some] and [aws.StringValue] maps [nil] to the empty string.
    - A Go [error] is a value of type [error]; [nil] is [None] in an
      [option error]. *)

From Stdlib Require Import ZArith List String Ascii Lia Bool.
From stdpp Require Import base option list sorting gmap strings.

Import ListNotations.
Local Open Scope string_scope.
Local Open Scope Z_scope.
Local Open Scope list_scope.

(** ** Errors *)

Inductive NumErrorKind := ErrSyntax | ErrRange.

(** The error values the resource sees or builds: an [awserr.Error] with its
    code and message, [errors.New], [strconv.NumError], and [fmt.Errorf] with
    its format and operands (string operands, and the error operand when
    there is one), and the [resource.TimeoutError] of a retry that ran out
    of time. *)
Inductive error :=
| AWSError (code message : string)
| ErrorsNew (text : string)
| NumError (fn num : string) (kind : NumErrorKind)
| TimeoutError
| Errorf (format : string) (strs : list string)
| ErrorfWrap (format : string) (strs : list string) (err : error).

Definition ErrCodePriorityInUseException : string := "PriorityInUse".
Definition ErrCodeRuleNotFoundException : string := "RuleNotFound".

(** [strings.Contains s substr]. *)
Fixpoint hasPrefix (p s : list ascii) : bool :=
  match p, s with
  | [], _ => true
  | a :: p', b :: s' => if Ascii.eqb a b then hasPrefix p' s' else false
  | _ :: _, [] => false
  end.

Fixpoint containsBytes (sub s : list ascii) : bool :=
  hasPrefix sub s ||
  match s with
  | [] => false
  | _ :: s' => containsBytes sub s'
  end.

Definition strings_Contains (s substr : string) : bool :=
  containsBytes (list_ascii_of_string substr) (list_ascii_of_string s).

(** Modelled from the spec: the helper [isAWSErr(err, code, message)] is
    declared in a file of the provider that is not part of the sources at
    hand.  The spec speaks of a retry "on a named AWS error code": the helper
    holds of an AWS error whose code is [code] and whose message contains
    [message]; it fails on every other error. *)
Definition isAWSErr (err : error) (code message : string) : bool :=
  match err with
  | AWSError c m => String.eqb c code && strings_Contains m message
  | _ => false
  end.

(** ** 64-bit integers *)

Definition MaxInt64 : Z := 9223372036854775807.
Definition MinInt64 : Z := -9223372036854775808.

(** The value of a 64-bit two's complement integer after an operation whose
    mathematical result is [z]. *)
Definition wrap64 (z : Z) : Z := (z + 2^63) mod 2^64 - 2^63.

(** ** [strconv.Atoi] *)

Definition isDigit (c : ascii) : bool :=
  let n := nat_of_ascii c in (48 <=? n)%nat && (n <=? 57)%nat.

Definition maxUint64 : Z := 2^64 - 1.

(** What [strconv.ParseUint] finds: a value, a syntax error or a range
    error. *)
Inductive parsed :=
| ParseOk (n : Z)
| ParseSyntax
| ParseRange.

(** The loop of [ParseUint(s, 10, 64)] over the bytes that are left, [n]
    being the value of the digits read so far.  The loop stops at the first
    byte that is no digit and at the first digit with which the value
    leaves the range of [uint64], whichever comes first. *)
Fixpoint ParseUintFrom (n : Z) (s : list ascii) : parsed :=
  match s with
  | [] => ParseOk n
  | c :: s' =>
      if negb (isDigit c) then ParseSyntax
      else if maxUint64 / 10 + 1 <=? n then ParseRange
      else
        let n1 := n * 10 + (Z.of_nat (nat_of_ascii c) - 48) in
        if maxUint64 <? n1 then ParseRange else ParseUintFrom n1 s'
  end.

Definition ParseUint (s : list ascii) : parsed :=
  match s with
  | [] => ParseSyntax
  | _ :: _ => ParseUintFrom 0 s
  end.

(** [strconv.Atoi s], that is [ParseInt(s, 10, 0)] on a 64-bit platform:
    an optional sign, then [ParseUint].  A syntax error comes with the
    value 0; a value out of the range of [int] is a range error with the
    nearest bound as value. *)
Definition Atoi (s : string) : Z * option error :=
  let syntax := (0, Some (NumError "Atoi" s ErrSyntax)) in
  let range v := (v, Some (NumError "Atoi" s ErrRange)) in
  match list_ascii_of_string s with
  | [] => syntax
  | c :: rest =>
      let neg := Ascii.eqb c "-" in
      let digits := if Ascii.eqb c "+" || neg then rest else c :: rest in
      let cutoff := 2^63 in
      let convert un :=
        if negb neg && (cutoff <=? un) then range (cutoff - 1)
        else if neg && (cutoff <? un) then range (- cutoff)
        else (if neg then - un else un, None) in
      match ParseUint digits with
      | ParseSyntax => syntax
      | ParseRange => convert maxUint64
      | ParseOk un => convert un
      end
  end.

(** ** The priority validator *)

(** [validateAwsLbListenerRulePriority(v, k)]: the warnings and the errors. *)
Definition validateAwsLbListenerRulePriority (v : Z) (k : string)
  : list string * list error :=
  let value := v in
  let ws : list string := [] in
  let errors : list error := [] in
  let errors :=
    if (value <? 1) || ((value >? 50000) && negb (value =? 99999))
    then errors ++
         [Errorf "%q must be in the range 1-50000 for normal rule or 99999 for default rule" [k]]
    else errors in
  (ws, errors).

(** ** Regular expressions

    The fragment of Go's [regexp] syntax that the resource uses, with the
    leftmost-first (backtracking order) semantics of [regexp]: a greedy
    repetition tries the longest run first. *)

Inductive charclass :=
| AnyCharNotNL            (* [.]    : any character but a newline *)
| NotChar (c : ascii).    (* [[^c]] : any character but [c] *)

Definition inClass (cls : charclass) (a : ascii) : bool :=
  match cls with
  | AnyCharNotNL => negb (Ascii.eqb a "010")
  | NotChar c => negb (Ascii.eqb a c)
  end.

Inductive regexp :=
| BeginText                          (* [^] *)
| EndText                            (* [$] *)
| Literal (l : list ascii)           (* a literal string *)
| Plus (cls : charclass)             (* [cls+], greedy *)
| Capture (n : nat) (r : regexp)     (* the [n]-th parenthesised group *)
| Concat (r1 r2 : regexp).

(** The submatches found so far: index 0 is the whole match, index [n] the
    text of group [n]. *)
Definition submatches := list (list ascii).

(** [stripPrefix p s] is the rest of [s] after its prefix [p]. *)
Fixpoint stripPrefix (p s : list ascii) : option (list ascii) :=
  match p, s with
  | [], _ => Some s
  | a :: p', b :: s' => if Ascii.eqb a b then stripPrefix p' s' else None
  | _ :: _, [] => None
  end.

(** The greedy loop of [cls+] on the input [s]: take one character of the
    class, then prefer taking more, and fall back to the continuation. *)
Fixpoint plusLoop {A} (cls : charclass) (k : list ascii -> option A)
  (s : list ascii) : option A :=
  match s with
  | [] => None
  | a :: s' =>
      if inClass cls a
      then match plusLoop cls k s' with
           | Some res => Some res
           | None => k s'
           end
      else None
  end.

(** Backtracking matcher in continuation-passing style.  [off] is the
    offset of [s] in the text, [s] the rest of the text, [caps] the
    submatches so far; [k] continues with the new offset, rest and
    submatches. *)
Fixpoint matchHere (r : regexp) (off : nat) (s : list ascii) (caps : submatches)
  (k : nat -> list ascii -> submatches -> option submatches)
  : option submatches :=
  match r with
  | BeginText => if Nat.eqb off 0 then k off s caps else None
  | EndText => match s with [] => k off s caps | _ :: _ => None end
  | Literal l =>
      match stripPrefix l s with
      | Some s' => k (off + length l)%nat s' caps
      | None => None
      end
  | Plus cls =>
      plusLoop cls
        (fun s' => k (off + (length s - length s'))%nat s' caps) s
  | Capture n r' =>
      matchHere r' off s caps
        (fun off' s' caps' =>
           k off' s' (<[n := take (off' - off)%nat s]> caps'))
  | Concat r1 r2 =>
      matchHere r1 off s caps
        (fun off' s' caps' => matchHere r2 off' s' caps' k)
  end.

(** The number of capture groups of a regular expression. *)
Fixpoint numSubexp (r : regexp) : nat :=
  match r with
  | Capture n r' => Nat.max n (numSubexp r')
  | Concat r1 r2 => Nat.max (numSubexp r1) (numSubexp r2)
  | _ => 0%nat
  end.

(** A match of [r] that starts at offset [off], where [s] is the rest of
    the text. *)
Definition matchAt (r : regexp) (off : nat) (s : list ascii)
  : option submatches :=
  matchHere r off s (replicate (S (numSubexp r)) [])
    (fun off' _ caps => Some (<[0%nat := take (off' - off)%nat s]> caps)).

(** The leftmost match: the start offsets are tried from left to right. *)
Fixpoint searchFrom (r : regexp) (off : nat) (s : list ascii)
  : option submatches :=
  match matchAt r off s with
  | Some caps => Some caps
  | None =>
      match s with
      | [] => None
      | _ :: s' => searchFrom r (S off) s'
      end
  end.

(** [re.FindStringSubmatch(s)]: [None] is the nil slice of no match. *)
Definition FindStringSubmatch (r : regexp) (s : string) : option (list string) :=
  match searchFrom r 0 (list_ascii_of_string s) with
  | Some caps => Some (map string_of_list_ascii caps)
  | None => None
  end.

(** ** The listener ARN of a rule ARN *)

Definition chars (s : string) : list ascii := list_ascii_of_string s.

(** [regexp.MustCompile(`^(arn:.+:listener)-rule(/.+)/[^/]+$`)] *)
Definition lbListenerARNFromRuleARNRegexp : regexp :=
  Concat BeginText
 (Concat (Capture 1 (Concat (Literal (chars "arn:"))
                    (Concat (Plus AnyCharNotNL)
                            (Literal (chars ":listener")))))
 (Concat (Literal (chars "-rule"))
 (Concat (Capture 2 (Concat (Literal (chars "/")) (Plus AnyCharNotNL)))
 (Concat (Literal (chars "/"))
 (Concat (Plus (NotChar "/"))
         EndText))))).

Definition lbListenerARNFromRuleARN (ruleArn : string) : string :=
  match FindStringSubmatch lbListenerARNFromRuleARNRegexp ruleArn with
  | Some arnComponents =>
      if (1 <? length arnComponents)%nat
      then nth 1 arnComponents "" +:+ nth 2 arnComponents ""
      else ""
  | None => ""
  end.

(** ** [hashcode.String] *)

(** One bit of the reflected CRC-32 division by the IEEE polynomial. *)
Definition crc32_bit (crc : Z) : Z :=
  if Z.testbit crc 0
  then Z.lxor (Z.shiftr crc 1) 0xEDB88320
  else Z.shiftr crc 1.

Definition crc32_update (crc : Z) (b : ascii) : Z :=
  Nat.iter 8 crc32_bit (Z.lxor crc (Z.of_nat (nat_of_ascii b))).

(** [crc32.ChecksumIEEE(data)] *)
Definition ChecksumIEEE (data : list ascii) : Z :=
  Z.lxor (fold_left crc32_update data 0xFFFFFFFF) 0xFFFFFFFF.

(** [hashcode.String(s)]: the checksum as a non-negative [int]. *)
Definition hashcode_String (s : string) : Z :=
  let v := ChecksumIEEE (chars s) in
  if 0 <=? v then v
  else if 0 <=? wrap64 (- v) then wrap64 (- v)
  else 0.

(** ** The schema representation of a condition

    An element of the [condition] set as the schema hands it to the
    resource: a map with every key of the schema, each holding a value of
    the schema's type.  A nested block is a list of at most one map; the
    element of that list can be [nil], which the hash function tests for. *)

(** [host_header], [http_request_method], [path_pattern], [source_ip] *)
Record valuesBlock := { vb_values : list string }.

Record httpHeaderBlock := {
  hh_http_header_name : string;
  hh_values : list string }.

Record queryStringPair := { qp_key : string; qp_value : string }.

Record queryStringBlock := { qs_values : list queryStringPair }.

Record conditionMap := {
  cm_field : string;
  cm_host_header : list (option valuesBlock);
  cm_http_header : list (option httpHeaderBlock);
  cm_http_request_method : list (option valuesBlock);
  cm_path_pattern : list (option valuesBlock);
  cm_query_string : list (option queryStringBlock);
  cm_source_ip : list (option valuesBlock);
  cm_values : list string }.

(** ** The hash of the condition set *)

(** [fmt.Fprint(&buf, a, b, ...)] with string operands: the operands are
    appended to the buffer (no space is added next to a string). *)
Definition Fprint (buf : string) (operands : list string) : string :=
  buf +:+ String.concat "" operands.

(** [for _, l := range vs { fmt.Fprint(&buf, l, "-") }] *)
Definition FprintEach (buf : string) (vs : list string) : string :=
  fold_left (fun buf l => Fprint buf [l; "-"]) vs buf.

(** The contents of [buf] at the end of [lbListenerRuleConditionSetHash]. *)
Definition lbListenerRuleConditionSetHashBuf (m : conditionMap) : string :=
  let buf := "" in
  let buf := Fprint buf [cm_field m; "-"] in
  let buf :=
    if String.eqb (cm_field m) "host-header" then
      let hostHeader := cm_host_header m in
      match hostHeader with
      | hostHeader0 :: _ =>
          match hostHeader0 with
          | Some hostHeaderMap => FprintEach buf (vb_values hostHeaderMap)
          | None => buf
          end
      | [] => FprintEach buf (cm_values m)
      end
    else buf in
  let buf :=
    if String.eqb (cm_field m) "http-header" then
      match cm_http_header m with
      | Some httpHeaderMap :: _ =>
          let buf := Fprint buf [hh_http_header_name httpHeaderMap; "-"] in
          FprintEach buf (hh_values httpHeaderMap)
      | _ => buf
      end
    else buf in
  let buf :=
    if String.eqb (cm_field m) "http-request-method" then
      match cm_http_request_method m with
      | Some httpRequestMethodMap :: _ =>
          FprintEach buf (vb_values httpRequestMethodMap)
      | _ => buf
      end
    else buf in
  let buf :=
    if String.eqb (cm_field m) "path-pattern" then
      let pathPattern := cm_path_pattern m in
      match pathPattern with
      | pathPattern0 :: _ =>
          match pathPattern0 with
          | Some pathPatternMap => FprintEach buf (vb_values pathPatternMap)
          | None => buf
          end
      | [] => FprintEach buf (cm_values m)
      end
    else buf in
  let buf :=
    if String.eqb (cm_field m) "query-string" then
      match cm_query_string m with
      | Some queryStringMap :: _ =>
          fold_left
            (fun buf values =>
               Fprint buf [qp_key values; "-"; qp_value values; "-"])
            (qs_values queryStringMap) buf
      | _ => buf
      end
    else buf in
  let buf :=
    if String.eqb (cm_field m) "source-ip" then
      match cm_source_ip m with
      | Some sourceIpMap :: _ => FprintEach buf (vb_values sourceIpMap)
      | _ => buf
      end
    else buf in
  buf.

Definition lbListenerRuleConditionSetHash (m : conditionMap) : Z :=
  hashcode_String (lbListenerRuleConditionSetHashBuf m).

(** ** The AWS SDK types *)

Definition aws_String (s : string) : option string := Some s.

Definition aws_StringValue (p : option string) : string :=
  match p with Some s => s | None => "" end.

Definition aws_StringValueSlice (ps : list (option string)) : list string :=
  map aws_StringValue ps.

(** [HostHeaderConditionConfig], [HttpRequestMethodConditionConfig],
    [PathPatternConditionConfig] and [SourceIpConditionConfig] all are a
    structure with the one member [Values []*string]. *)
Record ValuesConfig := { Values : list (option string) }.

Record HttpHeaderConditionConfig := {
  HttpHeaderName : option string;
  HttpHeaderValues : list (option string) }.

Record QueryStringKeyValuePair := { Key : option string; Value : option string }.

Record QueryStringConditionConfig := {
  QueryStringValues : list QueryStringKeyValuePair }.

(** [elbv2.RuleCondition].  The slices of structure pointers that the SDK
    hands out hold no nil element; a [*string] can be nil. *)
Record RuleCondition := {
  Field : option string;
  HostHeaderConfig : option ValuesConfig;
  HttpHeaderConfig : option HttpHeaderConditionConfig;
  HttpRequestMethodConfig : option ValuesConfig;
  PathPatternConfig : option ValuesConfig;
  QueryStringConfig : option QueryStringConditionConfig;
  SourceIpConfig : option ValuesConfig;
  ConditionValues : list (option string) }.

(** [&elbv2.RuleCondition{Field: field}] *)
Definition newRuleCondition (field : option string) : RuleCondition :=
  {| Field := field;
     HostHeaderConfig := None; HttpHeaderConfig := None;
     HttpRequestMethodConfig := None; PathPatternConfig := None;
     QueryStringConfig := None; SourceIpConfig := None;
     ConditionValues := [] |}.

(** ** Expansion of the schema conditions *)

(** What a call does: it returns, or it panics (a failed type assertion). *)
Inductive outcome (A : Type) :=
| Returns (a : A)
| Panics.
Arguments Returns {A} a.
Arguments Panics {A}.

(** Modelled from the spec: the helper [interfaceStringSlice] is declared
    in a file of the provider that is not part of the sources at hand.  The
    conversion between the schema representation and the SDK structures is
    "a direct, enumerable, one-to-one field mapping": each string of the
    list becomes an [aws.String] of it. *)
Definition interfaceStringSlice (values : list string) : list (option string) :=
  map aws_String values.

(** The key/value pairs of a [query_string] block. *)
Definition expandQueryStringPair (valuePair : queryStringPair)
  : QueryStringKeyValuePair :=
  let elbValuePair := {| Key := None; Value := aws_String (qp_value valuePair) |} in
  if negb (String.eqb (qp_key valuePair) "")
  then {| Key := aws_String (qp_key valuePair); Value := Value elbValuePair |}
  else elbValuePair.

(** The body of the loop of [lbListenerRuleConditions]: the condition built
    for one element, or the error that ends the function. *)
Definition lbListenerRuleCondition (conditionMap : conditionMap)
  : outcome (RuleCondition + error) :=
  let conditionValues := cm_values conditionMap in
  let elbCondition := newRuleCondition (aws_String (cm_field conditionMap)) in
  let field := cm_field conditionMap in
  if String.eqb field "host-header" then
    let hostHeader := cm_host_header conditionMap in
    match hostHeader with
    | Some hostHeader0 :: _ =>
        Returns (inl {| Field := Field elbCondition;
          HostHeaderConfig :=
            Some {| Values := interfaceStringSlice (vb_values hostHeader0) |};
          HttpHeaderConfig := None; HttpRequestMethodConfig := None;
          PathPatternConfig := None; QueryStringConfig := None;
          SourceIpConfig := None; ConditionValues := [] |})
    | None :: _ => Panics
    | [] =>
        match conditionValues with
        | _ :: _ =>
            Returns (inl {| Field := Field elbCondition;
              HostHeaderConfig :=
                Some {| Values := interfaceStringSlice conditionValues |};
              HttpHeaderConfig := None; HttpRequestMethodConfig := None;
              PathPatternConfig := None; QueryStringConfig := None;
              SourceIpConfig := None; ConditionValues := [] |})
        | [] =>
            Returns (inr (ErrorsNew
              "host_header must be set when condition field is host-header"))
        end
    end
  else if String.eqb field "http-header" then
    match cm_http_header conditionMap with
    | [] =>
        Returns (inr (ErrorsNew
          "http_header must be set when condition field is http-header"))
    | None :: _ => Panics
    | Some httpHeaderMap :: _ =>
        Returns (inl {| Field := Field elbCondition;
          HostHeaderConfig := None;
          HttpHeaderConfig :=
            Some {| HttpHeaderName :=
                      aws_String (hh_http_header_name httpHeaderMap);
                    HttpHeaderValues :=
                      interfaceStringSlice (hh_values httpHeaderMap) |};
          HttpRequestMethodConfig := None;
          PathPatternConfig := None; QueryStringConfig := None;
          SourceIpConfig := None; ConditionValues := [] |})
    end
  else if String.eqb field "http-request-method" then
    match cm_http_request_method conditionMap with
    | [] =>
        Returns (inr (ErrorsNew
          "http_request_method must be set when condition field is http-request-method"))
    | None :: _ => Panics
    | Some httpRequestMethod0 :: _ =>
        Returns (inl {| Field := Field elbCondition;
          HostHeaderConfig := None; HttpHeaderConfig := None;
          HttpRequestMethodConfig :=
            Some {| Values := interfaceStringSlice (vb_values httpRequestMethod0) |};
          PathPatternConfig := None; QueryStringConfig := None;
          SourceIpConfig := None; ConditionValues := [] |})
    end
  else if String.eqb field "path-pattern" then
    let pathPattern := cm_path_pattern conditionMap in
    match pathPattern with
    | Some pathPattern0 :: _ =>
        Returns (inl {| Field := Field elbCondition;
          HostHeaderConfig := None; HttpHeaderConfig := None;
          HttpRequestMethodConfig := None;
          PathPatternConfig :=
            Some {| Values := interfaceStringSlice (vb_values pathPattern0) |};
          QueryStringConfig := None;
          SourceIpConfig := None; ConditionValues := [] |})
    | None :: _ => Panics
    | [] =>
        match conditionValues with
        | _ :: _ =>
            Returns (inl {| Field := Field elbCondition;
              HostHeaderConfig := None; HttpHeaderConfig := None;
              HttpRequestMethodConfig := None;
              PathPatternConfig :=
                Some {| Values := interfaceStringSlice conditionValues |};
              QueryStringConfig := None;
              SourceIpConfig := None; ConditionValues := [] |})
        | [] =>
            Returns (inr (ErrorsNew
              "path_pattern must be set when condition field is path-pattern"))
        end
    end
  else if String.eqb field "query-string" then
    match cm_query_string conditionMap with
    | [] =>
        Returns (inr (ErrorsNew
          "query_string must be set when condition field is query-string"))
    | None :: _ => Panics
    | Some queryString0 :: _ =>
        let values := qs_values queryString0 in
        Returns (inl {| Field := Field elbCondition;
          HostHeaderConfig := None; HttpHeaderConfig := None;
          HttpRequestMethodConfig := None; PathPatternConfig := None;
          QueryStringConfig :=
            Some {| QueryStringValues := map expandQueryStringPair values |};
          SourceIpConfig := None; ConditionValues := [] |})
    end
  else if String.eqb field "source-ip" then
    match cm_source_ip conditionMap with
    | [] =>
        Returns (inr (ErrorsNew
          "source_ip must be set when condition field is source-ip"))
    | None :: _ => Panics
    | Some sourceIp0 :: _ =>
        Returns (inl {| Field := Field elbCondition;
          HostHeaderConfig := None; HttpHeaderConfig := None;
          HttpRequestMethodConfig := None; PathPatternConfig := None;
          QueryStringConfig := None;
          SourceIpConfig :=
            Some {| Values := interfaceStringSlice (vb_values sourceIp0) |};
          ConditionValues := [] |})
    end
  else Returns (inl elbCondition).

(** The loop of [lbListenerRuleConditions] over the conditions that are
    left, [elbConditions] being the conditions built so far. *)
Fixpoint lbListenerRuleConditionsFrom (elbConditions : list RuleCondition)
  (conditions : list conditionMap)
  : outcome (option (list RuleCondition) * option error) :=
  match conditions with
  | [] => Returns (Some elbConditions, None)
  | condition :: rest =>
      match lbListenerRuleCondition condition with
      | Panics => Panics
      | Returns (inr err) => Returns (None, Some err)
      | Returns (inl elbCondition) =>
          lbListenerRuleConditionsFrom (elbConditions ++ [elbCondition]) rest
      end
  end.

(** [lbListenerRuleConditions(conditions)]: the pair of the slice ([None]
    is the nil slice) and of the error. *)
Definition lbListenerRuleConditions (conditions : list conditionMap)
  : outcome (option (list RuleCondition) * option error) :=
  lbListenerRuleConditionsFrom [] conditions.

(** ** Rules and the requests of the ELBv2 API

    Of each structure the members that the modelled code reads or writes;
    the actions of a rule are left out. *)

Record Rule := {
  RuleArn : option string;
  Priority : option string;
  Conditions : list RuleCondition }.

Record DescribeRulesInput := {
  dri_ListenerArn : option string;
  dri_Marker : option string;
  dri_RuleArns : list (option string) }.

Record DescribeRulesOutput := {
  dro_Rules : list Rule;
  dro_NextMarker : option string }.

Record CreateRuleInput := {
  cri_ListenerArn : option string;
  cri_Priority : option Z;
  cri_Conditions : list RuleCondition }.

Record CreateRuleOutput := { cro_Rules : list Rule }.

Record DeleteRuleInput := { dli_RuleArn : option string }.

(** The ELBv2 client, [elbconn].  The service is outside of the program:
    [conn] is whatever state the service and the connection are in, a call
    takes that state to the next one and returns an output or an error.
    Other clients of the same listener change the state between two calls
    of this one; that is part of the step each call takes. *)
Record ELBV2 := {
  conn : Type;
  DescribeRules : conn -> DescribeRulesInput -> conn * (DescribeRulesOutput + error);
  CreateRule : conn -> CreateRuleInput -> conn * (CreateRuleOutput + error);
  DeleteRule : conn -> DeleteRuleInput -> conn * option error }.

(** ** The resource data *)

Inductive attribute :=
| AttrString (s : string)
| AttrStringPtr (s : option string)
| AttrInt (i : Z)
| AttrConditions (l : list conditionMap).

(** [schema.ResourceData]: the id and the attributes that have been set. *)
Record ResourceData := {
  rd_Id : string;
  rd_attrs : gmap string attribute }.

Definition rd_Set (d : ResourceData) (key : string) (v : attribute) : ResourceData :=
  {| rd_Id := rd_Id d; rd_attrs := <[key := v]> (rd_attrs d) |}.

Definition rd_SetId (d : ResourceData) (id : string) : ResourceData :=
  {| rd_Id := id; rd_attrs := rd_attrs d |}.

(** ** Read: from the described rule to the state *)

(** The map built for one condition in [resourceAwsLbListenerRuleRead].
    A key that the code leaves out of the map is the empty list here, which
    is what the schema reads back for it; the string slices are the lists
    of the schema. *)
Definition flattenCondition (condition : RuleCondition) : conditionMap :=
  {| cm_field := aws_StringValue (Field condition);
     cm_values := aws_StringValueSlice (ConditionValues condition);
     cm_host_header :=
       match HostHeaderConfig condition with
       | Some cfg => [Some {| vb_values := aws_StringValueSlice (Values cfg) |}]
       | None => []
       end;
     cm_http_header :=
       match HttpHeaderConfig condition with
       | Some cfg =>
           [Some {| hh_http_header_name := aws_StringValue (HttpHeaderName cfg);
                    hh_values := aws_StringValueSlice (HttpHeaderValues cfg) |}]
       | None => []
       end;
     cm_http_request_method :=
       match HttpRequestMethodConfig condition with
       | Some cfg => [Some {| vb_values := aws_StringValueSlice (Values cfg) |}]
       | None => []
       end;
     cm_path_pattern :=
       match PathPatternConfig condition with
       | Some cfg => [Some {| vb_values := aws_StringValueSlice (Values cfg) |}]
       | None => []
       end;
     cm_query_string :=
       match QueryStringConfig condition with
       | Some cfg =>
           [Some {| qs_values :=
                      map (fun value =>
                             {| qp_key := aws_StringValue (Key value);
                                qp_value := aws_StringValue (Value value) |})
                          (QueryStringValues cfg) |}]
       | None => []
       end;
     cm_source_ip :=
       match SourceIpConfig condition with
       | Some cfg => [Some {| vb_values := aws_StringValueSlice (Values cfg) |}]
       | None => []
       end |}.

(** [resourceAwsLbListenerRuleRead], from the outcome [resp] of the (retried)
    DescribeRules call on: the new resource data and the error.  The
    [action] attribute, set between [priority] and [condition], is left
    out. *)
Definition resourceAwsLbListenerRuleRead (resp : DescribeRulesOutput + error)
  (d : ResourceData) : ResourceData * option error :=
  match resp with
  | inr err =>
      if isAWSErr err ErrCodeRuleNotFoundException ""
      then (rd_SetId d "", None)
      else (d, Some (ErrorfWrap "Error retrieving Rules for listener %q: %s"
                       [rd_Id d] err))
  | inl resp =>
      match dro_Rules resp with
      | [rule] =>
          let d := rd_Set d "arn" (AttrStringPtr (RuleArn rule)) in
          let d := rd_Set d "listener_arn"
                     (AttrString (lbListenerARNFromRuleARN
                                    (aws_StringValue (RuleArn rule)))) in
          let continue d :=
            let conditions := map flattenCondition (Conditions rule) in
            let d := rd_Set d "condition" (AttrConditions conditions) in
            (d, None) in
          if String.eqb (aws_StringValue (Priority rule)) "default" then
            continue (rd_Set d "priority" (AttrInt 99999))
          else
            match Atoi (aws_StringValue (Priority rule)) with
            | (_, Some err) =>
                (d, Some (ErrorfWrap "Cannot convert rule priority %q to int: %s"
                            [aws_StringValue (Priority rule)] err))
            | (priority, None) =>
                continue (rd_Set d "priority" (AttrInt priority))
            end
      | _ => (d, Some (Errorf "Error retrieving Rule %q" [rd_Id d]))
      end
  end.

(** ** [resource.Retry]

    [resource.Retry(timeout, f)] calls [f] again and again for as long as it
    returns a retryable error and the timeout has not elapsed.  Time is not
    modelled: [budget] is the number of calls of [f] that fit in the
    timeout.  When the time is up the last error of [f] is returned, or a
    [TimeoutError] when [f] never ran.  [f] works on the state [St] of the
    variables it captures; a call of [f] that does not return is [None]. *)

Inductive RetryError :=
| RetryableError (err : error)
| NonRetryableError (err : error).

Fixpoint RetryFrom {St : Type} (budget : nat)
  (f : St -> option (St * option RetryError)) (s : St) (resultErr : option error)
  : option (St * option error) :=
  match budget with
  | O =>
      Some (s, match resultErr with Some e => Some e | None => Some TimeoutError end)
  | S budget' =>
      match f s with
      | None => None
      | Some (s', None) => Some (s', None)
      | Some (s', Some (NonRetryableError err)) => Some (s', Some err)
      | Some (s', Some (RetryableError err)) => RetryFrom budget' f s' (Some err)
      end
  end.

Definition Retry {St : Type} (budget : nat)
  (f : St -> option (St * option RetryError)) (s : St)
  : option (St * option error) :=
  RetryFrom budget f s None.

(** ** The highest priority of the rules of a listener *)

Section Client.

Variable elb : ELBV2.

(** [append]s of the loop over [out.Rules]. *)
Definition collectPriorities (priorities : list Z) (rules : list Rule) : list Z :=
  fold_left
    (fun priorities rule =>
       if negb (String.eqb (aws_StringValue (Priority rule)) "default")
       then priorities ++ [fst (Atoi (aws_StringValue (Priority rule)))]
       else priorities)
    rules priorities.

(** The [for] loop of [highestListenerRulePriority], with at most [fuel]
    iterations: [None] when the pages do not end within [fuel] calls. *)
Fixpoint describeAllRules (fuel : nat) (c : conn elb) (arn : string)
  (nextMarker : option string) (priorities : list Z)
  : option (conn elb * (list Z + error)) :=
  match fuel with
  | O => None
  | S fuel' =>
      let (c', res) :=
        DescribeRules elb c
          {| dri_ListenerArn := aws_String arn;
             dri_Marker := nextMarker;
             dri_RuleArns := [] |} in
      match res with
      | inr aerr => Some (c', inr aerr)
      | inl out =>
          let priorities := collectPriorities priorities (dro_Rules out) in
          match dro_NextMarker out with
          | None => Some (c', inl priorities)
          | Some _ => describeAllRules fuel' c' arn (dro_NextMarker out) priorities
          end
      end
  end.

(** [sort.IntSlice(priorities).Sort()]: the list in increasing order. *)
Definition sort_Ints (priorities : list Z) : list Z :=
  merge_sort Z.le priorities.

Definition highestListenerRulePriority (fuel : nat) (c : conn elb) (arn : string)
  : option (conn elb * (Z * option error)) :=
  match describeAllRules fuel c arn None [] with
  | None => None
  | Some (c', inr aerr) => Some (c', (0, Some aerr))
  | Some (c', inl priorities) =>
      if Nat.eqb (length priorities) 0 then Some (c', (0, None))
      else
        let sorted := sort_Ints priorities in
        Some (c', (nth (length sorted - 1) sorted 0, None))
  end.

(** ** Create: the allocation of the priority *)

(** The variables that the function given to [resource.Retry] captures:
    the connection, [params] and [resp]. *)
Record createState := {
  cs_conn : conn elb;
  cs_params : CreateRuleInput;
  cs_resp : option CreateRuleOutput }.

Definition withPriority (params : CreateRuleInput) (priority : Z) : CreateRuleInput :=
  {| cri_ListenerArn := cri_ListenerArn params;
     cri_Priority := Some priority;
     cri_Conditions := cri_Conditions params |}.

(** The function given to [resource.Retry] in
    [resourceAwsLbListenerRuleCreate]: one attempt. *)
Definition createAttempt (fuel : nat) (listenerArn : string) (s : createState)
  : option (createState * option RetryError) :=
  match highestListenerRulePriority fuel (cs_conn s) listenerArn with
  | None => None
  | Some (c, (_, Some err)) =>
      Some ({| cs_conn := c; cs_params := cs_params s; cs_resp := cs_resp s |},
            Some (NonRetryableError err))
  | Some (c, (priority, None)) =>
      let params := withPriority (cs_params s) (wrap64 (priority + 1)) in
      let (c', res) := CreateRule elb c params in
      match res with
      | inr err =>
          let s' := {| cs_conn := c'; cs_params := params; cs_resp := None |} in
          if isAWSErr err ErrCodePriorityInUseException ""
          then Some (s', Some (RetryableError err))
          else Some (s', Some (NonRetryableError err))
      | inl resp =>
          Some ({| cs_conn := c'; cs_params := params; cs_resp := Some resp |}, None)
      end
  end.

(** [resourceAwsLbListenerRuleCreate], from [var resp] to [d.SetId]: the
    request [params] holds the listener, the actions and the conditions
    already; [priority] is the result of [d.GetOk("priority")].  The result
    is the state of the connection, the resource data and the error; the
    function ends with [resourceAwsLbListenerRuleRead] on that data. *)
Definition resourceAwsLbListenerRuleCreate (budget fuel : nat)
  (c : conn elb) (d : ResourceData) (listenerArn : string)
  (params : CreateRuleInput) (priority : option Z)
  : option (conn elb * ResourceData * option error) :=
  let finish (c : conn elb) (resp : option CreateRuleOutput) :=
    match resp with
    | Some {| cro_Rules := rule :: _ |} =>
        Some (c, rd_SetId d (aws_StringValue (RuleArn rule)), None)
    | _ =>
        Some (c, d, Some (ErrorsNew
          "Error creating LB Listener Rule: no rules returned in response"))
    end in
  match priority with
  | Some v =>
      let params := withPriority params v in
      let (c', res) := CreateRule elb c params in
      match res with
      | inr err =>
          Some (c', d, Some (ErrorfWrap "Error creating LB Listener Rule: %v" [] err))
      | inl resp => finish c' (Some resp)
      end
  | None =>
      match Retry budget (createAttempt fuel listenerArn)
              {| cs_conn := c; cs_params := params; cs_resp := None |} with
      | None => None
      | Some (s, Some err) =>
          Some (cs_conn s, d,
                Some (ErrorfWrap "Error creating LB Listener Rule: %v" [] err))
      | Some (s, None) => finish (cs_conn s) (cs_resp s)
      end
  end.

(** ** Delete *)

Definition resourceAwsLbListenerRuleDelete (c : conn elb) (d : ResourceData)
  : conn elb * option error :=
  let (c', err) := DeleteRule elb c {| dli_RuleArn := aws_String (rd_Id d) |} in
  match err with
  | Some e =>
      if negb (isAWSErr e ErrCodeRuleNotFoundException "")
      then (c', Some (ErrorfWrap "Error deleting LB Listener Rule: %s" [] e))
      else (c', None)
  | None => (c', None)
  end.

End Client.

Arguments cs_conn {elb} _.
Arguments cs_params {elb} _.
Arguments cs_resp {elb} _.

(** ** Notions used to state the properties *)

(** The block of a condition map that its field selects. *)
Inductive selectedBlock :=
| SelValues (block : list (option valuesBlock))
| SelHttpHeader (block : list (option httpHeaderBlock))
| SelQueryString (block : list (option queryStringBlock))
| SelNothing.

Definition selected (m : conditionMap) : selectedBlock :=
  let field := cm_field m in
  if String.eqb field "host-header" then SelValues (cm_host_header m)
  else if String.eqb field "http-header" then SelHttpHeader (cm_http_header m)
  else if String.eqb field "http-request-method" then SelValues (cm_http_request_method m)
  else if String.eqb field "path-pattern" then SelValues (cm_path_pattern m)
  else if String.eqb field "query-string" then SelQueryString (cm_query_string m)
  else if String.eqb field "source-ip" then SelValues (cm_source_ip m)
  else SelNothing.

Definition isEmpty {A} (l : list A) : bool :=
  match l with [] => true | _ :: _ => false end.

(** The field is [host-header] or [path-pattern] and its block is empty:
    the hash and the expansion fall back on the deprecated [values]. *)
Definition usesDeprecatedValues (m : conditionMap) : bool :=
  (String.eqb (cm_field m) "host-header" && isEmpty (cm_host_header m))
  || (String.eqb (cm_field m) "path-pattern" && isEmpty (cm_path_pattern m)).

(** The block that the field selects is missing: an empty block list, and
    for [host-header] and [path-pattern] an empty [values] list too. *)
Definition missingBlock (m : conditionMap) : bool :=
  let field := cm_field m in
  (String.eqb field "http-header" && isEmpty (cm_http_header m))
  || (String.eqb field "http-request-method" && isEmpty (cm_http_request_method m))
  || (String.eqb field "query-string" && isEmpty (cm_query_string m))
  || (String.eqb field "source-ip" && isEmpty (cm_source_ip m))
  || (String.eqb field "host-header" && isEmpty (cm_host_header m)
      && isEmpty (cm_values m))
  || (String.eqb field "path-pattern" && isEmpty (cm_path_pattern m)
      && isEmpty (cm_values m)).

(** The first element of the block that the field selects is [nil]. *)
Definition nilBlock (m : conditionMap) : bool :=
  match selected m with
  | SelValues (None :: _) => true
  | SelHttpHeader (None :: _) => true
  | SelQueryString (None :: _) => true
  | _ => false
  end.

Definition isSome {A} (o : option A) : bool :=
  match o with Some _ => true | None => false end.

(** The field of a rule condition is one of the six and the configuration
    that belongs to it is not nil. *)
Definition selectedConfigPresent (c : RuleCondition) : bool :=
  match Field c with
  | None => false
  | Some field =>
      (String.eqb field "host-header" && isSome (HostHeaderConfig c))
      || (String.eqb field "http-header" && isSome (HttpHeaderConfig c))
      || (String.eqb field "http-request-method" && isSome (HttpRequestMethodConfig c))
      || (String.eqb field "path-pattern" && isSome (PathPatternConfig c))
      || (String.eqb field "query-string" && isSome (QueryStringConfig c))
      || (String.eqb field "source-ip" && isSome (SourceIpConfig c))
  end.

(** The values of a rule condition, as strings: those of the configuration
    that its field selects. *)
Inductive conditionValues :=
| ValuesOf (values : list string)
| HttpHeaderOf (name : string) (values : list string)
| QueryStringOf (pairs : list (string * string))
| NoValues.

Definition valuesOfConfig (cfg : option ValuesConfig) : conditionValues :=
  match cfg with
  | Some cfg => ValuesOf (aws_StringValueSlice (Values cfg))
  | None => NoValues
  end.

Definition conditionValuesOf (c : RuleCondition) : conditionValues :=
  let field := aws_StringValue (Field c) in
  if String.eqb field "host-header" then valuesOfConfig (HostHeaderConfig c)
  else if String.eqb field "http-header" then
    match HttpHeaderConfig c with
    | Some cfg => HttpHeaderOf (aws_StringValue (HttpHeaderName cfg))
                    (aws_StringValueSlice (HttpHeaderValues cfg))
    | None => NoValues
    end
  else if String.eqb field "http-request-method" then
    valuesOfConfig (HttpRequestMethodConfig c)
  else if String.eqb field "path-pattern" then valuesOfConfig (PathPatternConfig c)
  else if String.eqb field "query-string" then
    match QueryStringConfig c with
    | Some cfg =>
        QueryStringOf
          (map (fun p => (aws_StringValue (Key p), aws_StringValue (Value p)))
               (QueryStringValues cfg))
    | None => NoValues
    end
  else if String.eqb field "source-ip" then valuesOfConfig (SourceIpConfig c)
  else NoValues.

(** The key of the pair is absent when the key of [p] is nil or empty, and
    is the key of [p] otherwise. *)
Definition keyAbsentWhenEmpty (p q : QueryStringKeyValuePair) : Prop :=
  if String.eqb (aws_StringValue (Key p)) "" then Key q = None else Key q = Key p.

(** A condition map without any block and value, of the given field. *)
Definition emptyCondition (field : string) : conditionMap :=
  {| cm_field := field; cm_host_header := []; cm_http_header := [];
     cm_http_request_method := []; cm_path_pattern := [];
     cm_query_string := []; cm_source_ip := []; cm_values := [] |}.

Definition withValues (m : conditionMap) (values : list string) : conditionMap :=
  {| cm_field := cm_field m; cm_host_header := cm_host_header m;
     cm_http_header := cm_http_header m;
     cm_http_request_method := cm_http_request_method m;
     cm_path_pattern := cm_path_pattern m;
     cm_query_string := cm_query_string m; cm_source_ip := cm_source_ip m;
     cm_values := values |}.

Definition withSourceIp (m : conditionMap) (block : list (option valuesBlock))
  : conditionMap :=
  {| cm_field := cm_field m; cm_host_header := cm_host_header m;
     cm_http_header := cm_http_header m;
     cm_http_request_method := cm_http_request_method m;
     cm_path_pattern := cm_path_pattern m;
     cm_query_string := cm_query_string m; cm_source_ip := block;
     cm_values := cm_values m |}.

Definition withHostHeader (m : conditionMap) (block : list (option valuesBlock))
  : conditionMap :=
  {| cm_field := cm_field m; cm_host_header := block;
     cm_http_header := cm_http_header m;
     cm_http_request_method := cm_http_request_method m;
     cm_path_pattern := cm_path_pattern m;
     cm_query_string := cm_query_string m; cm_source_ip := cm_source_ip m;
     cm_values := cm_values m |}.

(** ** Example values *)

(** The two condition maps used as an example: the field is
    [host-header], the [host_header] block is empty in both, and the
    deprecated [values] differ. *)
Definition deprecatedA : conditionMap :=
  withValues (emptyCondition "host-header") ["a.example.com"].
Definition deprecatedB : conditionMap :=
  withValues (emptyCondition "host-header") ["b.example.com"].

(** The condition used as an example: the field is [source-ip] and the
    [source_ip] block is a list whose one element is [nil]. *)
Definition nilSourceIp : conditionMap :=
  withSourceIp (emptyCondition "source-ip") [None].

(** A [query-string] condition as the API returns it, with a pair that has
    no key. *)
Definition queryStringCondition : RuleCondition :=
  {| Field := Some "query-string";
     HostHeaderConfig := None; HttpHeaderConfig := None;
     HttpRequestMethodConfig := None; PathPatternConfig := None;
     QueryStringConfig :=
       Some {| QueryStringValues :=
                 [ {| Key := Some "version"; Value := Some "v1" |};
                   {| Key := None; Value := Some "example" |} ] |};
     SourceIpConfig := None; ConditionValues := [] |}.

(** ** What a regular expression matches

    [matches r off s1 rest caps caps']: the text [s1], found at offset [off]
    of the whole text and followed by [rest], is matched by [r]; the groups
    of [r] turn the submatches [caps] into [caps']. *)
Inductive matches :
  regexp -> nat -> list ascii -> list ascii -> submatches -> submatches -> Prop :=
| matches_BeginText rest caps :
    matches BeginText 0 [] rest caps caps
| matches_EndText off caps :
    matches EndText off [] [] caps caps
| matches_Literal l off rest caps :
    matches (Literal l) off l rest caps caps
| matches_Plus cls off s1 rest caps :
    s1 <> [] -> forallb (inClass cls) s1 = true ->
    matches (Plus cls) off s1 rest caps caps
| matches_Capture n r off s1 rest caps caps' :
    matches r off s1 rest caps caps' ->
    matches (Capture n r) off s1 rest caps (<[n := s1]> caps')
| matches_Concat r1 r2 off s1 s2 rest caps caps1 caps2 :
    matches r1 off s1 (s2 ++ rest) caps caps1 ->
    matches r2 (off + length s1)%nat s2 rest caps1 caps2 ->
    matches (Concat r1 r2) off (s1 ++ s2) rest caps caps2.

(** The string [s] matches the pattern [r]: some part of it is matched by
    [r] (the anchors of [r] say where that part begins and ends). *)
Definition matchesPattern (r : regexp) (s : string) : Prop :=
  exists pre s1 post caps,
    chars s = pre ++ s1 ++ post
    /\ matches r (length pre) s1 post (replicate (S (numSubexp r)) []) caps.

(** [s] is not empty and none of its characters is [c]. *)
Definition nonEmptyWithout (c : ascii) (s : list ascii) : Prop :=
  s <> [] /\ forallb (fun a => negb (Ascii.eqb a c)) s = true.

Definition str (l : list ascii) : string := string_of_list_ascii l.

(** ** Notions used to state the properties of Create *)

(** The priorities that [highestListenerRulePriority] reads off rules: the
    integer that [strconv.Atoi] gives for each priority but "default". *)
Definition rulePriorities (rules : list Rule) : list Z :=
  map (fun rule => fst (Atoi (aws_StringValue (Priority rule))))
      (filter (fun rule => aws_StringValue (Priority rule) <> "default") rules).

Definition pagePriorities (pages : list DescribeRulesOutput) : list Z :=
  concat (map (fun out => rulePriorities (dro_Rules out)) pages).

(** [p] is the highest of the priorities [ps], and 0 when there is none. *)
Definition isHighest (ps : list Z) (p : Z) : Prop :=
  (ps = [] /\ p = 0) \/ (In p ps /\ Forall (fun x => x <= p) ps).

(** The pages of the rules of a listener: DescribeRules is called without
    marker first, then with the NextMarker of the page before, until a page
    comes without NextMarker.  [listing elb arn c marker pages c']: from the
    state [c] and the marker [marker] on, the calls succeed, return [pages]
    and leave the state [c']. *)
Inductive listing (elb : ELBV2) (arn : string) :
  conn elb -> option string -> list DescribeRulesOutput -> conn elb -> Prop :=
| listing_last c marker out c' :
    DescribeRules elb c
      {| dri_ListenerArn := Some arn; dri_Marker := marker; dri_RuleArns := [] |}
    = (c', inl out) ->
    dro_NextMarker out = None ->
    listing elb arn c marker [out] c'
| listing_next c marker out c' next pages c'' :
    DescribeRules elb c
      {| dri_ListenerArn := Some arn; dri_Marker := marker; dri_RuleArns := [] |}
    = (c', inl out) ->
    dro_NextMarker out = Some next ->
    listing elb arn c' (Some next) pages c'' ->
    listing elb arn c marker (out :: pages) c''.

(** [n] attempts in a row, from the state [s] to the state [s'], in each of
    which CreateRule fails with the code PriorityInUseException. *)
Inductive inUseFailures (elb : ELBV2) (fuel : nat) (arn : string) :
  nat -> createState elb -> createState elb -> Prop :=
| inUseFailures_O s : inUseFailures elb fuel arn 0 s s
| inUseFailures_S n s c p c' err s' :
    highestListenerRulePriority elb fuel (cs_conn s) arn = Some (c, (p, None)) ->
    CreateRule elb c (withPriority (cs_params s) (wrap64 (p + 1))) = (c', inr err) ->
    isAWSErr err ErrCodePriorityInUseException "" = true ->
    inUseFailures elb fuel arn n
      {| cs_conn := c'; cs_params := withPriority (cs_params s) (wrap64 (p + 1));
         cs_resp := None |} s' ->
    inUseFailures elb fuel arn (S n) s s'.

(** The client [elb] with a counter of the calls of CreateRule. *)
Definition counted (elb : ELBV2) : ELBV2 :=
  {| conn := conn elb * nat;
     DescribeRules := fun c input =>
       let (c', res) := DescribeRules elb (fst c) input in ((c', snd c), res);
     CreateRule := fun c input =>
       let (c', res) := CreateRule elb (fst c) input in ((c', S (snd c)), res);
     DeleteRule := fun c input =>
       let (c', res) := DeleteRule elb (fst c) input in ((c', snd c), res) |}.

(** C3 as it is stated: a create without priority calls CreateRule at most
    twice, the first attempt and one retry. *)
Definition retriedAtMostOnce : Prop :=
  forall (elb : ELBV2) (budget fuel : nat) (c : conn elb) (d : ResourceData)
         (listenerArn : string) (params : CreateRuleInput) c' calls d' err,
    resourceAwsLbListenerRuleCreate (counted elb) budget fuel (c, 0%nat) d
      listenerArn params None
    = Some ((c', calls), d', err) ->
    (calls <= 2)%nat.

(** ** An example listener

    A listener whose rules come in two pages, with the priorities 1, 7 and 3
    and the default rule.  The state is the number of CreateRule calls so
    far: the first two fail because another client took the priority, the
    third succeeds. *)
Definition examplePage1 : DescribeRulesOutput :=
  {| dro_Rules := [ {| RuleArn := Some "rule/1"; Priority := Some "1"; Conditions := [] |};
                    {| RuleArn := Some "rule/0"; Priority := Some "default"; Conditions := [] |} ];
     dro_NextMarker := Some "page2" |}.

Definition examplePage2 : DescribeRulesOutput :=
  {| dro_Rules := [ {| RuleArn := Some "rule/7"; Priority := Some "7"; Conditions := [] |};
                    {| RuleArn := Some "rule/3"; Priority := Some "3"; Conditions := [] |} ];
     dro_NextMarker := None |}.

Definition exampleListener : ELBV2 :=
  {| conn := nat;
     DescribeRules := fun c input =>
       (c, match dri_Marker input with
           | None => inl examplePage1
           | Some _ => inl examplePage2
           end);
     CreateRule := fun c input =>
       (S c,
        if (c <? 2)%nat
        then inr (AWSError ErrCodePriorityInUseException "Priority '8' is currently in use")
        else inl {| cro_Rules := [ {| RuleArn := Some "rule/8"; Priority := Some "8";
                                      Conditions := cri_Conditions input |} ] |});
     DeleteRule := fun c input =>
       (c, Some (AWSError ErrCodeRuleNotFoundException "One or more rules not found")) |}.

Definition exampleParams : CreateRuleInput :=
  {| cri_ListenerArn := Some "listener/1"; cri_Priority := None;
     cri_Conditions := [] |}.

Definition exampleData : ResourceData := {| rd_Id := ""; rd_attrs := ∅ |}.

Definition exampleState (calls : nat) (params : CreateRuleInput)
  : createState exampleListener :=
  {| cs_conn := calls : conn exampleListener; cs_params := params; cs_resp := None |}.

(** ** Notions used to state further properties of the conditions *)

(** The six values of [field] that the schema admits. *)
Definition isConditionField (field : string) : bool :=
  String.eqb field "host-header" || String.eqb field "http-header"
  || String.eqb field "http-request-method" || String.eqb field "path-pattern"
  || String.eqb field "query-string" || String.eqb field "source-ip".

(** The fields whose configuration is set in a rule condition. *)
Definition configFields (c : RuleCondition) : list string :=
  (if isSome (HostHeaderConfig c) then ["host-header"] else [])
  ++ (if isSome (HttpHeaderConfig c) then ["http-header"] else [])
  ++ (if isSome (HttpRequestMethodConfig c) then ["http-request-method"] else [])
  ++ (if isSome (PathPatternConfig c) then ["path-pattern"] else [])
  ++ (if isSome (QueryStringConfig c) then ["query-string"] else [])
  ++ (if isSome (SourceIpConfig c) then ["source-ip"] else []).

(** The key of the block that belongs to a field. *)
Definition blockKey (field : string) : string :=
  if String.eqb field "host-header" then "host_header"
  else if String.eqb field "http-header" then "http_header"
  else if String.eqb field "http-request-method" then "http_request_method"
  else if String.eqb field "path-pattern" then "path_pattern"
  else if String.eqb field "query-string" then "query_string"
  else if String.eqb field "source-ip" then "source_ip"
  else "".

(** The values of a block as the hash writes them: each one followed by a
    dash. *)
Definition dashed (vs : list string) : string :=
  String.concat "" (map (fun v => v +:+ "-") vs).

(** The pages of a listener end with a failure: DescribeRules succeeds on
    [pages] and then fails with [err], leaving the state [c']. *)
Inductive listingFails (elb : ELBV2) (arn : string) :
  conn elb -> option string -> list DescribeRulesOutput -> conn elb -> error -> Prop :=
| listingFails_now c marker c' err :
    DescribeRules elb c
      {| dri_ListenerArn := Some arn; dri_Marker := marker; dri_RuleArns := [] |}
    = (c', inr err) ->
    listingFails elb arn c marker [] c' err
| listingFails_later c marker out c' next pages c'' err :
    DescribeRules elb c
      {| dri_ListenerArn := Some arn; dri_Marker := marker; dri_RuleArns := [] |}
    = (c', inl out) ->
    dro_NextMarker out = Some next ->
    listingFails elb arn c' (Some next) pages c'' err ->
    listingFails elb arn c marker (out :: pages) c'' err.

(** A listener whose rules cannot be listed: DescribeRules fails, with the
    code PriorityInUseException of all codes.  The state is the number of
    calls made so far. *)
Definition brokenListener : ELBV2 :=
  {| conn := nat;
     DescribeRules := fun c input =>
       (S c, inr (AWSError ErrCodePriorityInUseException "try again"));
     CreateRule := fun c input => (S c, inl {| cro_Rules := [] |});
     DeleteRule := fun c input => (S c, None) |}.

(** ** The suppression of differences

    [strings.IndexFunc(s, f)] calls [f] on the characters of [s] in turn
    and returns the byte offset of the first one on which [f] holds, or -1.
    The functions given to it below keep a counter: [f] takes the state
    and returns the new one.  They hold on the character ['.'] only, which
    is one byte and never part of a longer character, so that the walk
    over the bytes finds the same offset. *)
Fixpoint IndexFuncFrom {St : Type} (f : St -> ascii -> St * bool) (st : St)
  (s : list ascii) (i : Z) : Z :=
  match s with
  | [] => -1
  | r :: s' =>
      let (st', found) := f st r in
      if found then i else IndexFuncFrom f st' s' (i + 1)
  end.

Definition strings_IndexFunc {St : Type} (s : string)
  (f : St -> ascii -> St * bool) (st : St) : Z :=
  IndexFuncFrom f st (chars s) 0.

(** [func(r rune) bool { if r == '.' { take -= 1; return take == 0 };
    return false }] *)
Definition takeDots (take : Z) (r : ascii) : Z * bool :=
  if Ascii.eqb r "."
  then let take := take - 1 in (take, take =? 0)
  else (take, false).

(** [s[:n]] for [0 <= n <= len(s)]. *)
Definition slice_to (s : string) (n : Z) : string :=
  str (take (Z.to_nat n) (chars s)).

(** [for _, f := range fs { if field == f { return false } }; return true] *)
Fixpoint fieldNotIn (field : string) (fs : list string) : bool :=
  match fs with
  | [] => true
  | f :: fs' => if String.eqb field f then false else fieldNotIn field fs'
  end.

(** [suppressIfActionTypeNot(t)] applied to [k, old, new, d].  Of [d] the
    function uses [d.Get(at).(string)]: [Get at] is that string, and [None]
    when [d.Get(at)] is no string and the type assertion panics. *)
Definition suppressIfActionTypeNot (t : string) (k old new : string)
  (Get : string -> option string) : outcome bool :=
  let take := 2 in
  let i := strings_IndexFunc k takeDots take in
  let at_ := slice_to k (i + 1) +:+ "type" in
  match Get at_ with
  | Some type => Returns (negb (String.eqb type t))
  | None => Panics
  end.

(** [suppressIfConditionFieldNotIn(fs)] applied to [k, old, new, d]. *)
Definition suppressIfConditionFieldNotIn (fs : list string) (k old new : string)
  (Get : string -> option string) : outcome bool :=
  let take := 2 in
  let i := strings_IndexFunc k takeDots take in
  let at_ := slice_to k (i + 1) +:+ "field" in
  match Get at_ with
  | Some field => Returns (fieldNotIn field fs)
  | None => Panics
  end.

(** A string without dot. *)
Definition dotFree (s : string) : bool :=
  forallb (fun a => negb (Ascii.eqb a ".")) (chars s).

(** The state of an example: the field of the condition 123 and the type of
    the first action. *)
Definition exampleGet (key : string) : option string :=
  if String.eqb key "condition.123.field" then Some "path-pattern"
  else if String.eqb key "action.0.type" then Some "forward"
  else None.

(** ** Actions: the schema representation

    An element of the [action] list as the schema hands it to the resource.
    Where the code asks whether a key is there ([v, ok := m[key]]) the key
    is an option; a nested block is a list whose element can be [nil]. *)

Record redirectMap := {
  rm_host : string; rm_path : string; rm_port : string;
  rm_protocol : string; rm_query : string; rm_status_code : string }.

Record fixedResponseMap := {
  fr_content_type : string; fr_message_body : string; fr_status_code : string }.

Record authenticateCognitoMap := {
  ac_authentication_request_extra_params : gmap string string;
  ac_on_unauthenticated_request : option string;
  ac_scope : option string;
  ac_session_cookie_name : option string;
  ac_session_timeout : option Z;
  ac_user_pool_arn : string;
  ac_user_pool_client_id : string;
  ac_user_pool_domain : string }.

Record authenticateOidcMap := {
  ao_authentication_request_extra_params : gmap string string;
  ao_authorization_endpoint : string;
  ao_client_id : string;
  ao_client_secret : string;
  ao_issuer : string;
  ao_on_unauthenticated_request : option string;
  ao_scope : option string;
  ao_session_cookie_name : option string;
  ao_session_timeout : option Z;
  ao_token_endpoint : string;
  ao_user_info_endpoint : string }.

Record actionMap := {
  am_type : string;
  am_order : option Z;
  am_target_group_arn : string;
  am_redirect : list (option redirectMap);
  am_fixed_response : list (option fixedResponseMap);
  am_authenticate_cognito : list (option authenticateCognitoMap);
  am_authenticate_oidc : list (option authenticateOidcMap) }.

(** ** Actions: the SDK types *)

Definition aws_Int64 (i : Z) : option Z := Some i.

Definition aws_Int64Value (p : option Z) : Z :=
  match p with Some i => i | None => 0 end.

Record RedirectActionConfig := {
  rc_Host : option string; rc_Path : option string; rc_Port : option string;
  rc_Protocol : option string; rc_Query : option string;
  rc_StatusCode : option string }.

Record FixedResponseActionConfig := {
  fc_ContentType : option string; fc_MessageBody : option string;
  fc_StatusCode : option string }.

Record AuthenticateCognitoActionConfig := {
  cc_AuthenticationRequestExtraParams : gmap string (option string);
  cc_OnUnauthenticatedRequest : option string;
  cc_Scope : option string;
  cc_SessionCookieName : option string;
  cc_SessionTimeout : option Z;
  cc_UserPoolArn : option string;
  cc_UserPoolClientId : option string;
  cc_UserPoolDomain : option string }.

Record AuthenticateOidcActionConfig := {
  oc_AuthenticationRequestExtraParams : gmap string (option string);
  oc_AuthorizationEndpoint : option string;
  oc_ClientId : option string;
  oc_ClientSecret : option string;
  oc_Issuer : option string;
  oc_OnUnauthenticatedRequest : option string;
  oc_Scope : option string;
  oc_SessionCookieName : option string;
  oc_SessionTimeout : option Z;
  oc_TokenEndpoint : option string;
  oc_UserInfoEndpoint : option string }.

(** [elbv2.Action] *)
Record Action := {
  act_Order : option Z;
  act_Type : option string;
  act_TargetGroupArn : option string;
  act_RedirectConfig : option RedirectActionConfig;
  act_FixedResponseConfig : option FixedResponseActionConfig;
  act_AuthenticateCognitoConfig : option AuthenticateCognitoActionConfig;
  act_AuthenticateOidcConfig : option AuthenticateOidcActionConfig }.

(** ** The expansion of the actions

    The loop over [d.Get("action")] is written out twice in the source, in
    [resourceAwsLbListenerRuleCreate] and in [resourceAwsLbListenerRuleUpdate],
    with the same text. *)

(** [if v, ok := m[key]; ok && v != "" { config.X = aws.String(v.(string)) }] *)
Definition optionalString (v : option string) : option string :=
  match v with
  | Some s => if negb (String.eqb s "") then aws_String s else None
  | None => None
  end.

(** [if v, ok := m[key]; ok && v != 0 { config.X = aws.Int64(int64(v.(int))) }] *)
Definition optionalInt64 (v : option Z) : option Z :=
  match v with
  | Some i => if negb (i =? 0) then aws_Int64 i else None
  | None => None
  end.

(** The action built for the element [i] of the list (counted from 0), or
    the error that ends the function. *)
Definition lbListenerRuleAction (i : nat) (actionMap : actionMap)
  : outcome (Action + error) :=
  let order0 := aws_Int64 (Z.of_nat i + 1) in
  let order :=
    match am_order actionMap with
    | Some order => if negb (order =? 0) then aws_Int64 order else order0
    | None => order0
    end in
  let action target redirect fixedResponse cognito oidc :=
    {| act_Order := order;
       act_Type := aws_String (am_type actionMap);
       act_TargetGroupArn := target;
       act_RedirectConfig := redirect;
       act_FixedResponseConfig := fixedResponse;
       act_AuthenticateCognitoConfig := cognito;
       act_AuthenticateOidcConfig := oidc |} in
  let type := am_type actionMap in
  if String.eqb type "forward" then
    Returns (inl (action (aws_String (am_target_group_arn actionMap))
                    None None None None))
  else if String.eqb type "redirect" then
    match am_redirect actionMap with
    | [Some redirectMap] =>
        Returns (inl (action None
          (Some {| rc_Host := aws_String (rm_host redirectMap);
                   rc_Path := aws_String (rm_path redirectMap);
                   rc_Port := aws_String (rm_port redirectMap);
                   rc_Protocol := aws_String (rm_protocol redirectMap);
                   rc_Query := aws_String (rm_query redirectMap);
                   rc_StatusCode := aws_String (rm_status_code redirectMap) |})
          None None None))
    | [None] => Panics
    | _ =>
        Returns (inr (ErrorsNew
          "for actions of type 'redirect', you must specify a 'redirect' block"))
    end
  else if String.eqb type "fixed-response" then
    match am_fixed_response actionMap with
    | [Some fixedResponseMap] =>
        Returns (inl (action None None
          (Some {| fc_ContentType := aws_String (fr_content_type fixedResponseMap);
                   fc_MessageBody := aws_String (fr_message_body fixedResponseMap);
                   fc_StatusCode := aws_String (fr_status_code fixedResponseMap) |})
          None None))
    | [None] => Panics
    | _ =>
        Returns (inr (ErrorsNew
          "for actions of type 'fixed-response', you must specify a 'fixed_response' block"))
    end
  else if String.eqb type "authenticate-cognito" then
    match am_authenticate_cognito actionMap with
    | [Some authenticateCognitoMap] =>
        let authenticationRequestExtraParams :=
          aws_String <$> ac_authentication_request_extra_params authenticateCognitoMap in
        Returns (inl (action None None None
          (Some {| cc_AuthenticationRequestExtraParams := authenticationRequestExtraParams;
                   cc_UserPoolArn := aws_String (ac_user_pool_arn authenticateCognitoMap);
                   cc_UserPoolClientId :=
                     aws_String (ac_user_pool_client_id authenticateCognitoMap);
                   cc_UserPoolDomain :=
                     aws_String (ac_user_pool_domain authenticateCognitoMap);
                   cc_OnUnauthenticatedRequest :=
                     optionalString (ac_on_unauthenticated_request authenticateCognitoMap);
                   cc_Scope := optionalString (ac_scope authenticateCognitoMap);
                   cc_SessionCookieName :=
                     optionalString (ac_session_cookie_name authenticateCognitoMap);
                   cc_SessionTimeout :=
                     optionalInt64 (ac_session_timeout authenticateCognitoMap) |})
          None))
    | [None] => Panics
    | _ =>
        Returns (inr (ErrorsNew
          "for actions of type 'authenticate-cognito', you must specify a 'authenticate_cognito' block"))
    end
  else if String.eqb type "authenticate-oidc" then
    match am_authenticate_oidc actionMap with
    | [Some authenticateOidcMap] =>
        let authenticationRequestExtraParams :=
          aws_String <$> ao_authentication_request_extra_params authenticateOidcMap in
        Returns (inl (action None None None None
          (Some {| oc_AuthenticationRequestExtraParams := authenticationRequestExtraParams;
                   oc_AuthorizationEndpoint :=
                     aws_String (ao_authorization_endpoint authenticateOidcMap);
                   oc_ClientId := aws_String (ao_client_id authenticateOidcMap);
                   oc_ClientSecret := aws_String (ao_client_secret authenticateOidcMap);
                   oc_Issuer := aws_String (ao_issuer authenticateOidcMap);
                   oc_TokenEndpoint := aws_String (ao_token_endpoint authenticateOidcMap);
                   oc_UserInfoEndpoint :=
                     aws_String (ao_user_info_endpoint authenticateOidcMap);
                   oc_OnUnauthenticatedRequest :=
                     optionalString (ao_on_unauthenticated_request authenticateOidcMap);
                   oc_Scope := optionalString (ao_scope authenticateOidcMap);
                   oc_SessionCookieName :=
                     optionalString (ao_session_cookie_name authenticateOidcMap);
                   oc_SessionTimeout :=
                     optionalInt64 (ao_session_timeout authenticateOidcMap) |})))
    | [None] => Panics
    | _ =>
        Returns (inr (ErrorsNew
          "for actions of type 'authenticate-oidc', you must specify a 'authenticate_oidc' block"))
    end
  else Returns (inl (action None None None None None)).

(** The loop over the actions that are left, from the index [i] on;
    [elbActions] are the actions built so far. *)
Fixpoint lbListenerRuleActionsFrom (i : nat) (elbActions : list Action)
  (actions : list actionMap) : outcome (list Action + error) :=
  match actions with
  | [] => Returns (inl elbActions)
  | action :: rest =>
      match lbListenerRuleAction i action with
      | Panics => Panics
      | Returns (inr err) => Returns (inr err)
      | Returns (inl elbAction) =>
          lbListenerRuleActionsFrom (S i) (elbActions ++ [elbAction]) rest
      end
  end.

(** The actions of the request, or the error that the function returns. *)
Definition lbListenerRuleActions (actions : list actionMap)
  : outcome (list Action + error) :=
  lbListenerRuleActionsFrom 0 [] actions.

(** ** Read: the actions

    The map built for one action in [resourceAwsLbListenerRuleRead].  As
    for the conditions, a key that the code leaves out of the map is the
    zero value of the schema here.  The client secret of an
    [authenticate-oidc] action is not taken from the API but from the
    resource data: [clientSecret] is
    [d.Get("action.<i>.authenticate_oidc.0.client_secret")].  Reading a
    member of a configuration that is nil panics. *)
Definition flattenAction (clientSecret : string) (action : Action)
  : outcome actionMap :=
  let type := aws_StringValue (act_Type action) in
  let actionMap target redirect fixedResponse cognito oidc :=
    {| am_type := type;
       am_order := Some (aws_Int64Value (act_Order action));
       am_target_group_arn := target;
       am_redirect := redirect;
       am_fixed_response := fixedResponse;
       am_authenticate_cognito := cognito;
       am_authenticate_oidc := oidc |} in
  if String.eqb type "forward" then
    Returns (actionMap (aws_StringValue (act_TargetGroupArn action)) [] [] [] [])
  else if String.eqb type "redirect" then
    match act_RedirectConfig action with
    | None => Panics
    | Some cfg =>
        Returns (actionMap ""
          [Some {| rm_host := aws_StringValue (rc_Host cfg);
                   rm_path := aws_StringValue (rc_Path cfg);
                   rm_port := aws_StringValue (rc_Port cfg);
                   rm_protocol := aws_StringValue (rc_Protocol cfg);
                   rm_query := aws_StringValue (rc_Query cfg);
                   rm_status_code := aws_StringValue (rc_StatusCode cfg) |}]
          [] [] [])
    end
  else if String.eqb type "fixed-response" then
    match act_FixedResponseConfig action with
    | None => Panics
    | Some cfg =>
        Returns (actionMap "" []
          [Some {| fr_content_type := aws_StringValue (fc_ContentType cfg);
                   fr_message_body := aws_StringValue (fc_MessageBody cfg);
                   fr_status_code := aws_StringValue (fc_StatusCode cfg) |}]
          [] [])
    end
  else if String.eqb type "authenticate-cognito" then
    match act_AuthenticateCognitoConfig action with
    | None => Panics
    | Some cfg =>
        let authenticationRequestExtraParams :=
          aws_StringValue <$> cc_AuthenticationRequestExtraParams cfg in
        Returns (actionMap "" [] []
          [Some {| ac_authentication_request_extra_params :=
                     authenticationRequestExtraParams;
                   ac_on_unauthenticated_request :=
                     Some (aws_StringValue (cc_OnUnauthenticatedRequest cfg));
                   ac_scope := Some (aws_StringValue (cc_Scope cfg));
                   ac_session_cookie_name :=
                     Some (aws_StringValue (cc_SessionCookieName cfg));
                   ac_session_timeout := Some (aws_Int64Value (cc_SessionTimeout cfg));
                   ac_user_pool_arn := aws_StringValue (cc_UserPoolArn cfg);
                   ac_user_pool_client_id := aws_StringValue (cc_UserPoolClientId cfg);
                   ac_user_pool_domain := aws_StringValue (cc_UserPoolDomain cfg) |}]
          [])
    end
  else if String.eqb type "authenticate-oidc" then
    match act_AuthenticateOidcConfig action with
    | None => Panics
    | Some cfg =>
        let authenticationRequestExtraParams :=
          aws_StringValue <$> oc_AuthenticationRequestExtraParams cfg in
        Returns (actionMap "" [] [] []
          [Some {| ao_authentication_request_extra_params :=
                     authenticationRequestExtraParams;
                   ao_authorization_endpoint :=
                     aws_StringValue (oc_AuthorizationEndpoint cfg);
                   ao_client_id := aws_StringValue (oc_ClientId cfg);
                   ao_client_secret := clientSecret;
                   ao_issuer := aws_StringValue (oc_Issuer cfg);
                   ao_on_unauthenticated_request :=
                     Some (aws_StringValue (oc_OnUnauthenticatedRequest cfg));
                   ao_scope := Some (aws_StringValue (oc_Scope cfg));
                   ao_session_cookie_name :=
                     Some (aws_StringValue (oc_SessionCookieName cfg));
                   ao_session_timeout := Some (aws_Int64Value (oc_SessionTimeout cfg));
                   ao_token_endpoint := aws_StringValue (oc_TokenEndpoint cfg);
                   ao_user_info_endpoint :=
                     aws_StringValue (oc_UserInfoEndpoint cfg) |}])
    end
  else Returns (actionMap "" [] [] [] []).

(** The loop of Read over [rule.Actions], which [sort.Slice] has put in
    the order of [Order] before: [GetClientSecret i] is the client secret
    that the resource data holds for the action [i]. *)
Fixpoint flattenActionsFrom (i : nat) (GetClientSecret : nat -> string)
  (actions : list Action) : outcome (list actionMap) :=
  match actions with
  | [] => Returns []
  | action :: rest =>
      match flattenAction (GetClientSecret i) action with
      | Panics => Panics
      | Returns actionMap =>
          match flattenActionsFrom (S i) GetClientSecret rest with
          | Panics => Panics
          | Returns actionMaps => Returns (actionMap :: actionMaps)
          end
      end
  end.

(** What [sort.Slice(rule.Actions, less)] does with [less] comparing the
    orders: [sorted] holds the actions of [actions] in an order in which
    no action comes before one of lower order.  (The sort is not stable:
    the order among actions of equal order is not determined.) *)
Definition sortedByOrder (actions sorted : list Action) : Prop :=
  sorted ≡ₚ actions
  /\ StronglySorted
       (fun a b => aws_Int64Value (act_Order a) <= aws_Int64Value (act_Order b))
       sorted.

(** ** Notions used to state the properties of the actions *)

(** The values of an action, as strings: those of the member that its type
    selects; the client secret of an [authenticate-oidc] action apart. *)
Inductive actionValues :=
| ForwardValues (targetGroupArn : string)
| RedirectValues (host path port protocol query statusCode : string)
| FixedResponseValues (contentType messageBody statusCode : string)
| CognitoValues (params : gmap string string)
    (onUnauthenticatedRequest scope sessionCookieName : string)
    (sessionTimeout : Z) (userPoolArn userPoolClientId userPoolDomain : string)
| OidcValues (params : gmap string string)
    (authorizationEndpoint clientId issuer : string)
    (onUnauthenticatedRequest scope sessionCookieName : string)
    (sessionTimeout : Z) (tokenEndpoint userInfoEndpoint : string)
| NoActionValues.

Definition actionValuesOf (a : Action) : actionValues :=
  let type := aws_StringValue (act_Type a) in
  if String.eqb type "forward" then
    ForwardValues (aws_StringValue (act_TargetGroupArn a))
  else if String.eqb type "redirect" then
    match act_RedirectConfig a with
    | Some cfg =>
        RedirectValues (aws_StringValue (rc_Host cfg)) (aws_StringValue (rc_Path cfg))
          (aws_StringValue (rc_Port cfg)) (aws_StringValue (rc_Protocol cfg))
          (aws_StringValue (rc_Query cfg)) (aws_StringValue (rc_StatusCode cfg))
    | None => NoActionValues
    end
  else if String.eqb type "fixed-response" then
    match act_FixedResponseConfig a with
    | Some cfg =>
        FixedResponseValues (aws_StringValue (fc_ContentType cfg))
          (aws_StringValue (fc_MessageBody cfg)) (aws_StringValue (fc_StatusCode cfg))
    | None => NoActionValues
    end
  else if String.eqb type "authenticate-cognito" then
    match act_AuthenticateCognitoConfig a with
    | Some cfg =>
        CognitoValues (aws_StringValue <$> cc_AuthenticationRequestExtraParams cfg)
          (aws_StringValue (cc_OnUnauthenticatedRequest cfg))
          (aws_StringValue (cc_Scope cfg))
          (aws_StringValue (cc_SessionCookieName cfg))
          (aws_Int64Value (cc_SessionTimeout cfg))
          (aws_StringValue (cc_UserPoolArn cfg))
          (aws_StringValue (cc_UserPoolClientId cfg))
          (aws_StringValue (cc_UserPoolDomain cfg))
    | None => NoActionValues
    end
  else if String.eqb type "authenticate-oidc" then
    match act_AuthenticateOidcConfig a with
    | Some cfg =>
        OidcValues (aws_StringValue <$> oc_AuthenticationRequestExtraParams cfg)
          (aws_StringValue (oc_AuthorizationEndpoint cfg))
          (aws_StringValue (oc_ClientId cfg))
          (aws_StringValue (oc_Issuer cfg))
          (aws_StringValue (oc_OnUnauthenticatedRequest cfg))
          (aws_StringValue (oc_Scope cfg))
          (aws_StringValue (oc_SessionCookieName cfg))
          (aws_Int64Value (oc_SessionTimeout cfg))
          (aws_StringValue (oc_TokenEndpoint cfg))
          (aws_StringValue (oc_UserInfoEndpoint cfg))
    | None => NoActionValues
    end
  else NoActionValues.

(** The type of an action is one of the five, and the configuration of a
    type that has one is not nil. *)
Definition actionConfigPresent (a : Action) : bool :=
  match act_Type a with
  | None => false
  | Some type =>
      String.eqb type "forward"
      || (String.eqb type "redirect" && isSome (act_RedirectConfig a))
      || (String.eqb type "fixed-response" && isSome (act_FixedResponseConfig a))
      || (String.eqb type "authenticate-cognito"
          && isSome (act_AuthenticateCognitoConfig a))
      || (String.eqb type "authenticate-oidc"
          && isSome (act_AuthenticateOidcConfig a))
  end.

(** The order that the expansion gives the action [i] of the list. *)
Definition orderOf (i : nat) (m : actionMap) : Z :=
  match am_order m with
  | Some order => if order =? 0 then Z.of_nat i + 1 else order
  | None => Z.of_nat i + 1
  end.

Definition hasOne {A} (l : list A) : bool :=
  match l with [_] => true | _ => false end.

(** The type of the action needs a block and the list of that block does
    not hold exactly one element. *)
Definition missingActionBlock (m : actionMap) : bool :=
  let type := am_type m in
  (String.eqb type "redirect" && negb (hasOne (am_redirect m)))
  || (String.eqb type "fixed-response" && negb (hasOne (am_fixed_response m)))
  || (String.eqb type "authenticate-cognito"
      && negb (hasOne (am_authenticate_cognito m)))
  || (String.eqb type "authenticate-oidc"
      && negb (hasOne (am_authenticate_oidc m))).

(** The one element of the block of the type of the action is [nil]. *)
Definition nilActionBlock (m : actionMap) : bool :=
  let type := am_type m in
  (String.eqb type "redirect"
   && match am_redirect m with [None] => true | _ => false end)
  || (String.eqb type "fixed-response"
      && match am_fixed_response m with [None] => true | _ => false end)
  || (String.eqb type "authenticate-cognito"
      && match am_authenticate_cognito m with [None] => true | _ => false end)
  || (String.eqb type "authenticate-oidc"
      && match am_authenticate_oidc m with [None] => true | _ => false end).

(** The members of an action that are set, by the name of their type. *)
Definition configTypes (a : Action) : list string :=
  (if isSome (act_TargetGroupArn a) then ["forward"] else [])
  ++ (if isSome (act_RedirectConfig a) then ["redirect"] else [])
  ++ (if isSome (act_FixedResponseConfig a) then ["fixed-response"] else [])
  ++ (if isSome (act_AuthenticateCognitoConfig a) then ["authenticate-cognito"] else [])
  ++ (if isSome (act_AuthenticateOidcConfig a) then ["authenticate-oidc"] else []).

Definition isActionType (type : string) : bool :=
  String.eqb type "forward" || String.eqb type "redirect"
  || String.eqb type "fixed-response" || String.eqb type "authenticate-cognito"
  || String.eqb type "authenticate-oidc".

(** ** Example actions *)

Definition forwardMap (order : option Z) (targetGroupArn : string) : actionMap :=
  {| am_type := "forward"; am_order := order;
     am_target_group_arn := targetGroupArn;
     am_redirect := []; am_fixed_response := [];
     am_authenticate_cognito := []; am_authenticate_oidc := [] |}.

Definition redirectWithoutBlock : actionMap :=
  {| am_type := "redirect"; am_order := Some 0;
     am_target_group_arn := "targetgroup/1";
     am_redirect := []; am_fixed_response := [];
     am_authenticate_cognito := []; am_authenticate_oidc := [] |}.

Definition exampleOidcAction : Action :=
  {| act_Order := Some 1; act_Type := Some "authenticate-oidc";
     act_TargetGroupArn := None; act_RedirectConfig := None;
     act_FixedResponseConfig := None; act_AuthenticateCognitoConfig := None;
     act_AuthenticateOidcConfig :=
       Some {| oc_AuthenticationRequestExtraParams := {[ "display" := Some "page" ]};
               oc_AuthorizationEndpoint := Some "https://example.com/authorize";
               oc_ClientId := Some "client";
               oc_ClientSecret := None;
               oc_Issuer := Some "https://example.com";
               oc_OnUnauthenticatedRequest := Some "authenticate";
               oc_Scope := Some "openid";
               oc_SessionCookieName := Some "AWSELBAuthSessionCookie";
               oc_SessionTimeout := Some 604800;
               oc_TokenEndpoint := Some "https://example.com/token";
               oc_UserInfoEndpoint := Some "https://example.com/userinfo" |} |}.

Definition exampleForwardAction : Action :=
  {| act_Order := Some 2; act_Type := Some "forward";
     act_TargetGroupArn := Some "targetgroup/1"; act_RedirectConfig := None;
     act_FixedResponseConfig := None; act_AuthenticateCognitoConfig := None;
     act_AuthenticateOidcConfig := None |}.

(** ** Read: the retried DescribeRules call *)

Section Describe.

Variable elb : ELBV2.

(** The variables that the function given to [resource.Retry] in
    [resourceAwsLbListenerRuleRead] captures: the connection and [resp].
    After a call that fails [resp] is not read any more; it is [None]
    then, as it is before the first call. *)
Record readState := {
  rs_conn : conn elb;
  rs_resp : option DescribeRulesOutput }.

(** One call of that function: [isNew] is [d.IsNewResource()], [id] is
    [d.Id()]. *)
Definition describeAttempt (isNew : bool) (id : string) (s : readState)
  : readState * option RetryError :=
  let (c', res) :=
    DescribeRules elb (rs_conn s)
      {| dri_ListenerArn := None; dri_Marker := None;
         dri_RuleArns := [aws_String id] |} in
  match res with
  | inr err =>
      let s' := {| rs_conn := c'; rs_resp := None |} in
      if isNew && isAWSErr err ErrCodeRuleNotFoundException ""
      then (s', Some (RetryableError err))
      else (s', Some (NonRetryableError err))
  | inl out => ({| rs_conn := c'; rs_resp := Some out |}, None)
  end.

(** The whole of [resourceAwsLbListenerRuleRead]: the retried call, then
    the function above on its outcome.  [budget] is the number of calls
    that fit in the minute given to [resource.Retry].  The result is the
    state of the connection, the resource data and the error; [Panics]
    stands for the function not returning, which is what reading a nil
    [resp] would give. *)
Definition resourceAwsLbListenerRuleRead_all (budget : nat) (isNew : bool)
  (c : conn elb) (d : ResourceData)
  : outcome (conn elb * ResourceData * option error) :=
  match Retry budget (fun s => Some (describeAttempt isNew (rd_Id d) s))
          {| rs_conn := c; rs_resp := None |} with
  | None => Panics
  | Some (s, Some err) =>
      let (d', e) := resourceAwsLbListenerRuleRead (inr err) d in
      Returns (rs_conn s, d', e)
  | Some (s, None) =>
      match rs_resp s with
      | None => Panics
      | Some resp =>
          let (d', e) := resourceAwsLbListenerRuleRead (inl resp) d in
          Returns (rs_conn s, d', e)
      end
  end.

End Describe.

Arguments rs_conn {elb} _.
Arguments rs_resp {elb} _.

(** The request that Read sends for the rule [id]. *)
Definition describeRule (id : string) : DescribeRulesInput :=
  {| dri_ListenerArn := None; dri_Marker := None;
     dri_RuleArns := [aws_String id] |}.

(** [n] calls of DescribeRules for the rule [id] in a row, from the state
    [c] of the connection to the state [c'], each of which fails with the
    code RuleNotFoundException. *)
Inductive notFoundFailures (elb : ELBV2) (id : string) :
  nat -> conn elb -> conn elb -> Prop :=
| notFoundFailures_O c : notFoundFailures elb id 0 c c
| notFoundFailures_S n c c1 err c' :
    DescribeRules elb c (describeRule id) = (c1, inr err) ->
    isAWSErr err ErrCodeRuleNotFoundException "" = true ->
    notFoundFailures elb id n c1 c' ->
    notFoundFailures elb id (S n) c c'.

(** The outcome of a call is something else than the rule not being
    found. *)
Definition foundOrFailed (res : DescribeRulesOutput + error) : bool :=
  match res with
  | inl _ => true
  | inr err => negb (isAWSErr err ErrCodeRuleNotFoundException "")
  end.

(** A listener on which a new rule shows up late: the state is the number
    of DescribeRules calls so far, the first two of which do not find the
    rule. *)
Definition eventualListener : ELBV2 :=
  {| conn := nat;
     DescribeRules := fun c input =>
       (S c,
        if (c <? 2)%nat
        then inr (AWSError ErrCodeRuleNotFoundException "One or more rules not found")
        else inl {| dro_Rules :=
                      [ {| RuleArn := Some "arn:aws:elasticloadbalancing:us-west-2:187416307283:listener-rule/app/test/8e4497da625e2d8a/9ab28ade35828f96/67b3d2d36dd7c26b";
                           Priority := Some "8"; Conditions := [] |} ];
                    dro_NextMarker := None |});
     CreateRule := fun c input => (c, inl {| cro_Rules := [] |});
     DeleteRule := fun c input => (c, None) |}.

Definition exampleRuleData : ResourceData :=
  {| rd_Id := "arn:aws:elasticloadbalancing:us-west-2:187416307283:listener-rule/app/test/8e4497da625e2d8a/9ab28ade35828f96/67b3d2d36dd7c26b";
     rd_attrs := ∅ |}.

(** ** Update *)

Record RulePriorityPair := {
  rpp_RuleArn : option string;
  rpp_Priority : option Z }.

Record SetRulePrioritiesInput := {
  srpi_RulePriorities : list RulePriorityPair }.

(** [Actions] and [Conditions] are slices: [None] is the nil slice of a
    member that is not set. *)
Record ModifyRuleInput := {
  mri_RuleArn : option string;
  mri_Actions : option (list Action);
  mri_Conditions : option (list RuleCondition) }.

Record ModifyRuleOutput := { mro_Rules : list Rule }.

(** The two operations of the client [elb] that only Update calls. *)
Record ELBV2Modify (elb : ELBV2) := {
  SetRulePriorities : conn elb -> SetRulePrioritiesInput -> conn elb * option error;
  ModifyRule : conn elb -> ModifyRuleInput -> conn elb * (ModifyRuleOutput + error) }.

Arguments SetRulePriorities {elb} _ _ _.
Arguments ModifyRule {elb} _ _ _.

Section Update.

Variable elb : ELBV2.
Variable m : ELBV2Modify elb.

(** [resourceAwsLbListenerRuleUpdate].  [HasChange] is [d.HasChange];
    [priority], [actions] and [conditions] are what [d.Get] returns for
    the three attributes, the conditions as the list of the set.  The
    partial mode of the resource data is the third component of the
    result: [None] when it is off, the keys given to [d.SetPartial] when
    it is on ([d.Partial(true)] starts with no key, [d.Partial(false)]
    forgets them). *)
Definition resourceAwsLbListenerRuleUpdate (budget : nat) (isNew : bool)
  (HasChange : string -> bool) (c : conn elb) (d : ResourceData)
  (priority : Z) (actions : list actionMap) (conditions : list conditionMap)
  : outcome (conn elb * ResourceData * option (gset string) * option error) :=
  let partialMap : gset string := ∅ in
  let modify (c : conn elb) (partialMap : gset string) (requestUpdate : bool)
             (params : ModifyRuleInput) :=
    let read (c : conn elb) :=
      match resourceAwsLbListenerRuleRead_all elb budget isNew c d with
      | Panics => Panics
      | Returns (c', d', err) => Returns (c', d', None, err)
      end in
    if requestUpdate then
      let (c', res) := ModifyRule m c params in
      match res with
      | inr err =>
          Returns (c', d, Some partialMap,
                   Some (ErrorfWrap "Error modifying LB Listener Rule: %s" [] err))
      | inl resp =>
          if Nat.eqb (length (mro_Rules resp)) 0
          then Returns (c', d, Some partialMap,
                        Some (ErrorsNew
                          "Error modifying creating LB Listener Rule: no rules returned in response"))
          else read c'
      end
    else read c in
  let condition (c : conn elb) (partialMap : gset string) (requestUpdate : bool)
                (params : ModifyRuleInput) :=
    if HasChange "condition" then
      match lbListenerRuleConditions conditions with
      | Panics => Panics
      | Returns (_, Some err) => Returns (c, d, Some partialMap, Some err)
      | Returns (elbConditions, None) =>
          modify c ({["condition"]} ∪ partialMap) true
            {| mri_RuleArn := mri_RuleArn params;
               mri_Actions := mri_Actions params;
               mri_Conditions := elbConditions |}
      end
    else modify c partialMap requestUpdate params in
  let action (c : conn elb) (partialMap : gset string) :=
    let params :=
      {| mri_RuleArn := aws_String (rd_Id d); mri_Actions := None;
         mri_Conditions := None |} in
    if HasChange "action" then
      match lbListenerRuleActions actions with
      | Panics => Panics
      | Returns (inr err) => Returns (c, d, Some partialMap, Some err)
      | Returns (inl elbActions) =>
          condition c ({["action"]} ∪ partialMap) true
            {| mri_RuleArn := mri_RuleArn params;
               mri_Actions := Some elbActions;
               mri_Conditions := mri_Conditions params |}
      end
    else condition c partialMap false params in
  if HasChange "priority" then
    let (c', err) :=
      SetRulePriorities m c
        {| srpi_RulePriorities :=
             [ {| rpp_RuleArn := aws_String (rd_Id d);
                  rpp_Priority := aws_Int64 priority |} ] |} in
    match err with
    | Some err => Returns (c', d, Some partialMap, Some err)
    | None => action c' ({["priority"]} ∪ partialMap)
    end
  else action c partialMap.

End Update.

(** ** Notions used to state properties of Update *)

(** A call that changes the rule. *)
Inductive request :=
| SetRulePrioritiesRequest (input : SetRulePrioritiesInput)
| ModifyRuleRequest (input : ModifyRuleInput).

(** The client [elb] with a record of the calls that change the rule, in
    the order in which they are made. *)
Definition recorded (elb : ELBV2) : ELBV2 :=
  {| conn := conn elb * list request;
     DescribeRules := fun c input =>
       let (c', res) := DescribeRules elb (fst c) input in ((c', snd c), res);
     CreateRule := fun c input =>
       let (c', res) := CreateRule elb (fst c) input in ((c', snd c), res);
     DeleteRule := fun c input =>
       let (c', res) := DeleteRule elb (fst c) input in ((c', snd c), res) |}.

Definition recordedModify {elb : ELBV2} (m : ELBV2Modify elb)
  : ELBV2Modify (recorded elb) :=
  {| SetRulePriorities := fun (c : conn (recorded elb)) input =>
       let (c', err) := SetRulePriorities m (fst c) input in
       ((c', snd c ++ [SetRulePrioritiesRequest input]) : conn (recorded elb), err);
     ModifyRule := fun (c : conn (recorded elb)) input =>
       let (c', res) := ModifyRule m (fst c) input in
       ((c', snd c ++ [ModifyRuleRequest input]) : conn (recorded elb), res) |}.

(** The request that moves the rule [id] to [priority]. *)
Definition priorityRequest (id : string) (priority : Z) : SetRulePrioritiesInput :=
  {| srpi_RulePriorities :=
       [ {| rpp_RuleArn := Some id; rpp_Priority := Some priority |} ] |}.

(** The slice that an expansion gives when it returns one. *)
Definition expandedActions (actions : list actionMap) : option (list Action) :=
  match lbListenerRuleActions actions with
  | Returns (inl elbActions) => Some elbActions
  | _ => None
  end.

Definition expandedConditions (conditions : list conditionMap)
  : option (list RuleCondition) :=
  match lbListenerRuleConditions conditions with
  | Returns (elbConditions, None) => elbConditions
  | _ => None
  end.

(** The request that gives the rule [id] the actions and the conditions
    that have changed. *)
Definition modifyRequest (HasChange : string -> bool) (id : string)
  (actions : list actionMap) (conditions : list conditionMap) : ModifyRuleInput :=
  {| mri_RuleArn := Some id;
     mri_Actions := if HasChange "action" then expandedActions actions else None;
     mri_Conditions :=
       if HasChange "condition" then expandedConditions conditions else None |}.

(** The calls that an update of the rule [id] is to make for the changes
    that [HasChange] reports. *)
Definition plannedRequests (HasChange : string -> bool) (id : string)
  (priority : Z) (actions : list actionMap) (conditions : list conditionMap)
  : list request :=
  (if HasChange "priority"
   then [SetRulePrioritiesRequest (priorityRequest id priority)] else [])
  ++ (if HasChange "action" || HasChange "condition"
      then [ModifyRuleRequest (modifyRequest HasChange id actions conditions)]
      else []).

(** The attributes, of the three that Update looks at, that have
    changed. *)
Definition changedKeys (HasChange : string -> bool) : gset string :=
  (if HasChange "condition" then {["condition"]} else ∅)
  ∪ (if HasChange "action" then {["action"]} else ∅)
  ∪ (if HasChange "priority" then {["priority"]} else ∅).

(** Operations on the rules of [eventualListener]: the priority cannot be
    set to 1, and a rule cannot be left without actions. *)
Definition exampleModify : ELBV2Modify eventualListener :=
  {| SetRulePriorities := fun (c : conn eventualListener) input =>
       (c, match srpi_RulePriorities input with
           | {| rpp_Priority := Some 1 |} :: _ =>
               Some (AWSError ErrCodePriorityInUseException "Priority '1' is currently in use")
           | _ => None
           end);
     ModifyRule := fun (c : conn eventualListener) input =>
       (c, match mri_Actions input with
           | Some [] => inr (AWSError "ValidationError" "A rule must have at least one action")
           | _ => inl {| mro_Rules :=
                           [ {| RuleArn := mri_RuleArn input; Priority := Some "8";
                                Conditions := [] |} ] |}
           end) |}.

(** The changes of an example: all three attributes, or the priority
    only. *)
Definition allChanged (k : string) : bool := true.
Definition priorityChanged (k : string) : bool := String.eqb k "priority".

(** * Properties *)

(** ** The priority validator *)

(** C8: for every integer [v] the validator returns no error if and only if
    [1 <= v <= 50000] or [v = 99999]; in every other case it returns exactly
    one error.  It never returns a warning. *)
Theorem validateAwsLbListenerRulePriority_accepts (v : Z) (k : string) :
  let res := validateAwsLbListenerRulePriority v k in
  fst res = []
  /\ (snd res = [] <-> (1 <= v <= 50000 \/ v = 99999))
  /\ (snd res = [] \/ length (snd res) = 1%nat).
Proof.
  unfold validateAwsLbListenerRulePriority; cbn zeta.
  destruct (v <? 1) eqn:Hlo; destruct (v >? 50000) eqn:Hhi;
    destruct (v =? 99999) eqn:Hdef; cbn;
    rewrite ?Z.ltb_lt, ?Z.ltb_ge, ?Z.gtb_ltb, ?Z.eqb_eq, ?Z.eqb_neq in *;
    repeat split; auto; try (intros; lia); try discriminate.
Qed.

(** ** Delete *)

Lemma strings_Contains_empty (s : string) : strings_Contains s "" = true.
Proof.
  unfold strings_Contains; cbn. now destruct (list_ascii_of_string s).
Qed.

Lemma isAWSErr_code (e : error) (code : string) :
  isAWSErr e code "" = true <-> exists message, e = AWSError code message.
Proof.
  destruct e; cbn; split; try discriminate; try (intros [? ?]; discriminate).
  - rewrite strings_Contains_empty, andb_true_r.
    intros ->%String.eqb_eq. eauto.
  - intros [m' [= -> ->]]. now rewrite String.eqb_refl, strings_Contains_empty.
Qed.

(** C9: Delete returns nil when DeleteRule succeeds and when it fails with
    the error code RuleNotFoundException, and an error for every other
    failure; the connection is left as DeleteRule leaves it. *)
Theorem resourceAwsLbListenerRuleDelete_idempotent
  (elb : ELBV2) (c : conn elb) (d : ResourceData) :
  let res := DeleteRule elb c {| dli_RuleArn := Some (rd_Id d) |} in
  fst (resourceAwsLbListenerRuleDelete elb c d) = fst res
  /\ (snd (resourceAwsLbListenerRuleDelete elb c d) = None
      <-> (snd res = None
           \/ exists message,
                snd res = Some (AWSError ErrCodeRuleNotFoundException message))).
Proof.
  unfold resourceAwsLbListenerRuleDelete, aws_String; cbn zeta.
  destruct (DeleteRule elb c _) as [c' [e|]]; cbn; [|now intuition].
  split; [now destruct (isAWSErr e _ _)|].
  destruct (isAWSErr e ErrCodeRuleNotFoundException "") eqn:He; cbn.
  - apply isAWSErr_code in He as [m ->]. split; eauto.
  - split; [discriminate|]. intros [|[m [= ->]]]; [discriminate|].
    assert (isAWSErr (AWSError ErrCodeRuleNotFoundException m)
              ErrCodeRuleNotFoundException "" = true) by (apply isAWSErr_code; eauto).
    congruence.
Qed.

(** ** The priority in Read *)

(** C10: when the API reports the priority "default", Read stores 99999;
    when it reports another string that [strconv.Atoi] parses, Read stores
    the parsed integer; Read fails exactly when the string is neither
    "default" nor parseable, and then leaves the priority as it was. *)
Theorem resourceAwsLbListenerRuleRead_priority
  (rule : Rule) (marker : option string) (d : ResourceData) :
  let p := aws_StringValue (Priority rule) in
  let res := resourceAwsLbListenerRuleRead
               (inl {| dro_Rules := [rule]; dro_NextMarker := marker |}) d in
  (p = "default" ->
     snd res = None /\ rd_attrs (fst res) !! "priority" = Some (AttrInt 99999))
  /\ (p <> "default" -> forall n, Atoi p = (n, None) ->
     snd res = None /\ rd_attrs (fst res) !! "priority" = Some (AttrInt n))
  /\ (snd res <> None <-> (p <> "default" /\ snd (Atoi p) <> None))
  /\ (snd res <> None -> rd_attrs (fst res) !! "priority" = rd_attrs d !! "priority").
Proof.
  cbn zeta. unfold resourceAwsLbListenerRuleRead; cbn [dro_Rules].
  destruct (String.eqb_spec (aws_StringValue (Priority rule)) "default") as [Hd|Hd].
  - cbn. repeat split; try congruence; intros; try tauto.
    now rewrite lookup_insert_ne, lookup_insert_eq.
  - destruct (Atoi (aws_StringValue (Priority rule))) as [n [e|]] eqn:Hp; cbn.
    + repeat split; try congruence; try tauto; intros; try discriminate.
      now rewrite !lookup_insert_ne.
    + repeat split; try congruence; try tauto; intros.
      match goal with H : (_, _) = (_, _) |- _ => injection H as <- end.
      now rewrite lookup_insert_ne, lookup_insert_eq.
Qed.

(** ** The hash of the condition set *)

(** Case analysis on the field of a condition map: one case for each of
    the six fields, in which the comparisons of the field are evaluated,
    and one for any other field. *)
Ltac field_cases f :=
  destruct (String.eqb_spec f "host-header") as [->|?];
  [cbn|
  destruct (String.eqb_spec f "http-header") as [->|?];
  [cbn|
  destruct (String.eqb_spec f "http-request-method") as [->|?];
  [cbn|
  destruct (String.eqb_spec f "path-pattern") as [->|?];
  [cbn|
  destruct (String.eqb_spec f "query-string") as [->|?];
  [cbn|
  destruct (String.eqb_spec f "source-ip") as [->|?];
  [cbn|cbn]]]]]].


(** C5, as stated, fails: two condition maps with the same field and the
    same (empty) selected block have different hashes, because the hash
    reads the deprecated top-level [values]. *)
Lemma hash_depends_on_deprecated_values :
  cm_field deprecatedA = cm_field deprecatedB
  /\ selected deprecatedA = selected deprecatedB
  /\ lbListenerRuleConditionSetHash deprecatedA
     <> lbListenerRuleConditionSetHash deprecatedB.
Proof.
  split; [reflexivity|split; [reflexivity|]].
  vm_compute. discriminate.
Qed.

(** C5, amended: the hash is a function of the condition map, and it
    depends only on the field, on the block that the field selects, and,
    when the field is [host-header] or [path-pattern] and that block is
    empty, on the deprecated [values]. *)
Theorem lbListenerRuleConditionSetHash_depends_on (m1 m2 : conditionMap) :
  cm_field m1 = cm_field m2 ->
  selected m1 = selected m2 ->
  (usesDeprecatedValues m1 = true -> cm_values m1 = cm_values m2) ->
  lbListenerRuleConditionSetHash m1 = lbListenerRuleConditionSetHash m2.
Proof.
  unfold lbListenerRuleConditionSetHash, lbListenerRuleConditionSetHashBuf,
    selected, usesDeprecatedValues.
  destruct m1 as [f1 hh1 ht1 rm1 pp1 qs1 si1 vs1],
           m2 as [f2 hh2 ht2 rm2 pp2 qs2 si2 vs2]; cbn.
  intros <-. field_cases f1; intros Hsel Hvs;
    try (injection Hsel as <-); try reflexivity.
  - destruct hh1; [rewrite Hvs|]; reflexivity.
  - destruct pp1; [rewrite Hvs|]; reflexivity.
Qed.

(** Two [host-header] conditions that differ in the [source_ip] block only. *)
Lemma lbListenerRuleConditionSetHash_depends_on_witness :
  let m1 := withSourceIp deprecatedA [Some {| vb_values := ["10.0.0.0/8"] |}] in
  let m2 := deprecatedA in
  cm_field m1 = cm_field m2
  /\ selected m1 = selected m2
  /\ cm_values m1 = cm_values m2
  /\ lbListenerRuleConditionSetHash m1 = lbListenerRuleConditionSetHash m2.
Proof.
  cbn zeta. do 3 (split; [reflexivity|]).
  apply lbListenerRuleConditionSetHash_depends_on; reflexivity.
Defined.

(** C6: a condition of field [host-header] (or [path-pattern]) whose block
    is empty and whose deprecated [values] are [vs] has the hash of a
    condition of the same field whose block holds exactly [vs]. *)
Theorem lbListenerRuleConditionSetHash_deprecated
  (vs : list string) (old new : conditionMap) :
  (cm_field old = "host-header" /\ cm_field new = "host-header"
   /\ cm_host_header old = [] /\ cm_host_header new = [Some {| vb_values := vs |}])
  \/ (cm_field old = "path-pattern" /\ cm_field new = "path-pattern"
      /\ cm_path_pattern old = []
      /\ cm_path_pattern new = [Some {| vb_values := vs |}]) ->
  cm_values old = vs ->
  lbListenerRuleConditionSetHash old = lbListenerRuleConditionSetHash new.
Proof.
  unfold lbListenerRuleConditionSetHash, lbListenerRuleConditionSetHashBuf.
  destruct old, new; cbn.
  intros [(-> & -> & -> & ->)|(-> & -> & -> & ->)] ->; reflexivity.
Qed.

(** The deprecated and the current form of one [host-header] condition. *)
Lemma lbListenerRuleConditionSetHash_deprecated_witness :
  let old := deprecatedA in
  let new := withHostHeader (emptyCondition "host-header")
               [Some {| vb_values := ["a.example.com"] |}] in
  cm_host_header old = [] /\ cm_values old = ["a.example.com"]
  /\ lbListenerRuleConditionSetHash old = lbListenerRuleConditionSetHash new.
Proof.
  cbn zeta. do 2 (split; [reflexivity|]).
  apply (lbListenerRuleConditionSetHash_deprecated ["a.example.com"]).
  - left. repeat split; reflexivity.
  - reflexivity.
Defined.

(** ** Expansion of the conditions *)

(** One condition whose selected block has a first element: it is expanded,
    or it ends the function with an error, according to [missingBlock]. *)
Lemma lbListenerRuleCondition_returns (m : conditionMap) :
  nilBlock m = false ->
  if missingBlock m
  then exists err, lbListenerRuleCondition m = Returns (inr err)
  else exists c, lbListenerRuleCondition m = Returns (inl c).
Proof.
  unfold nilBlock, selected, missingBlock, lbListenerRuleCondition.
  destruct m as [f hh ht rm pp qs si vs]; cbn.
  field_cases f; intros Hnil.
  - destruct hh as [|[?|] ?]; try discriminate; cbn; eauto.
    destruct vs; cbn; eauto.
  - destruct ht as [|[?|] ?]; try discriminate; cbn; eauto.
  - destruct rm as [|[?|] ?]; try discriminate; cbn; eauto.
  - destruct pp as [|[?|] ?]; try discriminate; cbn; eauto.
    destruct vs; cbn; eauto.
  - destruct qs as [|[?|] ?]; try discriminate; cbn; eauto.
  - destruct si as [|[?|] ?]; try discriminate; cbn; eauto.
  - eauto.
Qed.

Lemma lbListenerRuleConditionsFrom_returns
  (conditions : list conditionMap) (elbConditions : list RuleCondition) :
  Forall (fun m => nilBlock m = false) conditions ->
  (Exists (fun m => missingBlock m = true) conditions ->
   exists err,
     lbListenerRuleConditionsFrom elbConditions conditions
     = Returns (None, Some err))
  /\ (~ Exists (fun m => missingBlock m = true) conditions ->
      exists l,
        lbListenerRuleConditionsFrom elbConditions conditions
        = Returns (Some (elbConditions ++ l), None)
        /\ length l = length conditions).
Proof.
  intros Hnil. revert elbConditions.
  induction Hnil as [|m conditions Hm _ IH]; intros elbConditions.
  - split.
    + intros H. inversion H.
    + intros _. exists []. now rewrite app_nil_r.
  - cbn [lbListenerRuleConditionsFrom].
    apply lbListenerRuleCondition_returns in Hm.
    destruct (missingBlock m) eqn:Hmiss.
    + destruct Hm as [err ->]. split; [eauto|].
      intros H. exfalso. apply H. now constructor.
    + destruct Hm as [c ->].
      destruct (IH (elbConditions ++ [c])) as [IH1 IH2]. split.
      * intros H. apply IH1. inversion H; subst; [congruence|assumption].
      * intros H. destruct IH2 as (l & -> & Hlen).
        { intros H'. apply H. now constructor 2. }
        exists (c :: l). rewrite <- app_assoc. cbn. auto.
Qed.


(** C7: on a condition of field [source-ip] whose [source_ip] block is a
    list with the one element [nil], no block list is missing, so that the
    claim promises a slice with one element and no error; the function
    returns neither a slice nor an error, it panics on the type assertion
    of the [nil] element.  The hash function of the same set elements
    tests for [nil] and returns, here the hash of the field alone. *)
Lemma lbListenerRuleConditions_nil_block_panics :
  missingBlock nilSourceIp = false
  /\ lbListenerRuleConditions [nilSourceIp] = Panics
  /\ ~ (exists l, lbListenerRuleConditions [nilSourceIp] = Returns (Some l, None))
  /\ ~ (exists err, lbListenerRuleConditions [nilSourceIp] = Returns (None, Some err))
  /\ lbListenerRuleConditionSetHash nilSourceIp = hashcode_String "source-ip-".
Proof.
  split; [reflexivity|]. split; [reflexivity|].
  split; [intros [l H]; discriminate H|].
  split; [intros [err H]; discriminate H|].
  reflexivity.
Qed.

(** X27: on conditions whose selected block, when it has a first
    element, has one that is not [nil], [lbListenerRuleConditions] returns
    [(nil, error)] if and only if some condition has a missing block (field
    [http-header], [http-request-method], [query-string] or [source-ip] with
    an empty block list, or field [host-header] or [path-pattern] with an
    empty block list and empty [values]); otherwise it returns a slice as
    long as the input, and no error. *)
Theorem lbListenerRuleConditions_error_iff (conditions : list conditionMap) :
  Forall (fun m => nilBlock m = false) conditions ->
  ((exists err, lbListenerRuleConditions conditions = Returns (None, Some err))
   <-> Exists (fun m => missingBlock m = true) conditions)
  /\ (~ Exists (fun m => missingBlock m = true) conditions ->
      exists l,
        lbListenerRuleConditions conditions = Returns (Some l, None)
        /\ length l = length conditions).
Proof.
  intros Hnil. unfold lbListenerRuleConditions.
  destruct (lbListenerRuleConditionsFrom_returns conditions [] Hnil) as [H1 H2].
  split; [split; [|exact H1]|exact H2].
  intros [err Herr].
  destruct (decide (Exists (fun m => missingBlock m = true) conditions))
    as [H|H]; [assumption|].
  destruct (H2 H) as (l & Hl & _). congruence.
Qed.

(** A [host-header] condition in the deprecated form, followed by a
    [source-ip] condition without block: the expansion returns an error. *)
Lemma lbListenerRuleConditions_error_iff_witness :
  Forall (fun m => nilBlock m = false) [deprecatedA; emptyCondition "source-ip"]
  /\ exists err,
       lbListenerRuleConditions [deprecatedA; emptyCondition "source-ip"]
       = Returns (None, Some err).
Proof.
  assert (H : Forall (fun m => nilBlock m = false)
                [deprecatedA; emptyCondition "source-ip"])
    by (repeat constructor).
  split; [exact H|].
  apply (proj1 (lbListenerRuleConditions_error_iff _ H)).
  right. left. reflexivity.
Defined.

(** ** Flattening, then expansion *)

Lemma StringValueSlice_interfaceStringSlice (vs : list string) :
  aws_StringValueSlice (interfaceStringSlice vs) = vs.
Proof.
  unfold aws_StringValueSlice, interfaceStringSlice.
  induction vs as [|v vs IH]; cbn; [reflexivity|]. now f_equal.
Qed.

Lemma StringValue_expandQueryStringPair (key value : string) :
  let q := expandQueryStringPair {| qp_key := key; qp_value := value |} in
  aws_StringValue (Key q) = key /\ aws_StringValue (Value q) = value.
Proof.
  unfold expandQueryStringPair; cbn.
  destruct (String.eqb_spec key "") as [->|?]; cbn; auto.
Qed.

Lemma queryString_roundtrip (pairs : list QueryStringKeyValuePair) :
  let flat := map (fun value => {| qp_key := aws_StringValue (Key value);
                                   qp_value := aws_StringValue (Value value) |})
                  pairs in
  map (fun p => (aws_StringValue (Key p), aws_StringValue (Value p)))
      (map expandQueryStringPair flat)
  = map (fun p => (aws_StringValue (Key p), aws_StringValue (Value p))) pairs
  /\ Forall2 keyAbsentWhenEmpty pairs (map expandQueryStringPair flat).
Proof.
  cbn zeta. induction pairs as [|p pairs [IH1 IH2]]; cbn; [auto|].
  destruct (StringValue_expandQueryStringPair
              (aws_StringValue (Key p)) (aws_StringValue (Value p))) as [Hk Hv].
  cbn zeta in Hk, Hv. rewrite Hk, Hv, IH1. split; [reflexivity|].
  constructor; [|exact IH2].
  unfold keyAbsentWhenEmpty, expandQueryStringPair; cbn.
  destruct (String.eqb_spec (aws_StringValue (Key p)) "") as [He|He]; cbn.
  - reflexivity.
  - destruct (Key p); cbn in *; [reflexivity|congruence].
Qed.

(** C1: a rule condition whose field is one of the six and whose
    configuration for that field is not nil is flattened by Read into a
    condition map that [lbListenerRuleConditions] expands without error
    into one rule condition, with the same field and the same values (the
    strings of the configuration of that field; for [query-string] the same
    key/value pairs, a nil or empty key coming back as an absent key). *)
Theorem flatten_expand_roundtrip (condition : RuleCondition) :
  selectedConfigPresent condition = true ->
  exists c',
    lbListenerRuleConditions [flattenCondition condition]
    = Returns (Some [c'], None)
    /\ Field c' = Field condition
    /\ conditionValuesOf c' = conditionValuesOf condition
    /\ (forall cfg cfg',
          QueryStringConfig condition = Some cfg ->
          QueryStringConfig c' = Some cfg' ->
          Forall2 keyAbsentWhenEmpty
            (QueryStringValues cfg) (QueryStringValues cfg')).
Proof.
  unfold selectedConfigPresent, lbListenerRuleConditions, conditionValuesOf.
  destruct condition as [[f|] hh ht rm pp qs si vs]; cbn; [|discriminate].
  unfold lbListenerRuleCondition; cbn.
  field_cases f; intros Hsel.
  - destruct hh as [cfg|]; [|discriminate]. cbn. eexists. split; [reflexivity|].
    cbn. rewrite StringValueSlice_interfaceStringSlice.
    repeat split. intros ? ? ? [=].
  - destruct ht as [cfg|]; [|discriminate]. cbn. eexists. split; [reflexivity|].
    cbn. rewrite StringValueSlice_interfaceStringSlice.
    repeat split. intros ? ? ? [=].
  - destruct rm as [cfg|]; [|discriminate]. cbn. eexists. split; [reflexivity|].
    cbn. rewrite StringValueSlice_interfaceStringSlice.
    repeat split. intros ? ? ? [=].
  - destruct pp as [cfg|]; [|discriminate]. cbn. eexists. split; [reflexivity|].
    cbn. rewrite StringValueSlice_interfaceStringSlice.
    repeat split. intros ? ? ? [=].
  - destruct qs as [cfg|]; [|discriminate]. cbn. eexists. split; [reflexivity|].
    cbn. destruct (queryString_roundtrip (QueryStringValues cfg)) as [H1 H2].
    cbn zeta in H1, H2. rewrite H1. repeat split.
    intros ? ? [= <-] [= <-]. exact H2.
  - destruct si as [cfg|]; [|discriminate]. cbn. eexists. split; [reflexivity|].
    cbn. rewrite StringValueSlice_interfaceStringSlice.
    repeat split. intros ? ? ? [=].
  - discriminate.
Qed.


(** The round trip of a [query-string] condition. *)
Lemma flatten_expand_roundtrip_witness :
  selectedConfigPresent queryStringCondition = true
  /\ exists c',
       lbListenerRuleConditions [flattenCondition queryStringCondition]
       = Returns (Some [c'], None)
       /\ Field c' = Field queryStringCondition
       /\ conditionValuesOf c' = conditionValuesOf queryStringCondition.
Proof.
  split; [reflexivity|].
  destruct (flatten_expand_roundtrip queryStringCondition eq_refl)
    as (c' & H1 & H2 & H3 & _).
  exists c'. auto.
Defined.

(** ** The regular expression matcher *)

Lemma stripPrefix_Some (p s s' : list ascii) :
  stripPrefix p s = Some s' <-> s = p ++ s'.
Proof.
  revert s. induction p as [|a p IH]; intros s; cbn.
  - split; congruence.
  - destruct s as [|b s]; [split; discriminate|].
    destruct (Ascii.eqb_spec a b) as [->|Hab].
    + rewrite IH. split; congruence.
    + split; [discriminate|congruence].
Qed.

Section PlusLoop.

Context {A : Type} (cls : charclass) (k : list ascii -> option A).

(** A result of the loop comes from the continuation, after a non-empty
    run of characters of the class. *)
Lemma plusLoop_Some (s : list ascii) (res : A) :
  plusLoop cls k s = Some res ->
  exists s1 rest,
    s = s1 ++ rest /\ s1 <> [] /\ forallb (inClass cls) s1 = true
    /\ k rest = Some res.
Proof.
  induction s as [|a s IH]; cbn; [discriminate|].
  destruct (inClass cls a) eqn:Ha; [|discriminate].
  destruct (plusLoop cls k s) as [res'|] eqn:Hloop.
  - intros [= ->]. destruct (IH eq_refl) as (s1 & rest & -> & _ & Hall & Hk).
    exists (a :: s1), rest. cbn. rewrite Ha, Hall. repeat split; auto; discriminate.
  - intros Hk. exists [a], s. cbn. rewrite Ha. repeat split; auto; discriminate.
Qed.

(** Where the continuation succeeds after some run of the class, the loop
    succeeds (after that run or after a longer one). *)
Lemma plusLoop_is_Some (s1 rest : list ascii) :
  s1 <> [] -> forallb (inClass cls) s1 = true -> is_Some (k rest) ->
  is_Some (plusLoop cls k (s1 ++ rest)).
Proof.
  induction s1 as [|a s1 IH]; [congruence|]. intros _. cbn.
  intros [Ha Hall]%andb_true_iff Hk. rewrite Ha.
  destruct s1 as [|b s1].
  - cbn. destruct (plusLoop cls k rest); [eauto|exact Hk].
  - destruct (IH ltac:(discriminate) Hall Hk) as [res ->]. eauto.
Qed.

End PlusLoop.

(** Soundness of the matcher: a result comes from the continuation, after
    a text that the regular expression matches. *)
Lemma matchHere_Some (r : regexp) :
  forall off s caps k res,
    matchHere r off s caps k = Some res ->
    exists s1 rest caps',
      s = s1 ++ rest /\ matches r off s1 rest caps caps'
      /\ k (off + length s1)%nat rest caps' = Some res.
Proof.
  induction r as [| |l|cls|n r IH|r1 IH1 r2 IH2]; intros off s caps k res; cbn.
  - destruct (Nat.eqb_spec off 0) as [->|]; [|discriminate].
    intros Hk. exists [], s, caps. repeat split; [constructor|exact Hk].
  - destruct s; [|discriminate].
    intros Hk. exists [], [], caps. rewrite Nat.add_0_r.
    repeat split; [constructor|exact Hk].
  - destruct (stripPrefix l s) as [s'|] eqn:Hl; [|discriminate].
    apply stripPrefix_Some in Hl as ->.
    intros Hk. exists l, s', caps. repeat split; [constructor|exact Hk].
  - intros (s1 & rest & -> & Hne & Hall & Hk)%plusLoop_Some.
    exists s1, rest, caps. repeat split; [now constructor|].
    rewrite length_app in Hk.
    now replace (length s1 + length rest - length rest)%nat
      with (length s1) in Hk by lia.
  - intros (s1 & rest & caps' & -> & Hm & Hk)%IH.
    exists s1, rest, (<[n := s1]> caps'). repeat split; [now constructor|].
    replace (off + length s1 - off)%nat with (length s1) in Hk by lia.
    now rewrite take_app_length in Hk.
  - intros (s1 & rest1 & caps1 & -> & Hm1 & Hk1)%IH1.
    apply IH2 in Hk1 as (s2 & rest & caps2 & -> & Hm2 & Hk).
    exists (s1 ++ s2), rest, caps2. rewrite <- app_assoc.
    repeat split; [econstructor; eassumption|].
    now rewrite length_app, Nat.add_assoc.
Qed.

(** Completeness of the matcher: where the regular expression matches a
    text after which the continuation succeeds, the matcher succeeds. *)
Lemma matchHere_is_Some r off s1 rest caps caps' :
  matches r off s1 rest caps caps' ->
  forall k,
    is_Some (k (off + length s1)%nat rest caps') ->
    is_Some (matchHere r off (s1 ++ rest) caps k).
Proof.
  induction 1 as [rest caps|off caps|l off rest caps|cls off s1 rest caps Hne Hall
                 |n r off s1 rest caps caps' _ IH
                 |r1 r2 off s1 s2 rest caps caps1 caps2 _ IH1 _ IH2];
    intros k Hk; cbn.
  - exact Hk.
  - now rewrite Nat.add_0_r in Hk.
  - now rewrite (proj2 (stripPrefix_Some l (l ++ rest) rest) eq_refl).
  - apply plusLoop_is_Some; [assumption..|].
    rewrite length_app.
    now replace (length s1 + length rest - length rest)%nat
      with (length s1) by lia.
  - apply IH.
    replace (off + length s1 - off)%nat with (length s1) by lia.
    now rewrite take_app_length.
  - rewrite <- app_assoc. apply IH1, IH2.
    now rewrite length_app, Nat.add_assoc in Hk.
Qed.

Lemma matchAt_Some (r : regexp) (off : nat) (s : list ascii) (res : submatches) :
  matchAt r off s = Some res ->
  exists s1 rest caps,
    s = s1 ++ rest
    /\ matches r off s1 rest (replicate (S (numSubexp r)) []) caps
    /\ res = <[0%nat := s1]> caps.
Proof.
  unfold matchAt.
  intros (s1 & rest & caps & -> & Hm & [= <-])%matchHere_Some.
  exists s1, rest, caps.
  replace (off + length s1 - off)%nat with (length s1) by lia.
  now rewrite take_app_length.
Qed.

Lemma searchFrom_Some (r : regexp) :
  forall s off res,
    searchFrom r off s = Some res ->
    exists pre s1 post caps,
      s = pre ++ s1 ++ post
      /\ matches r (off + length pre)%nat s1 post
           (replicate (S (numSubexp r)) []) caps
      /\ res = <[0%nat := s1]> caps.
Proof.
  assert (Hat : forall s off res, matchAt r off s = Some res ->
    exists pre s1 post caps,
      s = pre ++ s1 ++ post
      /\ matches r (off + length pre)%nat s1 post
           (replicate (S (numSubexp r)) []) caps
      /\ res = <[0%nat := s1]> caps).
  { intros s off res (s1 & rest & caps & -> & Hm & ->)%matchAt_Some.
    exists [], s1, rest, caps. cbn. now rewrite Nat.add_0_r. }
  induction s as [|a s IH]; intros off res; cbn [searchFrom];
    destruct (matchAt r off _) as [res'|] eqn:Hres.
  - intros [= ->]. now apply Hat.
  - discriminate.
  - intros [= ->]. now apply Hat.
  - intros (pre & s1 & post & caps & -> & Hm & ->)%IH.
    exists (a :: pre), s1, post, caps. cbn.
    now rewrite <- Nat.add_succ_comm.
Qed.

Lemma searchFrom_is_Some (r : regexp) (s1 post : list ascii) (caps : submatches) :
  forall pre off,
    matches r (off + length pre)%nat s1 post
      (replicate (S (numSubexp r)) []) caps ->
    is_Some (searchFrom r off (pre ++ s1 ++ post)).
Proof.
  assert (Hat : forall off,
    matches r off s1 post (replicate (S (numSubexp r)) []) caps ->
    is_Some (matchAt r off (s1 ++ post))).
  { intros off Hm. unfold matchAt.
    apply (matchHere_is_Some _ _ _ _ _ _ Hm). eauto. }
  induction pre as [|a pre IH]; intros off Hm.
  - cbn in *. rewrite Nat.add_0_r in Hm. apply Hat in Hm as [res Hres].
    destruct (s1 ++ post); cbn; rewrite Hres; eauto.
  - cbn [app searchFrom].
    destruct (matchAt r off _); [eauto|].
    apply IH. cbn in Hm. now rewrite Nat.add_succ_comm.
Qed.

(** ** The listener ARN of a rule ARN *)

Ltac invert_matches H := inversion H; subst; clear H.

(** What the pattern of [lbListenerARNFromRuleARNRegexp] matches, and the
    two groups of a match. *)
Lemma ruleARN_matches_inv off s1 rest caps caps' :
  matches lbListenerARNFromRuleARNRegexp off s1 rest caps caps' ->
  off = 0%nat /\ rest = []
  /\ exists x y id,
       s1 = (chars "arn:" ++ x ++ chars ":listener") ++ chars "-rule"
            ++ (chars "/" ++ y) ++ chars "/" ++ id
       /\ caps' = <[2%nat := chars "/" ++ y]>
                    (<[1%nat := chars "arn:" ++ x ++ chars ":listener"]> caps)
       /\ nonEmptyWithout "010" x /\ nonEmptyWithout "010" y
       /\ nonEmptyWithout "/" id.
Proof.
  unfold lbListenerARNFromRuleARNRegexp. intros H.
  repeat match goal with
         | H : matches (Concat _ _) _ _ _ _ _ |- _ => invert_matches H
         | H : matches (Capture _ _) _ _ _ _ _ |- _ => invert_matches H
         | H : matches (Literal _) _ _ _ _ _ |- _ => invert_matches H
         | H : matches (Plus _) _ _ _ _ _ |- _ => invert_matches H
         | H : matches BeginText _ _ _ _ _ |- _ => invert_matches H
         | H : matches EndText _ _ _ _ _ |- _ => invert_matches H
         end.
  repeat split. rewrite !app_nil_r. do 3 eexists.
  split; [reflexivity|]. split; [reflexivity|].
  unfold nonEmptyWithout. auto 10.
Qed.

Lemma ruleARN_matches (x y id : list ascii) (caps : submatches) :
  nonEmptyWithout "010" x -> nonEmptyWithout "010" y -> nonEmptyWithout "/" id ->
  matches lbListenerARNFromRuleARNRegexp 0
    ((chars "arn:" ++ x ++ chars ":listener") ++ chars "-rule"
     ++ (chars "/" ++ y) ++ chars "/" ++ id) [] caps
    (<[2%nat := chars "/" ++ y]>
       (<[1%nat := chars "arn:" ++ x ++ chars ":listener"]> caps)).
Proof.
  intros [Hx1 Hx2] [Hy1 Hy2] [Hi1 Hi2]. unfold lbListenerARNFromRuleARNRegexp.
  generalize (chars "arn:") (chars ":listener") (chars "-rule") (chars "/").
  intros arn listener rule slash.
  apply (matches_Concat _ _ _ [] _ _ _ caps); [constructor|].
  eapply matches_Concat; [apply matches_Capture|].
  { eapply matches_Concat; [constructor|].
    eapply matches_Concat; [now constructor|constructor]. }
  eapply matches_Concat; [constructor|].
  eapply matches_Concat; [apply matches_Capture|].
  { eapply matches_Concat; [constructor|now constructor]. }
  eapply matches_Concat; [constructor|].
  rewrite <- (app_nil_r id).
  eapply matches_Concat; [now constructor|constructor].
Qed.

Lemma str_app (a b : list ascii) : str (a ++ b) = str a +:+ str b.
Proof.
  unfold str. induction a as [|c a IH]; cbn; [reflexivity|]. now rewrite IH.
Qed.

Lemma str_chars (s : string) : str (chars s) = s.
Proof. apply string_of_list_ascii_of_string. Qed.

(** C2: for a string that matches the pattern
    [^(arn:.+:listener)-rule(/.+)/[^/]+$], [lbListenerARNFromRuleARN]
    returns the first group followed by the second group, that is the rule
    ARN without the ["-rule"] after ["listener"] and without its last
    ["/<id>"] segment; for every string that does not match the pattern it
    returns the empty string. *)
Theorem lbListenerARNFromRuleARN_spec (ruleArn : string) :
  (matchesPattern lbListenerARNFromRuleARNRegexp ruleArn ->
   exists x y id,
     nonEmptyWithout "010" x /\ nonEmptyWithout "010" y
     /\ nonEmptyWithout "/" id
     /\ let group1 := str (chars "arn:" ++ x ++ chars ":listener") in
        let group2 := str (chars "/" ++ y) in
        ruleArn = group1 +:+ "-rule" +:+ group2 +:+ "/" +:+ str id
        /\ FindStringSubmatch lbListenerARNFromRuleARNRegexp ruleArn
           = Some [ruleArn; group1; group2]
        /\ lbListenerARNFromRuleARN ruleArn = group1 +:+ group2)
  /\ (~ matchesPattern lbListenerARNFromRuleARNRegexp ruleArn ->
      lbListenerARNFromRuleARN ruleArn = "").
Proof.
  split.
  - intros (pre & s1 & post & caps & Hs & Hm).
    destruct (searchFrom_is_Some _ s1 post caps pre 0%nat Hm) as [res Hres].
    rewrite <- Hs in Hres. clear Hs Hm pre s1 post caps.
    destruct (searchFrom_Some _ _ _ _ Hres)
      as (pre & s1 & post & caps & Hs & Hm & ->).
    apply ruleARN_matches_inv in Hm
      as (Hpre & -> & x & y & id & -> & -> & Hx & Hy & Hid).
    destruct pre; [clear Hpre|discriminate Hpre].
    rewrite app_nil_r in Hs. cbn [app] in Hs |- *.
    exists x, y, id. repeat split; try apply Hx; try apply Hy; try apply Hid.
    + rewrite <- (str_chars ruleArn), Hs.
      now rewrite !str_app, !str_chars.
    + unfold FindStringSubmatch.
      change (list_ascii_of_string ruleArn) with (chars ruleArn).
      rewrite Hres, <- Hs. cbn. do 2 f_equal.
      apply string_of_list_ascii_of_string.
    + unfold lbListenerARNFromRuleARN, FindStringSubmatch.
      change (list_ascii_of_string ruleArn) with (chars ruleArn).
      rewrite Hres. reflexivity.
  - intros Hno. unfold lbListenerARNFromRuleARN, FindStringSubmatch.
    change (list_ascii_of_string ruleArn) with (chars ruleArn).
    destruct (searchFrom _ 0 _) as [res|] eqn:Hres; [|reflexivity].
    exfalso. apply Hno.
    apply searchFrom_Some in Hres as (pre & s1 & post & caps & Hs & Hm & _).
    now exists pre, s1, post, caps.
Qed.

Lemma ruleARN_text (x y id : list ascii) :
  "arn:" +:+ str x +:+ ":listener-rule/" +:+ str y +:+ "/" +:+ str id
  = str ((chars "arn:" ++ x ++ chars ":listener") ++ chars "-rule"
         ++ (chars "/" ++ y) ++ chars "/" ++ id).
Proof.
  transitivity (str (chars "arn:" ++ x ++ chars ":listener-rule/" ++ y
                     ++ chars "/" ++ id)).
  - now rewrite !str_app, !str_chars.
  - f_equal. cbn. now rewrite <- app_assoc.
Qed.

(** The strings that match the pattern, spelled out. *)
Lemma matchesPattern_ruleARN (s : string) :
  matchesPattern lbListenerARNFromRuleARNRegexp s
  <-> exists x y id,
        nonEmptyWithout "010" x /\ nonEmptyWithout "010" y
        /\ nonEmptyWithout "/" id
        /\ s = "arn:" +:+ str x +:+ ":listener-rule/" +:+ str y +:+ "/" +:+ str id.
Proof.
  split.
  - intros (pre & s1 & post & caps & Hs & Hm).
    apply ruleARN_matches_inv in Hm
      as (Hpre & -> & x & y & id & -> & _ & Hx & Hy & Hid).
    destruct pre; [clear Hpre|discriminate Hpre].
    exists x, y, id. repeat split; try apply Hx; try apply Hy; try apply Hid.
    rewrite ruleARN_text, <- (str_chars s), Hs. cbn [app].
    now rewrite app_nil_r.
  - intros (x & y & id & Hx & Hy & Hid & ->).
    exists [], ((chars "arn:" ++ x ++ chars ":listener") ++ chars "-rule"
                ++ (chars "/" ++ y) ++ chars "/" ++ id), []. eexists.
    split; [|now apply ruleARN_matches].
    rewrite ruleARN_text. cbn [app]. rewrite app_nil_r.
    apply list_ascii_of_string_of_list_ascii.
Qed.

(** The cases of [TestLBListenerARNFromRuleARN]. *)
Example lbListenerARNFromRuleARN_valid_listener_rule_arn :
  lbListenerARNFromRuleARN
    "arn:aws:elasticloadbalancing:us-east-1:012345678912:listener-rule/app/name/0123456789abcdef/abcdef0123456789/456789abcedf1234"
  = "arn:aws:elasticloadbalancing:us-east-1:012345678912:listener/app/name/0123456789abcdef/abcdef0123456789".
Proof. vm_compute. reflexivity. Qed.

Example lbListenerARNFromRuleARN_listener_arn :
  lbListenerARNFromRuleARN
    "arn:aws:elasticloadbalancing:us-east-1:012345678912:listener/app/name/0123456789abcdef/abcdef0123456789"
  = "".
Proof. vm_compute. reflexivity. Qed.

Example lbListenerARNFromRuleARN_some_other_arn :
  lbListenerARNFromRuleARN
    "arn:aws:elasticloadbalancing:us-east-1:123456:targetgroup/my-targets/73e2d6bc24d8a067"
  = "".
Proof. vm_compute. reflexivity. Qed.

Example lbListenerARNFromRuleARN_not_an_arn :
  lbListenerARNFromRuleARN "blah blah blah" = "".
Proof. vm_compute. reflexivity. Qed.

Example lbListenerARNFromRuleARN_empty_arn : lbListenerARNFromRuleARN "" = "".
Proof. vm_compute. reflexivity. Qed.

(** The repetitions are greedy: of two places where the rule part may
    begin, the later one is taken. *)
Example lbListenerARNFromRuleARN_greedy :
  FindStringSubmatch lbListenerARNFromRuleARNRegexp
    "arn:x:listener-rule/a:listener-rule/b/c"
  = Some ["arn:x:listener-rule/a:listener-rule/b/c";
          "arn:x:listener-rule/a:listener"; "/b"].
Proof. vm_compute. reflexivity. Qed.

(** ** [strconv.Atoi] and [hashcode.String] on known values *)

Example Atoi_decimal :
  Atoi "42" = (42, None) /\ Atoi "-7" = (-7, None) /\ Atoi "+5" = (5, None)
  /\ Atoi "50000" = (50000, None).
Proof. repeat split. Qed.

Example Atoi_syntax_error :
  Atoi "" = (0, Some (NumError "Atoi" "" ErrSyntax))
  /\ Atoi "-" = (0, Some (NumError "Atoi" "-" ErrSyntax))
  /\ Atoi "12a" = (0, Some (NumError "Atoi" "12a" ErrSyntax))
  /\ Atoi "default" = (0, Some (NumError "Atoi" "default" ErrSyntax)).
Proof. repeat split. Qed.

Example Atoi_range_error :
  Atoi "9223372036854775807" = (MaxInt64, None)
  /\ Atoi "9223372036854775808"
     = (MaxInt64, Some (NumError "Atoi" "9223372036854775808" ErrRange))
  /\ Atoi "-9223372036854775808" = (MinInt64, None)
  /\ Atoi "-9223372036854775809"
     = (MinInt64, Some (NumError "Atoi" "-9223372036854775809" ErrRange))
  /\ Atoi "99999999999999999999x"
     = (MaxInt64, Some (NumError "Atoi" "99999999999999999999x" ErrRange)).
Proof. repeat split. Qed.

(** The check value of CRC-32. *)
Example ChecksumIEEE_check : ChecksumIEEE (chars "123456789") = 0xCBF43926.
Proof. vm_compute. reflexivity. Qed.

(** ** The highest priority of a listener *)

Lemma ParseUintFrom_nonneg (s : list ascii) :
  forall acc n, 0 <= acc -> ParseUintFrom acc s = ParseOk n -> 0 <= n.
Proof.
  induction s as [|c s IH]; cbn; intros acc n Hacc.
  - intros [= <-]. exact Hacc.
  - unfold isDigit.
    destruct (48 <=? nat_of_ascii c)%nat eqn:Hlo; cbn; [|discriminate].
    destruct (nat_of_ascii c <=? 57)%nat; cbn; [|discriminate].
    destruct (_ <=? acc); [discriminate|].
    destruct (maxUint64 <? _); [discriminate|].
    apply IH. apply Nat.leb_le in Hlo. lia.
Qed.

(** The value that [strconv.Atoi] returns is an [int]. *)
Lemma Atoi_range (s : string) : MinInt64 <= fst (Atoi s) <= MaxInt64.
Proof.
  unfold Atoi, MinInt64, MaxInt64.
  destruct (list_ascii_of_string s) as [|c rest]; cbn [fst]; [lia|].
  assert (Hconv : forall un, 0 <= un ->
    -9223372036854775808
    <= fst (if negb (c =? "-")%char && (2 ^ 63 <=? un)
            then (2 ^ 63 - 1, Some (NumError "Atoi" s ErrRange))
            else if (c =? "-")%char && (2 ^ 63 <? un)
                 then (- 2 ^ 63, Some (NumError "Atoi" s ErrRange))
                 else (if (c =? "-")%char then - un else un, None))
    <= 9223372036854775807).
  { intros un Hun. destruct (c =? "-")%char; cbn [negb andb].
    - destruct (2 ^ 63 <? un) eqn:Hcut; cbn [fst]; [lia|].
      apply Z.ltb_ge in Hcut. lia.
    - destruct (2 ^ 63 <=? un) eqn:Hcut; cbn [fst]; [lia|].
      apply Z.leb_gt in Hcut. lia. }
  match goal with
  | |- context [ParseUint ?digits] =>
      destruct (ParseUint digits) as [un| |] eqn:Hun; cbn [fst]; [|lia|];
      [apply Hconv; unfold ParseUint in Hun;
       destruct digits; [discriminate|];
       apply ParseUintFrom_nonneg in Hun; [exact Hun|lia]
      |apply Hconv; unfold maxUint64; lia]
  end.
Qed.

Lemma collectPriorities_app (rules : list Rule) :
  forall priorities,
    collectPriorities priorities rules = priorities ++ rulePriorities rules.
Proof.
  unfold collectPriorities, rulePriorities.
  induction rules as [|rule rules IH]; intros priorities; cbn [fold_left].
  - cbn. now rewrite app_nil_r.
  - rewrite IH, filter_cons.
    destruct (String.eqb_spec (aws_StringValue (Priority rule)) "default")
      as [Hd|Hd]; cbn [negb].
    + now rewrite decide_False by tauto.
    + rewrite decide_True by assumption. cbn. now rewrite <- app_assoc.
Qed.

Lemma sorted_last_highest (l : list Z) :
  StronglySorted Z.le l -> l <> [] ->
  In (nth (length l - 1) l 0) l
  /\ Forall (fun x => x <= nth (length l - 1) l 0) l.
Proof.
  induction 1 as [|a l Hl IH Ha]; [congruence|]. intros _.
  destruct l as [|b l].
  - cbn. split; [auto|]. constructor; [lia|constructor].
  - destruct IH as [IH1 IH2]; [discriminate|].
    replace (length (a :: b :: l) - 1)%nat with (S (length (b :: l) - 1))
      by (cbn; lia).
    cbn [nth]. split; [now right|].
    constructor; [|exact IH2].
    rewrite Forall_forall in Ha. apply Ha. now apply list_elem_of_In.
Qed.

(** The last element of the sorted priorities is their highest. *)
Lemma sort_Ints_highest (ps : list Z) :
  ps <> [] ->
  let sorted := sort_Ints ps in
  isHighest ps (nth (length sorted - 1) sorted 0).
Proof.
  intros Hne sorted. right.
  assert (Hperm : sorted ≡ₚ ps) by apply merge_sort_Permutation.
  destruct (sorted_last_highest sorted) as [Hin Hall].
  - apply StronglySorted_merge_sort; apply _.
  - intros Hnil. rewrite Hnil in Hperm. symmetry in Hperm.
    now apply Permutation_nil_r in Hperm.
  - split.
    + apply list_elem_of_In. rewrite <- Hperm. now apply list_elem_of_In.
    + now rewrite <- Hperm.
Qed.

Section ClientProperties.

Context (elb : ELBV2).

(** With fuel for every page, the loop returns the priorities of all the
    pages. *)
Lemma describeAllRules_listing arn c marker pages c' :
  listing elb arn c marker pages c' ->
  forall fuel priorities,
    (length pages <= fuel)%nat ->
    describeAllRules elb fuel c arn marker priorities
    = Some (c', inl (priorities ++ pagePriorities pages)).
Proof.
  unfold pagePriorities.
  induction 1 as [c marker out c' Hcall Hlast
                 |c marker out c' next pages c'' Hcall Hnext _ IH];
    intros [|fuel] priorities Hfuel; cbn in Hfuel; try lia;
    cbn [describeAllRules]; unfold aws_String; rewrite Hcall.
  - rewrite Hlast, collectPriorities_app. cbn. now rewrite app_nil_r.
  - rewrite Hnext, IH, collectPriorities_app by lia. cbn.
    now rewrite <- app_assoc.
Qed.

Lemma highestListenerRulePriority_listing arn c pages c' :
  listing elb arn c None pages c' ->
  exists p,
    isHighest (pagePriorities pages) p
    /\ forall fuel, (length pages <= fuel)%nat ->
         highestListenerRulePriority elb fuel c arn = Some (c', (p, None)).
Proof.
  intros Hl. unfold highestListenerRulePriority.
  destruct (pagePriorities pages) as [|p0 ps] eqn:Hps.
  - exists 0. split; [now left|]. intros fuel Hfuel.
    now rewrite (describeAllRules_listing _ _ _ _ _ Hl), Hps by assumption.
  - eexists. split; [apply sort_Ints_highest; discriminate|].
    intros fuel Hfuel.
    now rewrite (describeAllRules_listing _ _ _ _ _ Hl), Hps by assumption.
Qed.

(** C4: in an attempt of the retry loop of Create, where DescribeRules
    returns the pages [pages] of the rules of the listener (all of them,
    following NextMarker), the priority [p] that the attempt computes is the
    highest of the priorities of the rules that are not "default", and 0
    when there is none; the attempt then calls CreateRule with a request
    whose priority is [p + 1] (in 64-bit arithmetic, which is [p + 1]
    unless [p] is the largest [int64]) and whose listener and conditions
    are those of the request it was given, and its outcome is the outcome
    of that call.  This holds from every state, so for each attempt of the
    loop. *)
Theorem createAttempt_priority arn (s : createState elb) pages c' :
  listing elb arn (cs_conn s) None pages c' ->
  exists p,
    isHighest (pagePriorities pages) p
    /\ (p < MaxInt64 -> wrap64 (p + 1) = p + 1)
    /\ forall fuel, (length pages <= fuel)%nat ->
         highestListenerRulePriority elb fuel (cs_conn s) arn
         = Some (c', (p, None))
         /\ exists params,
              cri_Priority params = Some (wrap64 (p + 1))
              /\ (p < MaxInt64 -> cri_Priority params = Some (p + 1))
              /\ cri_ListenerArn params = cri_ListenerArn (cs_params s)
              /\ cri_Conditions params = cri_Conditions (cs_params s)
              /\ params = withPriority (cs_params s) (wrap64 (p + 1))
              /\ let call := CreateRule elb c' params in
                 exists s' r,
                   createAttempt elb fuel arn s = Some (s', r)
                   /\ cs_conn s' = fst call
                   /\ cs_params s' = params
                   /\ match snd call with
                      | inl resp => r = None /\ cs_resp s' = Some resp
                      | inr err =>
                          r = Some (if isAWSErr err ErrCodePriorityInUseException ""
                                    then RetryableError err
                                    else NonRetryableError err)
                      end.
Proof.
  intros Hl.
  destruct (highestListenerRulePriority_listing _ _ _ _ Hl) as (p & Hp & Hhigh).
  assert (Hwrap : p < MaxInt64 -> wrap64 (p + 1) = p + 1).
  { intros Hmax. assert (MinInt64 <= p).
    { destruct Hp as [[_ ->]|[Hin _]]; [unfold MinInt64; lia|].
      unfold pagePriorities, rulePriorities in Hin.
      apply in_concat in Hin as (l & Hl1 & Hl2).
      apply in_map_iff in Hl1 as (out & <- & _).
      apply in_map_iff in Hl2 as (rule & <- & _). apply Atoi_range. }
    unfold wrap64, MinInt64, MaxInt64 in *.
    rewrite Z.mod_small; lia. }
  exists p. split; [exact Hp|]. split; [exact Hwrap|].
  intros fuel Hfuel. split; [now apply Hhigh|].
  exists (withPriority (cs_params s) (wrap64 (p + 1))).
  split; [reflexivity|].
  split; [intros Hmax; cbn [withPriority cri_Priority]; now rewrite Hwrap|].
  do 3 (split; [reflexivity|]).
  cbn zeta. unfold createAttempt. rewrite (Hhigh fuel Hfuel).
  destruct (CreateRule elb c' _) as [c'' [resp|err]]; cbn.
  - eauto 10.
  - destruct (isAWSErr err _ _); eauto 10.
Qed.

End ClientProperties.

Lemma exampleListener_listing :
  listing exampleListener "listener/1" 0%nat None [examplePage1; examplePage2] 0%nat.
Proof.
  eapply listing_next; [reflexivity..|].
  apply listing_last; reflexivity.
Qed.

(** An attempt on the example listener: two pages whose highest priority
    is 7; CreateRule is called with the priority 8. *)
Lemma createAttempt_priority_witness :
  listing exampleListener "listener/1" 0%nat None [examplePage1; examplePage2] 0%nat
  /\ isHighest (pagePriorities [examplePage1; examplePage2]) 7
  /\ highestListenerRulePriority exampleListener 2 0%nat "listener/1"
     = Some (0%nat, (7, None))
  /\ exists s' r,
       createAttempt exampleListener 2 "listener/1"
         (exampleState 0 exampleParams) = Some (s', r)
       /\ cri_Priority (cs_params s') = Some 8
       /\ cri_ListenerArn (cs_params s') = Some "listener/1"
       /\ cs_conn s' = fst (CreateRule exampleListener 0%nat (cs_params s')).
Proof.
  split; [exact exampleListener_listing|].
  destruct (createAttempt_priority exampleListener "listener/1"
              (exampleState 0 exampleParams) _ _ exampleListener_listing)
    as (p & Hp & _ & H).
  destruct (H 2%nat ltac:(cbn; lia))
    as (Hhigh & params & Hpriority & _ & Hlistener & _ & _
        & s' & r & Hs' & Hconn & Hparams & _).
  assert (Hp7 : p = 7).
  { pose proof (f_equal (fun o => match o with
                                  | Some (_, (q, _)) => q
                                  | None => 0
                                  end) Hhigh) as Hcomputed.
    vm_compute in Hcomputed. now symmetry. }
  subst p.
  split; [exact Hp|]. split; [exact Hhigh|].
  exists s', r. split; [exact Hs'|].
  rewrite Hparams. split; [exact Hpriority|]. split; [exact Hlistener|].
  exact Hconn.
Defined.

(** ** The retry loop of Create *)

(** C3, as stated, fails: with the example listener, where CreateRule
    fails twice with PriorityInUseException, a create without priority
    calls CreateRule three times and succeeds; the retry is not limited to
    one. *)
Lemma create_retried_more_than_once : ~ retriedAtMostOnce.
Proof.
  intros H.
  specialize (H exampleListener 3%nat 2%nat 0%nat exampleData "listener/1"
                exampleParams 3%nat 3%nat (rd_SetId exampleData "rule/8") None
                eq_refl).
  lia.
Qed.

Section RetryProperties.

Context (elb : ELBV2) (fuel : nat) (arn : string).

(** The attempts that fail with PriorityInUseException are retried, one
    after the other, while the budget lasts. *)
Lemma RetryFrom_inUseFailures n (s s' : createState elb) :
  inUseFailures elb fuel arn n s s' ->
  forall budget resultErr,
    exists resultErr',
      RetryFrom (n + budget) (createAttempt elb fuel arn) s resultErr
      = RetryFrom budget (createAttempt elb fuel arn) s' resultErr'.
Proof.
  induction 1 as [s|n s c p c' err s' Hhigh Hcall Hcode _ IH];
    intros budget resultErr; [eauto|].
  destruct (IH budget (Some err)) as [resultErr' IHretry].
  exists resultErr'. rewrite <- IHretry. cbn [Nat.add RetryFrom].
  unfold createAttempt at 1. now rewrite Hhigh, Hcall, Hcode.
Qed.

(** C3, amended: in a create without priority, CreateRule is called again,
    with a priority computed anew, after each failure with the code
    PriorityInUseException, for as long as the time of [resource.Retry]
    lasts, not once only: after any number [n] of such failures within the
    budget, the next attempt is made, and its call of CreateRule decides.
    When that call succeeds the loop ends without error; when it fails with
    a different code the error is not retried: the create ends at once with
    an error, in the state that the call has left. *)
Theorem create_retries_while_in_use
  (c : conn elb) (d : ResourceData) (params : CreateRuleInput)
  (n budget : nat) (s : createState elb) :
  inUseFailures elb fuel arn n
    {| cs_conn := c; cs_params := params; cs_resp := None |} s ->
  (n < budget)%nat ->
  forall c1 p c2 res,
    highestListenerRulePriority elb fuel (cs_conn s) arn = Some (c1, (p, None)) ->
    CreateRule elb c1 (withPriority (cs_params s) (wrap64 (p + 1))) = (c2, res) ->
    match res with
    | inl resp =>
        Retry budget (createAttempt elb fuel arn)
          {| cs_conn := c; cs_params := params; cs_resp := None |}
        = Some ({| cs_conn := c2;
                   cs_params := withPriority (cs_params s) (wrap64 (p + 1));
                   cs_resp := Some resp |}, None)
    | inr err =>
        isAWSErr err ErrCodePriorityInUseException "" = false ->
        Retry budget (createAttempt elb fuel arn)
          {| cs_conn := c; cs_params := params; cs_resp := None |}
        = Some ({| cs_conn := c2;
                   cs_params := withPriority (cs_params s) (wrap64 (p + 1));
                   cs_resp := None |}, Some err)
        /\ resourceAwsLbListenerRuleCreate elb budget fuel c d arn params None
           = Some (c2, d,
                   Some (ErrorfWrap "Error creating LB Listener Rule: %v" [] err))
    end.
Proof.
  intros Hfail Hbudget c1 p c2 res Hhigh Hcall.
  destruct (RetryFrom_inUseFailures _ _ _ Hfail (budget - n) None)
    as [resultErr Hretry].
  replace (n + (budget - n))%nat with budget in Hretry by lia.
  destruct (budget - n)%nat as [|rest] eqn:Hrest; [lia|].
  cbn [RetryFrom] in Hretry. unfold createAttempt in Hretry at 2.
  rewrite Hhigh, Hcall in Hretry.
  destruct res as [resp|err].
  - exact Hretry.
  - intros Hcode. rewrite Hcode in Hretry. split; [exact Hretry|].
    unfold resourceAwsLbListenerRuleCreate, Retry in *. now rewrite Hretry.
Qed.

End RetryProperties.

Lemma exampleListener_in_use_twice :
  inUseFailures exampleListener 2 "listener/1" 2
    (exampleState 0 exampleParams)
    (exampleState 2 (withPriority (withPriority exampleParams 8) 8)).
Proof.
  eapply inUseFailures_S; [reflexivity..|].
  eapply inUseFailures_S; [reflexivity..|].
  apply inUseFailures_O.
Qed.

(** The example listener: two failures with PriorityInUseException, then
    the third attempt succeeds. *)
Lemma create_retries_while_in_use_witness :
  inUseFailures exampleListener 2 "listener/1" 2
    (exampleState 0 exampleParams)
    (exampleState 2 (withPriority (withPriority exampleParams 8) 8))
  /\ Retry 3 (createAttempt exampleListener 2 "listener/1")
       (exampleState 0 exampleParams)
     = Some ({| cs_conn := 3%nat : conn exampleListener;
                cs_params := withPriority (withPriority (withPriority exampleParams 8) 8) 8;
                cs_resp :=
                  Some {| cro_Rules :=
                            [ {| RuleArn := Some "rule/8"; Priority := Some "8";
                                 Conditions := [] |} ] |} |},
             None).
Proof.
  split; [exact exampleListener_in_use_twice|].
  exact (create_retries_while_in_use exampleListener 2 "listener/1"
           0%nat exampleData exampleParams 2 3 _
           exampleListener_in_use_twice ltac:(lia)
           2%nat 7 3%nat _ eq_refl eq_refl).
Defined.

(** * Further properties *)

(** ** The expansion of one condition *)

(** X1: the deprecated and the current form of a [host-header] (or
    [path-pattern]) condition are expanded into the same rule condition,
    provided there is a value at all. *)
Theorem lbListenerRuleCondition_deprecated
  (vs : list string) (old new : conditionMap) :
  (cm_field old = "host-header" /\ cm_field new = "host-header"
   /\ cm_host_header old = [] /\ cm_host_header new = [Some {| vb_values := vs |}])
  \/ (cm_field old = "path-pattern" /\ cm_field new = "path-pattern"
      /\ cm_path_pattern old = []
      /\ cm_path_pattern new = [Some {| vb_values := vs |}]) ->
  cm_values old = vs ->
  vs <> [] ->
  lbListenerRuleCondition old = lbListenerRuleCondition new.
Proof.
  unfold lbListenerRuleCondition. destruct old, new; cbn.
  intros [(-> & -> & -> & ->)|(-> & -> & -> & ->)] -> Hvs;
    destruct vs; [congruence|reflexivity|congruence|reflexivity].
Qed.

(** The deprecated and the current form of one [host-header] condition. *)
Lemma lbListenerRuleCondition_deprecated_witness :
  let old := deprecatedA in
  let new := withHostHeader (emptyCondition "host-header")
               [Some {| vb_values := ["a.example.com"] |}] in
  cm_host_header old = [] /\ cm_values old = ["a.example.com"]
  /\ lbListenerRuleCondition old = lbListenerRuleCondition new.
Proof.
  cbn zeta. do 2 (split; [reflexivity|]).
  apply (lbListenerRuleCondition_deprecated ["a.example.com"]).
  - left. repeat split; reflexivity.
  - reflexivity.
  - discriminate.
Defined.

(** X2: the rule condition built for a condition map depends only on the
    field, on the block that the field selects, and, when the field is
    [host-header] or [path-pattern] and that block is empty, on the
    deprecated [values]; the other keys of the map are not read. *)
Theorem lbListenerRuleCondition_depends_on (m1 m2 : conditionMap) :
  cm_field m1 = cm_field m2 ->
  selected m1 = selected m2 ->
  (usesDeprecatedValues m1 = true -> cm_values m1 = cm_values m2) ->
  lbListenerRuleCondition m1 = lbListenerRuleCondition m2.
Proof.
  unfold lbListenerRuleCondition, selected, usesDeprecatedValues.
  destruct m1 as [f1 hh1 ht1 rm1 pp1 qs1 si1 vs1],
           m2 as [f2 hh2 ht2 rm2 pp2 qs2 si2 vs2]; cbn.
  intros <-. field_cases f1; intros Hsel Hvs;
    try (injection Hsel as <-); try reflexivity.
  - destruct hh1; [rewrite Hvs|]; reflexivity.
  - destruct pp1; [rewrite Hvs|]; reflexivity.
Qed.

(** A [source-ip] condition with and without a stray [host_header] block. *)
Lemma lbListenerRuleCondition_depends_on_witness :
  let m1 := withSourceIp (emptyCondition "source-ip")
              [Some {| vb_values := ["10.0.0.0/8"] |}] in
  let m2 := withHostHeader m1 [Some {| vb_values := ["a.example.com"] |}] in
  cm_field m1 = cm_field m2
  /\ selected m1 = selected m2
  /\ lbListenerRuleCondition m1 = lbListenerRuleCondition m2.
Proof.
  cbn zeta. do 2 (split; [reflexivity|]).
  apply lbListenerRuleCondition_depends_on; [reflexivity..|discriminate].
Defined.

(** ** The expansion of a list of conditions *)

Lemma lbListenerRuleCondition_shape (m : conditionMap) (c : RuleCondition) :
  lbListenerRuleCondition m = Returns (inl c) ->
  Field c = Some (cm_field m)
  /\ ConditionValues c = []
  /\ configFields c = if isConditionField (cm_field m) then [cm_field m] else [].
Proof.
  unfold lbListenerRuleCondition, isConditionField, configFields.
  destruct m as [f hh ht rm pp qs si vs]; cbn.
  field_cases f.
  - destruct hh as [|[?|] ?]; [destruct vs|..]; intros [= <-]; auto.
  - destruct ht as [|[?|] ?]; intros [= <-]; auto.
  - destruct rm as [|[?|] ?]; intros [= <-]; auto.
  - destruct pp as [|[?|] ?]; [destruct vs|..]; intros [= <-]; auto.
  - destruct qs as [|[?|] ?]; intros [= <-]; auto.
  - destruct si as [|[?|] ?]; intros [= <-]; auto.
  - intros [= <-]; auto.
Qed.

Lemma lbListenerRuleConditionsFrom_Some
  (conditions : list conditionMap) :
  forall elbConditions l,
    lbListenerRuleConditionsFrom elbConditions conditions = Returns (Some l, None) ->
    exists l',
      l = elbConditions ++ l'
      /\ Forall2 (fun m c => lbListenerRuleCondition m = Returns (inl c))
           conditions l'.
Proof.
  induction conditions as [|m conditions IH]; intros acc l; cbn.
  - intros [= <-]. exists []. now rewrite app_nil_r.
  - destruct (lbListenerRuleCondition m) as [[c|err]|] eqn:Hm; try discriminate.
    intros (l' & -> & Hall)%IH. exists (c :: l').
    rewrite <- app_assoc. split; [reflexivity|]. now constructor.
Qed.

(** X3: when [lbListenerRuleConditions] returns a slice, its elements
    answer the conditions one by one, in order: each has the field of its
    condition, no deprecated [Values], and no configuration but the one of
    its field (none at all when the field is not one of the six). *)
Theorem lbListenerRuleConditions_shape
  (conditions : list conditionMap) (l : list RuleCondition) :
  lbListenerRuleConditions conditions = Returns (Some l, None) ->
  Forall2
    (fun m c =>
       Field c = Some (cm_field m)
       /\ ConditionValues c = []
       /\ configFields c
          = if isConditionField (cm_field m) then [cm_field m] else [])
    conditions l.
Proof.
  unfold lbListenerRuleConditions.
  intros (l' & -> & Hall)%lbListenerRuleConditionsFrom_Some. cbn.
  induction Hall as [|m c conditions l' Hm _ IH]; constructor; [|exact IH].
  now apply lbListenerRuleCondition_shape.
Qed.

(** A [query-string] condition and a condition of an unknown field. *)
Lemma lbListenerRuleConditions_shape_witness :
  let conditions :=
    [flattenCondition queryStringCondition; emptyCondition "other"] in
  exists l,
    lbListenerRuleConditions conditions = Returns (Some l, None)
    /\ Forall2
         (fun m c =>
            Field c = Some (cm_field m)
            /\ ConditionValues c = []
            /\ configFields c
               = if isConditionField (cm_field m) then [cm_field m] else [])
         conditions l.
Proof.
  cbn zeta. eexists. split; [reflexivity|].
  apply lbListenerRuleConditions_shape. reflexivity.
Defined.

Lemma lbListenerRuleCondition_missing (m : conditionMap) :
  nilBlock m = false -> missingBlock m = true ->
  lbListenerRuleCondition m
  = Returns (inr (ErrorsNew (blockKey (cm_field m)
                             +:+ " must be set when condition field is "
                             +:+ cm_field m))).
Proof.
  unfold nilBlock, selected, missingBlock, lbListenerRuleCondition, blockKey.
  destruct m as [f hh ht rm pp qs si vs]; cbn.
  field_cases f; intros Hnil Hmiss.
  - destruct hh as [|[?|] ?]; try discriminate. now destruct vs.
  - now destruct ht as [|[?|] ?].
  - now destruct rm as [|[?|] ?].
  - destruct pp as [|[?|] ?]; try discriminate. now destruct vs.
  - now destruct qs as [|[?|] ?].
  - now destruct si as [|[?|] ?].
  - discriminate.
Qed.

(** X4: the error of [lbListenerRuleConditions] is the one of the first
    condition whose block is missing, and it names the block and the field;
    the conditions behind that one are not looked at. *)
Theorem lbListenerRuleConditions_first_error
  (before after : list conditionMap) (m : conditionMap) :
  Forall (fun m => nilBlock m = false /\ missingBlock m = false) before ->
  nilBlock m = false ->
  missingBlock m = true ->
  lbListenerRuleConditions (before ++ m :: after)
  = Returns (None,
             Some (ErrorsNew (blockKey (cm_field m)
                              +:+ " must be set when condition field is "
                              +:+ cm_field m))).
Proof.
  unfold lbListenerRuleConditions. generalize (@nil RuleCondition).
  intros acc Hbefore Hnil Hmiss. revert acc.
  induction Hbefore as [|m0 before [Hnil0 Hmiss0] _ IH]; intros acc; cbn.
  - now rewrite lbListenerRuleCondition_missing.
  - pose proof (lbListenerRuleCondition_returns m0 Hnil0) as H0.
    rewrite Hmiss0 in H0. destruct H0 as [c ->]. apply IH.
Qed.

(** A condition in the deprecated form, a [source-ip] condition without
    block, and a condition with a nil block behind them. *)
Lemma lbListenerRuleConditions_first_error_witness :
  lbListenerRuleConditions [deprecatedA; emptyCondition "source-ip"; nilSourceIp]
  = Returns (None,
             Some (ErrorsNew
                     "source_ip must be set when condition field is source-ip")).
Proof.
  apply (lbListenerRuleConditions_first_error [deprecatedA]
           [nilSourceIp] (emptyCondition "source-ip")).
  - repeat constructor.
  - reflexivity.
  - reflexivity.
Defined.

(** ** Expansion, then flattening *)

Lemma expandQueryStringPair_fixed (p : queryStringPair) :
  expandQueryStringPair
    {| qp_key := aws_StringValue (Key (expandQueryStringPair p));
       qp_value := aws_StringValue (Value (expandQueryStringPair p)) |}
  = expandQueryStringPair p.
Proof.
  destruct p as [key value]. unfold expandQueryStringPair at 2 3 4. cbn.
  destruct (String.eqb_spec key "") as [->|Hkey]; cbn; [reflexivity|].
  unfold expandQueryStringPair. cbn.
  now rewrite (proj2 (String.eqb_neq _ _) Hkey).
Qed.

Lemma expand_flatten_expand_pairs (pairs : list queryStringPair) :
  map expandQueryStringPair
    (map (fun value => {| qp_key := aws_StringValue (Key value);
                          qp_value := aws_StringValue (Value value) |})
         (map expandQueryStringPair pairs))
  = map expandQueryStringPair pairs.
Proof.
  induction pairs as [|p pairs IH]; cbn; [reflexivity|].
  now rewrite IH, expandQueryStringPair_fixed.
Qed.

Lemma flatten_expanded_pairs (pairs : list queryStringPair) :
  map (fun value => {| qp_key := aws_StringValue (Key value);
                       qp_value := aws_StringValue (Value value) |})
      (map expandQueryStringPair pairs)
  = map (fun p => {| qp_key := qp_key p; qp_value := qp_value p |}) pairs.
Proof.
  induction pairs as [|[key value] pairs IH]; cbn; [reflexivity|].
  rewrite IH. f_equal. unfold expandQueryStringPair; cbn.
  now destruct (String.eqb_spec key "") as [->|?].
Qed.

(** X5: a rule condition that the expansion has built is a fixed point of
    flattening and expanding: Read turns it into a condition map that is
    expanded into the same rule condition again. *)
Theorem expand_flatten_expand (m : conditionMap) (c : RuleCondition) :
  lbListenerRuleCondition m = Returns (inl c) ->
  lbListenerRuleCondition (flattenCondition c) = Returns (inl c).
Proof.
  unfold lbListenerRuleCondition.
  destruct m as [f hh ht rm pp qs si vs]; cbn.
  field_cases f.
  - destruct hh as [|[?|] ?]; [destruct vs|..]; intros [= <-]; cbn;
      now rewrite StringValueSlice_interfaceStringSlice.
  - destruct ht as [|[?|] ?]; intros [= <-]; cbn;
      now rewrite StringValueSlice_interfaceStringSlice.
  - destruct rm as [|[?|] ?]; intros [= <-]; cbn;
      now rewrite StringValueSlice_interfaceStringSlice.
  - destruct pp as [|[?|] ?]; [destruct vs|..]; intros [= <-]; cbn;
      now rewrite StringValueSlice_interfaceStringSlice.
  - destruct qs as [|[[pairs]|] ?]; intros [= <-]; cbn.
    now rewrite expand_flatten_expand_pairs.
  - destruct si as [|[?|] ?]; intros [= <-]; cbn;
      now rewrite StringValueSlice_interfaceStringSlice.
  - intros [= <-]. cbn.
    repeat (rewrite (proj2 (String.eqb_neq _ _)) by assumption). reflexivity.
Qed.

(** The [host-header] condition in the deprecated form. *)
Lemma expand_flatten_expand_witness :
  exists c,
    lbListenerRuleCondition deprecatedA = Returns (inl c)
    /\ lbListenerRuleCondition (flattenCondition c) = Returns (inl c).
Proof.
  eexists. split; [reflexivity|].
  apply (expand_flatten_expand deprecatedA). reflexivity.
Defined.

(** X6: the hash of a condition map survives the way to the API and
    back: the map that Read builds from the expanded condition has the hash
    of the map that was expanded.  This holds for the deprecated form too,
    which comes back in the current form. *)
Theorem hash_expand_flatten (m : conditionMap) (c : RuleCondition) :
  lbListenerRuleCondition m = Returns (inl c) ->
  lbListenerRuleConditionSetHash (flattenCondition c)
  = lbListenerRuleConditionSetHash m.
Proof.
  unfold lbListenerRuleCondition, lbListenerRuleConditionSetHash,
    lbListenerRuleConditionSetHashBuf.
  destruct m as [f hh ht rm pp qs si vs]; cbn.
  field_cases f.
  - destruct hh as [|[?|] ?]; [destruct vs|..]; intros [= <-]; cbn;
      now rewrite StringValueSlice_interfaceStringSlice.
  - destruct ht as [|[?|] ?]; intros [= <-]; cbn;
      now rewrite StringValueSlice_interfaceStringSlice.
  - destruct rm as [|[?|] ?]; intros [= <-]; cbn;
      now rewrite StringValueSlice_interfaceStringSlice.
  - destruct pp as [|[?|] ?]; [destruct vs|..]; intros [= <-]; cbn;
      now rewrite StringValueSlice_interfaceStringSlice.
  - destruct qs as [|[[pairs]|] ?]; intros [= <-]; cbn.
    rewrite flatten_expanded_pairs. f_equal.
    generalize (Fprint "" ["query-string"; "-"]).
    induction pairs as [|[key value] pairs IH]; intros buf; cbn; [reflexivity|].
    apply IH.
  - destruct si as [|[?|] ?]; intros [= <-]; cbn;
      now rewrite StringValueSlice_interfaceStringSlice.
  - intros [= <-]. cbn.
    repeat (rewrite (proj2 (String.eqb_neq _ _)) by assumption). reflexivity.
Qed.

(** The deprecated [host-header] condition: it comes back with a
    [host_header] block and without [values], and with the same hash. *)
Lemma hash_expand_flatten_witness :
  exists c,
    lbListenerRuleCondition deprecatedA = Returns (inl c)
    /\ cm_host_header (flattenCondition c)
       = [Some {| vb_values := ["a.example.com"] |}]
    /\ cm_values (flattenCondition c) = []
    /\ lbListenerRuleConditionSetHash (flattenCondition c)
       = lbListenerRuleConditionSetHash deprecatedA.
Proof.
  eexists. split; [reflexivity|]. do 2 (split; [reflexivity|]).
  apply (hash_expand_flatten deprecatedA). reflexivity.
Defined.

(** ** More on the hash *)

Lemma append_assoc (a b c : string) : (a +:+ b) +:+ c = a +:+ b +:+ c.
Proof.
  induction a as [|x a IH]; [reflexivity|].
  change (String x ((a +:+ b) +:+ c) = String x (a +:+ b +:+ c)).
  now rewrite IH.
Qed.

Lemma append_nil_r (a : string) : a +:+ "" = a.
Proof.
  induction a as [|x a IH]; [reflexivity|].
  change (String x (a +:+ "") = String x a). now rewrite IH.
Qed.

Lemma concat_cons (x : string) (xs : list string) :
  String.concat "" (x :: xs) = x +:+ String.concat "" xs.
Proof.
  destruct xs as [|y xs]; [symmetry; apply append_nil_r|reflexivity].
Qed.

Lemma FprintEach_dashed (vs : list string) :
  forall buf, FprintEach buf vs = buf +:+ dashed vs.
Proof.
  unfold FprintEach, dashed, Fprint.
  induction vs as [|v vs IH]; intros buf; cbn [fold_left map].
  - symmetry. apply append_nil_r.
  - rewrite IH. change (String.concat "" [v; "-"]) with (v +:+ "-").
    now rewrite (concat_cons (v +:+ "-")), !append_assoc.
Qed.

(** X7: the values of a block go into the hash one after the other, each
    followed by a dash, and a dash inside a value is not told from such a
    dash: two conditions of one field whose blocks give the same sequence of
    characters that way have the same hash, also when their lists of values
    differ. *)
Theorem hash_dashed (m1 m2 : conditionMap) (b1 b2 : valuesBlock)
  (rest1 rest2 : list (option valuesBlock)) :
  cm_field m1 = cm_field m2 ->
  selected m1 = SelValues (Some b1 :: rest1) ->
  selected m2 = SelValues (Some b2 :: rest2) ->
  dashed (vb_values b1) = dashed (vb_values b2) ->
  lbListenerRuleConditionSetHash m1 = lbListenerRuleConditionSetHash m2.
Proof.
  unfold lbListenerRuleConditionSetHash, lbListenerRuleConditionSetHashBuf,
    selected.
  destruct m1 as [f1 hh1 ht1 rm1 pp1 qs1 si1 vs1],
           m2 as [f2 hh2 ht2 rm2 pp2 qs2 si2 vs2]; cbn.
  intros <-. field_cases f1; intros [= ->] [= ->] Hd;
    now rewrite !FprintEach_dashed, Hd.
Qed.

(** The values ["a-b.example.com"] and ["a"; "b.example.com"]. *)
Lemma hash_dashed_witness :
  let m1 := withHostHeader (emptyCondition "host-header")
              [Some {| vb_values := ["a-b.example.com"] |}] in
  let m2 := withHostHeader (emptyCondition "host-header")
              [Some {| vb_values := ["a"; "b.example.com"] |}] in
  cm_host_header m1 <> cm_host_header m2
  /\ lbListenerRuleConditionSetHash m1 = lbListenerRuleConditionSetHash m2.
Proof.
  cbn zeta. split; [discriminate|].
  eapply hash_dashed; reflexivity.
Defined.

Lemma lxor_range (n a b : Z) :
  0 < n -> 0 <= a < 2 ^ n -> 0 <= b < 2 ^ n -> 0 <= Z.lxor a b < 2 ^ n.
Proof.
  intros Hn Ha Hb.
  assert (Hlog : forall x, 0 <= x < 2 ^ n -> Z.log2 x < n).
  { intros x Hx. destruct (Z.eq_dec x 0) as [->|Hx0]; [cbn; lia|].
    apply Z.log2_lt_pow2; lia. }
  assert (Hnn : 0 <= Z.lxor a b) by (apply Z.lxor_nonneg; lia).
  split; [exact Hnn|].
  destruct (Z.eq_dec (Z.lxor a b) 0) as [->|Hx0]; [apply Z.pow_pos_nonneg; lia|].
  apply Z.log2_lt_pow2; [lia|].
  pose proof (Z.log2_lxor a b ltac:(lia) ltac:(lia)).
  pose proof (Hlog a Ha). pose proof (Hlog b Hb). lia.
Qed.

Lemma crc32_bit_range (crc : Z) :
  0 <= crc < 2 ^ 32 -> 0 <= crc32_bit crc < 2 ^ 32.
Proof.
  intros Hcrc. unfold crc32_bit.
  assert (0 <= Z.shiftr crc 1 < 2 ^ 32).
  { rewrite Z.shiftr_div_pow2 by lia. change (2 ^ 1) with 2.
    split; [apply Z.div_pos; lia|].
    apply Z.div_lt_upper_bound; lia. }
  destruct (Z.testbit crc 0); [|assumption].
  apply lxor_range; lia.
Qed.

Lemma crc32_update_range (crc : Z) (b : ascii) :
  0 <= crc < 2 ^ 32 -> 0 <= crc32_update crc b < 2 ^ 32.
Proof.
  intros Hcrc. unfold crc32_update.
  assert (H0 : 0 <= Z.lxor crc (Z.of_nat (nat_of_ascii b)) < 2 ^ 32).
  { apply lxor_range; [lia|assumption|].
    pose proof (nat_ascii_bounded b). lia. }
  revert H0. generalize (Z.lxor crc (Z.of_nat (nat_of_ascii b))).
  intros z Hz. cbn [Nat.iter].
  now do 8 apply crc32_bit_range.
Qed.

Lemma ChecksumIEEE_range (data : list ascii) :
  0 <= ChecksumIEEE data < 2 ^ 32.
Proof.
  unfold ChecksumIEEE. apply lxor_range; [lia| |lia].
  assert (H : 0 <= 0xFFFFFFFF < 2 ^ 32) by lia.
  revert H. generalize 0xFFFFFFFF.
  induction data as [|b data IH]; intros crc Hcrc; cbn [fold_left]; [assumption|].
  apply IH. now apply crc32_update_range.
Qed.

(** X8: the hash of a condition is a number from 0 to [2^32 - 1]: it is
    the CRC-32 of the buffer itself; the branches of [hashcode.String] for
    a negative value are never taken. *)
Theorem lbListenerRuleConditionSetHash_range (m : conditionMap) :
  0 <= lbListenerRuleConditionSetHash m < 2 ^ 32
  /\ lbListenerRuleConditionSetHash m
     = ChecksumIEEE (chars (lbListenerRuleConditionSetHashBuf m)).
Proof.
  unfold lbListenerRuleConditionSetHash, hashcode_String.
  pose proof (ChecksumIEEE_range (chars (lbListenerRuleConditionSetHashBuf m)))
    as H.
  destruct (0 <=? ChecksumIEEE _) eqn:Hv; [auto|].
  apply Z.leb_gt in Hv. lia.
Qed.

(** ** Read *)


(** X10: Read writes no attribute besides [arn], [listener_arn],
    [priority], [action] and [condition], and none at all unless the
    response holds exactly one rule; it leaves the id alone, except that
    it clears it when the rule is not found. *)
Theorem resourceAwsLbListenerRuleRead_frame
  (resp : DescribeRulesOutput + error) (d : ResourceData) (key : string) :
  key <> "arn" -> key <> "listener_arn" -> key <> "priority" ->
  key <> "action" -> key <> "condition" ->
  let d' := fst (resourceAwsLbListenerRuleRead resp d) in
  rd_attrs d' !! key = rd_attrs d !! key
  /\ match resp with
     | inl out => length (dro_Rules out) <> 1%nat -> rd_attrs d' = rd_attrs d
     | inr _ => rd_attrs d' = rd_attrs d
     end
  /\ (rd_Id d' = rd_Id d
      \/ rd_Id d' = ""
         /\ exists message,
              resp = inr (AWSError ErrCodeRuleNotFoundException message)).
Proof.
  intros H1 H2 H3 _ H4. unfold resourceAwsLbListenerRuleRead.
  destruct resp as [out|err].
  - destruct (dro_Rules out) as [|rule [|rule' rules]]; cbn; auto.
    destruct (aws_StringValue (Priority rule) =? "default")%string; cbn.
    + rewrite !lookup_insert_ne by congruence.
      split; [reflexivity|]. split; [congruence|auto].
    + destruct (Atoi _) as [n [e|]]; cbn;
        rewrite !lookup_insert_ne by congruence;
        (split; [reflexivity|]; split; [congruence|auto]).
  - destruct (isAWSErr err ErrCodeRuleNotFoundException "") eqn:He; cbn; auto.
    apply isAWSErr_code in He as [message ->]. eauto 6.
Qed.

(** A Read that finds the rule gone: the id is cleared and the attributes
    stay, the one looked up among them. *)
Lemma resourceAwsLbListenerRuleRead_frame_witness :
  let d := rd_Set (rd_SetId exampleData "rule/8") "tags" (AttrString "blue") in
  let d' := fst (resourceAwsLbListenerRuleRead
                   (inr (AWSError ErrCodeRuleNotFoundException "gone")) d) in
  rd_attrs d' !! "tags" = Some (AttrString "blue")
  /\ rd_attrs d' = rd_attrs d
  /\ rd_Id d' = "".
Proof.
  cbn zeta.
  destruct (resourceAwsLbListenerRuleRead_frame
              (inr (AWSError ErrCodeRuleNotFoundException "gone"))
              (rd_Set (rd_SetId exampleData "rule/8") "tags" (AttrString "blue"))
              "tags" ltac:(discriminate) ltac:(discriminate) ltac:(discriminate)
              ltac:(discriminate) ltac:(discriminate))
    as (Hkey & Hattrs & [Hid|[Hid _]]).
  - discriminate Hid.
  - split; [|split; [exact Hattrs|exact Hid]].
    cbn zeta in Hkey. rewrite Hkey. reflexivity.
Defined.

(** ** Create *)

Section CreateProperties.

Context (elb : ELBV2).

(** A retry loop that ends without error ends with a CreateRule call that
    has succeeded: the request is the one given, with a priority, and the
    response is the one kept in [resp]. *)
Lemma RetryFrom_createAttempt_success (fuel : nat) (arn : string) (budget : nat) :
  forall (s s' : createState elb) e,
    RetryFrom budget (createAttempt elb fuel arn) s e = Some (s', None) ->
    exists c0 p resp,
      CreateRule elb c0 (withPriority (cs_params s) p) = (cs_conn s', inl resp)
      /\ cs_resp s' = Some resp.
Proof.
  induction budget as [|budget IH]; intros s s' e; cbn [RetryFrom].
  - destruct e; discriminate.
  - unfold createAttempt at 1.
    destruct (highestListenerRulePriority elb fuel (cs_conn s) arn)
      as [[c0 [p [err|]]]|]; [discriminate| |discriminate].
    destruct (CreateRule elb c0 _) as [c1 [resp|err]] eqn:Hcall.
    + intros [= <-]. exists c0, (wrap64 (p + 1)), resp. split; [exact Hcall|reflexivity].
    + destruct (isAWSErr err ErrCodePriorityInUseException ""); [|discriminate].
      intros H. apply IH in H as (c2 & q & resp & Hcall2 & Hresp).
      exists c2, q, resp. split; [exact Hcall2|exact Hresp].
Qed.

(** X11: Create sets the id only when it succeeds: with an error the
    resource data is returned as it was given; without error the last
    call made is a CreateRule call that succeeded, for the request given
    with a priority (the configured one, on the connection given, when
    there is one), and the id is the ARN of the first rule of its
    response; the attributes are untouched (they are set by the Read that
    follows). *)
Theorem resourceAwsLbListenerRuleCreate_id
  (budget fuel : nat) (c : conn elb) (d : ResourceData) (listenerArn : string)
  (params : CreateRuleInput) (priority : option Z)
  (c' : conn elb) (d' : ResourceData) (err : option error) :
  resourceAwsLbListenerRuleCreate elb budget fuel c d listenerArn params priority
  = Some (c', d', err) ->
  rd_attrs d' = rd_attrs d
  /\ match err with
     | Some _ => d' = d
     | None =>
         exists c0 p resp rule rules,
           CreateRule elb c0 (withPriority params p) = (c', inl resp)
           /\ cro_Rules resp = rule :: rules
           /\ d' = rd_SetId d (aws_StringValue (RuleArn rule))
           /\ (forall v, priority = Some v -> c0 = c /\ p = v)
     end.
Proof.
  unfold resourceAwsLbListenerRuleCreate.
  assert (Hfinish : forall c0 p c1 resp,
    CreateRule elb c0 (withPriority params p) = (c1, inl resp) ->
    (forall v, priority = Some v -> c0 = c /\ p = v) ->
    match Some resp with
    | Some {| cro_Rules := rule :: _ |} =>
        Some (c1, rd_SetId d (aws_StringValue (RuleArn rule)), None)
    | _ => Some (c1, d, Some (ErrorsNew
             "Error creating LB Listener Rule: no rules returned in response"))
    end = Some (c', d', err) ->
    rd_attrs d' = rd_attrs d
    /\ match err with
       | Some _ => d' = d
       | None =>
           exists c0 p resp rule rules,
             CreateRule elb c0 (withPriority params p) = (c', inl resp)
             /\ cro_Rules resp = rule :: rules
             /\ d' = rd_SetId d (aws_StringValue (RuleArn rule))
             /\ (forall v, priority = Some v -> c0 = c /\ p = v)
       end).
  { intros c0 p c1 [[|rule rules]] Hcall Hpriority; intros [= <- <- <-]; cbn.
    - auto.
    - split; [reflexivity|]. exists c0, p, {| cro_Rules := rule :: rules |}, rule, rules.
      auto. }
  destruct priority as [v|].
  - destruct (CreateRule elb c _) as [c1 [resp|e]] eqn:Hcall.
    + apply (Hfinish c v c1 resp Hcall). now intros v' [= <-].
    + intros [= <- <- <-]. auto.
  - destruct (Retry budget _ _) as [[s [e|]]|] eqn:Hretry; [| |discriminate].
    + intros [= <- <- <-]. auto.
    + apply RetryFrom_createAttempt_success in Hretry
        as (c0 & p & resp & Hcall & Hresp).
      rewrite Hresp. apply (Hfinish c0 p (cs_conn s) resp Hcall). discriminate.
Qed.

Lemma describeAllRules_listingFails arn c marker pages c' err :
  listingFails elb arn c marker pages c' err ->
  forall fuel priorities,
    (length pages < fuel)%nat ->
    describeAllRules elb fuel c arn marker priorities = Some (c', inr err).
Proof.
  induction 1 as [c marker c' err Hcall
                 |c marker out c' next pages c'' err Hcall Hnext _ IH];
    intros [|fuel] priorities Hfuel; cbn in Hfuel; try lia;
    cbn [describeAllRules]; unfold aws_String; rewrite Hcall.
  - reflexivity.
  - rewrite Hnext. apply IH. lia.
Qed.

(** X12: when DescribeRules fails while the rules of the listener are
    listed, a create without priority ends with that error at once: the
    error is not retried, whatever its code, CreateRule is not called (the
    connection is in the state that the failed call has left), and the
    resource data is untouched. *)
Theorem resourceAwsLbListenerRuleCreate_describe_fails
  (budget fuel : nat) (c : conn elb) (d : ResourceData) (arn : string)
  (params : CreateRuleInput) pages c' err :
  listingFails elb arn c None pages c' err ->
  (length pages < fuel)%nat ->
  resourceAwsLbListenerRuleCreate elb (S budget) fuel c d arn params None
  = Some (c', d, Some (ErrorfWrap "Error creating LB Listener Rule: %v" [] err)).
Proof.
  intros Hl Hfuel.
  unfold resourceAwsLbListenerRuleCreate, Retry. cbn [RetryFrom].
  unfold createAttempt, highestListenerRulePriority. cbn [cs_conn].
  now rewrite (describeAllRules_listingFails _ _ _ _ _ _ Hl).
Qed.

Lemma pagePriorities_range (pages : list DescribeRulesOutput) (p : Z) :
  isHighest (pagePriorities pages) p -> MinInt64 <= p <= MaxInt64.
Proof.
  intros [[_ ->]|[Hin _]]; [unfold MinInt64, MaxInt64; lia|].
  unfold pagePriorities, rulePriorities in Hin.
  apply in_concat in Hin as (l & Hl1 & Hl2).
  apply in_map_iff in Hl1 as (out & <- & _).
  apply in_map_iff in Hl2 as (rule & <- & _). apply Atoi_range.
Qed.

(** X13: the priority that an attempt asks for is not checked against the
    validator of the [priority] attribute: it is one that the validator
    accepts if and only if the highest priority of the listener is between
    0 and 49999, or is 99998.  On a listener whose highest priority is 50000
    the attempt asks for 50001. *)
Theorem createAttempt_priority_valid arn (s : createState elb) pages c' :
  listing elb arn (cs_conn s) None pages c' ->
  exists p,
    isHighest (pagePriorities pages) p
    /\ forall fuel k, (length pages <= fuel)%nat ->
         exists s' r q,
           createAttempt elb fuel arn s = Some (s', r)
           /\ cri_Priority (cs_params s') = Some q
           /\ (snd (validateAwsLbListenerRulePriority q k) = []
               <-> (0 <= p <= 49999 \/ p = 99998)).
Proof.
  intros Hl.
  destruct (highestListenerRulePriority_listing _ _ _ _ _ Hl) as (p & Hp & Hhigh).
  exists p. split; [exact Hp|]. intros fuel k Hfuel.
  pose proof (pagePriorities_range _ _ Hp) as Hrange.
  assert (Hvalid : snd (validateAwsLbListenerRulePriority (wrap64 (p + 1)) k) = []
                   <-> (0 <= p <= 49999 \/ p = 99998)).
  { unfold validateAwsLbListenerRulePriority, wrap64, MinInt64, MaxInt64 in *.
    cbn zeta.
    destruct (Z.eq_dec p 9223372036854775807) as [->|Hmax].
    - cbn. split; [discriminate|lia].
    - rewrite Z.mod_small by lia.
      replace (p + 1 + 2 ^ 63 - 2 ^ 63) with (p + 1) by lia.
      destruct (p + 1 <? 1) eqn:Hlo; destruct (p + 1 >? 50000) eqn:Hhi;
        destruct (p + 1 =? 99999) eqn:Hdef; cbn;
        rewrite ?Z.ltb_lt, ?Z.ltb_ge, ?Z.gtb_ltb, ?Z.eqb_eq, ?Z.eqb_neq in *;
        split; try discriminate; try reflexivity; intros; try lia. }
  unfold createAttempt. rewrite (Hhigh fuel Hfuel).
  destruct (CreateRule elb c' _) as [c'' [resp|err]]; cbn.
  - eauto 10.
  - destruct (isAWSErr err _ _); eauto 10.
Qed.

End CreateProperties.

(** A create without priority on the example listener. *)
Lemma resourceAwsLbListenerRuleCreate_id_witness :
  let res := resourceAwsLbListenerRuleCreate exampleListener 3 2 0%nat
               exampleData "listener/1" exampleParams None in
  res = Some (3%nat, rd_SetId exampleData "rule/8", None)
  /\ exists c0 p resp rule rules,
       CreateRule exampleListener c0 (withPriority exampleParams p) = (3%nat, inl resp)
       /\ cro_Rules resp = rule :: rules
       /\ rd_SetId exampleData "rule/8"
          = rd_SetId exampleData (aws_StringValue (RuleArn rule)).
Proof.
  cbn zeta. split; [reflexivity|].
  destruct (resourceAwsLbListenerRuleCreate_id exampleListener 3 2 0%nat
              exampleData "listener/1" exampleParams None 3%nat _ None eq_refl)
    as (_ & c0 & p & resp & rule & rules & Hcall & Hrules & Hid & _).
  exists c0, p, resp, rule, rules. auto.
Defined.

(** A create on the listener whose rules cannot be listed: one call is
    made, although the budget allows three attempts. *)
Lemma resourceAwsLbListenerRuleCreate_describe_fails_witness :
  listingFails brokenListener "listener/1" 0%nat None [] 1%nat
    (AWSError ErrCodePriorityInUseException "try again")
  /\ resourceAwsLbListenerRuleCreate brokenListener 3 2 0%nat exampleData
       "listener/1" exampleParams None
     = Some (1%nat, exampleData,
             Some (ErrorfWrap "Error creating LB Listener Rule: %v" []
                     (AWSError ErrCodePriorityInUseException "try again"))).
Proof.
  assert (H : listingFails brokenListener "listener/1" 0%nat None [] 1%nat
                (AWSError ErrCodePriorityInUseException "try again"))
    by (apply listingFails_now; reflexivity).
  split; [exact H|].
  apply (resourceAwsLbListenerRuleCreate_describe_fails brokenListener 2 2
           0%nat exampleData "listener/1" exampleParams [] 1%nat _ H).
  cbn. lia.
Defined.

(** An attempt on the example listener, whose highest priority is 7. *)
Lemma createAttempt_priority_valid_witness :
  listing exampleListener "listener/1" 0%nat None [examplePage1; examplePage2] 0%nat
  /\ exists p,
       isHighest (pagePriorities [examplePage1; examplePage2]) p
       /\ exists s' r q,
            createAttempt exampleListener 2 "listener/1"
              (exampleState 0 exampleParams) = Some (s', r)
            /\ cri_Priority (cs_params s') = Some q
            /\ (snd (validateAwsLbListenerRulePriority q "priority") = []
                <-> (0 <= p <= 49999 \/ p = 99998)).
Proof.
  split; [exact exampleListener_listing|].
  destruct (createAttempt_priority_valid exampleListener "listener/1"
              (exampleState 0 exampleParams) _ _ exampleListener_listing)
    as (p & Hp & H).
  exists p. split; [exact Hp|].
  apply (H 2%nat "priority"). cbn. lia.
Defined.

(** ** The suppression of differences *)

Lemma chars_app (a b : string) : chars (a +:+ b) = chars a ++ chars b.
Proof.
  unfold chars. induction a as [|x a IH]; [reflexivity|].
  cbn. now rewrite <- IH.
Qed.

Lemma IndexFuncFrom_no_dot (s rest : list ascii) (take i : Z) :
  forallb (fun a => negb (Ascii.eqb a ".")) s = true ->
  IndexFuncFrom takeDots take (s ++ rest) i
  = IndexFuncFrom takeDots take rest (i + Z.of_nat (length s)).
Proof.
  revert i. induction s as [|a s IH]; intros i; cbn [forallb app length].
  - intros _. f_equal. lia.
  - intros [Ha Hs]%andb_true_iff. cbn [IndexFuncFrom]. unfold takeDots at 1.
    apply negb_true_iff in Ha. rewrite Ha, IH by assumption. f_equal. lia.
Qed.

Lemma IndexFuncFrom_none (s : list ascii) (take i : Z) :
  take <> 0 ->
  forallb (fun a => negb (Ascii.eqb a ".")) s = true ->
  IndexFuncFrom takeDots take s i = -1.
Proof.
  intros _ Hs. rewrite <- (app_nil_r s), IndexFuncFrom_no_dot by assumption.
  reflexivity.
Qed.

Lemma IndexFuncFrom_second_dot (a b rest : list ascii) (i : Z) :
  forallb (fun a => negb (Ascii.eqb a ".")) a = true ->
  forallb (fun a => negb (Ascii.eqb a ".")) b = true ->
  IndexFuncFrom takeDots 2 (a ++ "."%char :: b ++ "."%char :: rest) i
  = i + Z.of_nat (length a) + 1 + Z.of_nat (length b).
Proof.
  intros Ha Hb. rewrite IndexFuncFrom_no_dot by assumption.
  cbn [IndexFuncFrom]. unfold takeDots at 1.
  change (Ascii.eqb "." ".") with true. cbv iota.
  change (2 - 1 =? 0) with false. cbv iota.
  rewrite IndexFuncFrom_no_dot by assumption.
  cbn [IndexFuncFrom]. unfold takeDots.
  change (Ascii.eqb "." ".") with true. cbv iota.
  change (2 - 1 - 1 =? 0) with true. cbv iota. reflexivity.
Qed.

(** The prefix of a key with two dots or more, up to the second dot. *)
Lemma slice_to_second_dot (a b rest : string) :
  dotFree a = true -> dotFree b = true ->
  let k := a +:+ "." +:+ b +:+ "." +:+ rest in
  slice_to k (strings_IndexFunc k takeDots 2 + 1) = a +:+ "." +:+ b +:+ ".".
Proof.
  unfold dotFree, strings_IndexFunc, slice_to. intros Ha Hb. cbn zeta.
  rewrite !chars_app.
  change (chars ".") with ["."%char]. cbn [app].
  rewrite IndexFuncFrom_second_dot by assumption.
  replace (Z.to_nat (0 + Z.of_nat (length (chars a)) + 1
                     + Z.of_nat (length (chars b)) + 1))
    with (length (chars a ++ "."%char :: chars b ++ ["."%char])).
  2:{ rewrite length_app. cbn [length]. rewrite length_app. cbn [length]. lia. }
  replace (chars a ++ "."%char :: chars b ++ "."%char :: chars rest)
    with ((chars a ++ "."%char :: chars b ++ ["."%char]) ++ chars rest).
  2:{ rewrite <- !app_assoc. cbn. now rewrite <- app_assoc. }
  rewrite take_app_length.
  change ("."%char :: chars b ++ ["."%char])
    with (chars "." ++ chars b ++ chars ".").
  now rewrite !str_app, !str_chars.
Qed.

(** The prefix of a key with one dot or none is empty. *)
Lemma slice_to_no_second_dot (a b : string) :
  dotFree a = true -> dotFree b = true ->
  slice_to a (strings_IndexFunc a takeDots 2 + 1) = ""
  /\ let k := a +:+ "." +:+ b in
     slice_to k (strings_IndexFunc k takeDots 2 + 1) = "".
Proof.
  unfold dotFree, strings_IndexFunc, slice_to. intros Ha Hb. split.
  - now rewrite IndexFuncFrom_none.
  - cbn zeta. rewrite !chars_app. change (chars ".") with ["."%char].
    cbn [app]. rewrite IndexFuncFrom_no_dot by assumption.
    cbn [IndexFuncFrom]. unfold takeDots at 1.
    change (Ascii.eqb "." ".") with true. cbv iota.
    change (2 - 1 =? 0) with false. cbv iota.
    now rewrite IndexFuncFrom_none.
Qed.

(** X14: whether a difference in an attribute of a condition is
    suppressed is decided by the field of that condition alone: for a key
    that begins with two segments [a.b.] the function reads [a.b.field] and
    suppresses the difference if and only if that field is none of [fs]; the
    old and the new value are not looked at.  It panics when there is no
    such string in the resource data. *)
Theorem suppressIfConditionFieldNotIn_spec
  (fs : list string) (a b rest old new : string) (Get : string -> option string) :
  dotFree a = true -> dotFree b = true ->
  suppressIfConditionFieldNotIn fs (a +:+ "." +:+ b +:+ "." +:+ rest) old new Get
  = match Get (a +:+ "." +:+ b +:+ ".field") with
    | Some field => Returns (bool_decide (field ∉ fs))
    | None => Panics
    end.
Proof.
  intros Ha Hb. unfold suppressIfConditionFieldNotIn. cbn zeta.
  rewrite (slice_to_second_dot a b rest Ha Hb).
  rewrite !append_assoc. change ("." +:+ "field") with ".field".
  destruct (Get _) as [field|]; [|reflexivity]. f_equal.
  induction fs as [|f fs IH]; cbn [fieldNotIn].
  - symmetry. apply bool_decide_eq_true. apply not_elem_of_nil.
  - destruct (String.eqb_spec field f) as [->|Hf].
    + symmetry. apply bool_decide_eq_false. intros H. apply H. left.
    + rewrite IH. apply bool_decide_ext. rewrite not_elem_of_cons. tauto.
Qed.

(** The deprecated [values] of the condition 123, whose field is
    [path-pattern], and its [host_header] block. *)
Lemma suppressIfConditionFieldNotIn_spec_witness :
  suppressIfConditionFieldNotIn ["host-header"; "path-pattern"]
    "condition.123.values.0" "" "/old/*" exampleGet = Returns false
  /\ suppressIfConditionFieldNotIn ["host-header"]
       "condition.123.host_header.#" "0" "1" exampleGet = Returns true.
Proof.
  split.
  - apply (suppressIfConditionFieldNotIn_spec ["host-header"; "path-pattern"]
             "condition" "123" "values.0" "" "/old/*" exampleGet);
      reflexivity.
  - apply (suppressIfConditionFieldNotIn_spec ["host-header"]
             "condition" "123" "host_header.#" "0" "1" exampleGet);
      reflexivity.
Defined.

(** X15: whether a difference in an attribute of an action is suppressed
    is decided by the type of that action alone: for a key that begins with
    two segments [a.b.] the function reads [a.b.type] and suppresses the
    difference if and only if that type is not [t]. *)
Theorem suppressIfActionTypeNot_spec
  (t a b rest old new : string) (Get : string -> option string) :
  dotFree a = true -> dotFree b = true ->
  suppressIfActionTypeNot t (a +:+ "." +:+ b +:+ "." +:+ rest) old new Get
  = match Get (a +:+ "." +:+ b +:+ ".type") with
    | Some type => Returns (bool_decide (type <> t))
    | None => Panics
    end.
Proof.
  intros Ha Hb. unfold suppressIfActionTypeNot. cbn zeta.
  rewrite (slice_to_second_dot a b rest Ha Hb).
  rewrite !append_assoc. change ("." +:+ "type") with ".type".
  destruct (Get _) as [type|]; [|reflexivity]. f_equal.
  destruct (String.eqb_spec type t) as [->|Ht]; cbn.
  - symmetry. apply bool_decide_eq_false. tauto.
  - symmetry. now apply bool_decide_eq_true.
Qed.

(** The [redirect] block and the target group of the action 0, whose type
    is [forward]. *)
Lemma suppressIfActionTypeNot_spec_witness :
  suppressIfActionTypeNot "redirect" "action.0.redirect.#" "0" "1" exampleGet
  = Returns true
  /\ suppressIfActionTypeNot "forward" "action.0.target_group_arn" "" "arn"
       exampleGet
     = Returns false.
Proof.
  split.
  - apply (suppressIfActionTypeNot_spec "redirect" "action" "0" "redirect.#"
             "0" "1" exampleGet); reflexivity.
  - apply (suppressIfActionTypeNot_spec "forward" "action" "0"
             "target_group_arn" "" "arn" exampleGet); reflexivity.
Defined.

(** X16: for a key with fewer than two dots the two functions read the
    top-level keys [field] and [type]: the prefix that they cut off the key
    is empty. *)
Theorem suppress_short_key
  (fs : list string) (t a b old new : string) (Get : string -> option string) :
  dotFree a = true -> dotFree b = true ->
  let short k :=
    suppressIfConditionFieldNotIn fs k old new Get
    = match Get "field" with
      | Some field => Returns (fieldNotIn field fs)
      | None => Panics
      end
    /\ suppressIfActionTypeNot t k old new Get
       = match Get "type" with
         | Some type => Returns (negb (String.eqb type t))
         | None => Panics
         end in
  short a /\ short (a +:+ "." +:+ b).
Proof.
  intros Ha Hb. cbn zeta.
  destruct (slice_to_no_second_dot a b Ha Hb) as [H1 H2]. cbn zeta in H2.
  unfold suppressIfConditionFieldNotIn, suppressIfActionTypeNot. cbn zeta.
  rewrite H1, H2. cbn. auto.
Qed.

(** The key [condition] and the key [condition.#]: there is no top-level
    [field], and the functions panic. *)
Lemma suppress_short_key_witness :
  suppressIfConditionFieldNotIn ["host-header"] "condition.#" "1" "2" exampleGet
  = Panics.
Proof.
  destruct (suppress_short_key ["host-header"] "forward" "condition" "#"
              "1" "2" exampleGet eq_refl eq_refl) as [_ [H _]].
  exact H.
Defined.

(** ** The expansion of the actions *)

(** Case analysis on the type of an action: one case for each of the five
    types, in which the comparisons of the type are evaluated, and one for
    any other type. *)
Ltac type_cases t :=
  destruct (String.eqb_spec t "forward") as [->|?];
  [cbn|
  destruct (String.eqb_spec t "redirect") as [->|?];
  [cbn|
  destruct (String.eqb_spec t "fixed-response") as [->|?];
  [cbn|
  destruct (String.eqb_spec t "authenticate-cognito") as [->|?];
  [cbn|
  destruct (String.eqb_spec t "authenticate-oidc") as [->|?];
  [cbn|cbn]]]]].

Lemma lbListenerRuleAction_shape (i : nat) (m : actionMap) (a : Action) :
  lbListenerRuleAction i m = Returns (inl a) ->
  act_Type a = Some (am_type m)
  /\ act_Order a = Some (orderOf i m)
  /\ configTypes a = if isActionType (am_type m) then [am_type m] else [].
Proof.
  assert (Horder :
    match am_order m with
    | Some order => if negb (order =? 0) then aws_Int64 order
                    else aws_Int64 (Z.of_nat i + 1)
    | None => aws_Int64 (Z.of_nat i + 1)
    end = Some (orderOf i m)).
  { unfold orderOf, aws_Int64. destruct (am_order m) as [order|]; [|reflexivity].
    now destruct (order =? 0). }
  unfold lbListenerRuleAction, isActionType, configTypes. cbn zeta.
  rewrite Horder. clear Horder. generalize (orderOf i m). intros order.
  destruct m as [t o tg rd fr ac ao]; cbn.
  type_cases t.
  - intros [= <-]; auto.
  - destruct rd as [|[?|] [|? ?]]; intros [= <-]; auto.
  - destruct fr as [|[?|] [|? ?]]; intros [= <-]; auto.
  - destruct ac as [|[?|] [|? ?]]; intros [= <-]; auto.
  - destruct ao as [|[?|] [|? ?]]; intros [= <-]; auto.
  - intros [= <-]; auto.
Qed.

Lemma lbListenerRuleActionsFrom_inl (actions : list actionMap) :
  forall i elbActions l,
    lbListenerRuleActionsFrom i elbActions actions = Returns (inl l) ->
    exists l',
      l = elbActions ++ l'
      /\ length l' = length actions
      /\ forall j m a,
           actions !! j = Some m -> l' !! j = Some a ->
           lbListenerRuleAction (i + j) m = Returns (inl a).
Proof.
  induction actions as [|m actions IH]; intros i acc l; cbn.
  - intros [= <-]. exists []. rewrite app_nil_r.
    repeat split. intros j m a Hm. discriminate Hm.
  - destruct (lbListenerRuleAction i m) as [[a|err]|] eqn:Hm; try discriminate.
    intros (l' & -> & Hlen & Hall)%IH. exists (a :: l').
    rewrite <- app_assoc. split; [reflexivity|]. split; [cbn; lia|].
    intros [|j] m' a'; cbn.
    + intros [= <-] [= <-]. now rewrite Nat.add_0_r.
    + intros Hm' Ha'. rewrite <- Nat.add_succ_comm. now apply Hall.
Qed.

(** X17: when the expansion of the actions returns the actions of the
    request, there is one for each element of the list, in order; the action
    for the element [i] (counted from 0) has the type of that element, the
    order [i + 1] unless the element has an order other than 0, which it
    then keeps, and no member set but the one of its type: the target group
    for [forward], the configuration for the four other types, nothing for
    any other type. *)
Theorem lbListenerRuleActions_shape (actions : list actionMap) (l : list Action) :
  lbListenerRuleActions actions = Returns (inl l) ->
  length l = length actions
  /\ forall (i : nat) (m : actionMap) (a : Action),
       actions !! i = Some m -> l !! i = Some a ->
       act_Type a = Some (am_type m)
       /\ act_Order a = Some (orderOf i m)
       /\ configTypes a = if isActionType (am_type m) then [am_type m] else [].
Proof.
  unfold lbListenerRuleActions.
  intros (l' & -> & Hlen & Hall)%lbListenerRuleActionsFrom_inl. cbn.
  split; [exact Hlen|]. intros i m a Hm Ha.
  apply (lbListenerRuleAction_shape i). now apply Hall.
Qed.

(** Two [forward] actions, the first without order, the second with the
    order 5. *)
Lemma lbListenerRuleActions_shape_witness :
  let actions := [forwardMap None "targetgroup/1";
                  forwardMap (Some 5) "targetgroup/2"] in
  exists l,
    lbListenerRuleActions actions = Returns (inl l)
    /\ length l = 2%nat
    /\ map act_Order l = [Some 1; Some 5].
Proof.
  cbn zeta. eexists. split; [reflexivity|].
  split; [|reflexivity].
  apply (lbListenerRuleActions_shape
           [forwardMap None "targetgroup/1"; forwardMap (Some 5) "targetgroup/2"]).
  reflexivity.
Defined.

Lemma lbListenerRuleAction_returns (i : nat) (m : actionMap) :
  nilActionBlock m = false ->
  if missingActionBlock m
  then exists err, lbListenerRuleAction i m = Returns (inr err)
  else exists a, lbListenerRuleAction i m = Returns (inl a).
Proof.
  unfold nilActionBlock, missingActionBlock, lbListenerRuleAction.
  destruct m as [t o tg rd fr ac ao]; cbn.
  type_cases t; intros Hnil.
  - eauto.
  - destruct rd as [|[?|] [|? ?]]; try discriminate; cbn; eauto.
  - destruct fr as [|[?|] [|? ?]]; try discriminate; cbn; eauto.
  - destruct ac as [|[?|] [|? ?]]; try discriminate; cbn; eauto.
  - destruct ao as [|[?|] [|? ?]]; try discriminate; cbn; eauto.
  - eauto.
Qed.

Lemma lbListenerRuleActionsFrom_returns (actions : list actionMap) :
  Forall (fun m => nilActionBlock m = false) actions ->
  forall i elbActions,
    (Exists (fun m => missingActionBlock m = true) actions ->
     exists err,
       lbListenerRuleActionsFrom i elbActions actions = Returns (inr err))
    /\ (~ Exists (fun m => missingActionBlock m = true) actions ->
        exists l,
          lbListenerRuleActionsFrom i elbActions actions = Returns (inl l)
          /\ length l = (length elbActions + length actions)%nat).
Proof.
  induction 1 as [|m actions Hm _ IH]; intros i acc.
  - split.
    + intros H. inversion H.
    + intros _. exists acc. cbn. split; [reflexivity|lia].
  - cbn [lbListenerRuleActionsFrom].
    apply (lbListenerRuleAction_returns i) in Hm.
    destruct (missingActionBlock m) eqn:Hmiss.
    + destruct Hm as [err ->]. split; [eauto|].
      intros H. exfalso. apply H. now constructor.
    + destruct Hm as [a ->].
      destruct (IH (S i) (acc ++ [a])) as [IH1 IH2]. split.
      * intros H. apply IH1. inversion H; subst; [congruence|assumption].
      * intros H. destruct IH2 as (l & -> & Hlen).
        { intros H'. apply H. now constructor 2. }
        exists l. split; [reflexivity|].
        rewrite Hlen, length_app. cbn. lia.
Qed.

(** X18: on actions none of which has a nil element as its block, the
    expansion returns an error if and only if some action of type
    [redirect], [fixed-response], [authenticate-cognito] or
    [authenticate-oidc] has a block list that does not hold exactly one
    element; otherwise it returns as many actions as the list has.  A
    [forward] action and an action of any other type never make it fail. *)
Theorem lbListenerRuleActions_error_iff (actions : list actionMap) :
  Forall (fun m => nilActionBlock m = false) actions ->
  ((exists err, lbListenerRuleActions actions = Returns (inr err))
   <-> Exists (fun m => missingActionBlock m = true) actions)
  /\ (~ Exists (fun m => missingActionBlock m = true) actions ->
      exists l,
        lbListenerRuleActions actions = Returns (inl l)
        /\ length l = length actions).
Proof.
  intros Hnil. unfold lbListenerRuleActions.
  destruct (lbListenerRuleActionsFrom_returns actions Hnil 0 []) as [H1 H2].
  split; [split; [|exact H1]|exact H2].
  intros [err Herr].
  destruct (decide (Exists (fun m => missingActionBlock m = true) actions))
    as [H|H]; [assumption|].
  destruct (H2 H) as (l & Hl & _). congruence.
Qed.

(** A [forward] action followed by a [redirect] action without block. *)
Lemma lbListenerRuleActions_error_iff_witness :
  Forall (fun m => nilActionBlock m = false)
    [forwardMap None "targetgroup/1"; redirectWithoutBlock]
  /\ exists err,
       lbListenerRuleActions [forwardMap None "targetgroup/1"; redirectWithoutBlock]
       = Returns (inr err).
Proof.
  assert (H : Forall (fun m => nilActionBlock m = false)
                [forwardMap None "targetgroup/1"; redirectWithoutBlock])
    by (repeat constructor).
  split; [exact H|].
  apply (proj1 (lbListenerRuleActions_error_iff _ H)).
  right. left. reflexivity.
Defined.

(** ** The actions from the API to the state and back *)

Lemma StringValue_String_fmap (params : gmap string string) :
  aws_StringValue <$> (aws_String <$> params) = params.
Proof.
  rewrite <- map_fmap_compose. apply map_eq. intros key.
  rewrite lookup_fmap. now destruct (params !! key).
Qed.

Lemma StringValue_optionalString (p : option string) :
  aws_StringValue (optionalString (Some (aws_StringValue p))) = aws_StringValue p.
Proof.
  unfold optionalString.
  destruct (String.eqb_spec (aws_StringValue p) "") as [->|?]; reflexivity.
Qed.

Lemma Int64Value_optionalInt64 (p : option Z) :
  aws_Int64Value (optionalInt64 (Some (aws_Int64Value p))) = aws_Int64Value p.
Proof.
  unfold optionalInt64.
  destruct (Z.eqb_spec (aws_Int64Value p) 0) as [->|?]; reflexivity.
Qed.

Lemma flatten_expand_action_at (i : nat) (clientSecret : string) (a : Action) :
  actionConfigPresent a = true ->
  exists m a',
    flattenAction clientSecret a = Returns m
    /\ lbListenerRuleAction i m = Returns (inl a')
    /\ act_Type a' = act_Type a
    /\ act_Order a'
       = Some (if aws_Int64Value (act_Order a) =? 0 then Z.of_nat i + 1
               else aws_Int64Value (act_Order a))
    /\ actionValuesOf a' = actionValuesOf a
    /\ (forall cfg', act_AuthenticateOidcConfig a' = Some cfg' ->
        oc_ClientSecret cfg' = Some clientSecret).
Proof.
  unfold actionConfigPresent, flattenAction, actionValuesOf.
  destruct a as [order [t|] tg rd fr ac ao]; cbn; [|discriminate].
  assert (Horder :
    (if negb (aws_Int64Value order =? 0) then aws_Int64 (aws_Int64Value order)
     else aws_Int64 (Z.of_nat i + 1))
    = Some (if aws_Int64Value order =? 0 then Z.of_nat i + 1
            else aws_Int64Value order)).
  { unfold aws_Int64. now destruct (aws_Int64Value order =? 0). }
  type_cases t; intros Hcfg.
  - do 2 eexists. split; [reflexivity|]. unfold lbListenerRuleAction; cbn -[optionalString optionalInt64].
    rewrite Horder; cbn -[optionalString optionalInt64]. repeat split. intros ? [=].
  - destruct rd as [cfg|]; [|discriminate].
    do 2 eexists. split; [reflexivity|]. unfold lbListenerRuleAction; cbn -[optionalString optionalInt64].
    rewrite Horder; cbn -[optionalString optionalInt64]. repeat split. intros ? [=].
  - destruct fr as [cfg|]; [|discriminate].
    do 2 eexists. split; [reflexivity|]. unfold lbListenerRuleAction; cbn -[optionalString optionalInt64].
    rewrite Horder; cbn -[optionalString optionalInt64]. repeat split. intros ? [=].
  - destruct ac as [cfg|]; [|discriminate].
    do 2 eexists. split; [reflexivity|]. unfold lbListenerRuleAction; cbn -[optionalString optionalInt64].
    rewrite Horder; cbn -[optionalString optionalInt64]. split; [reflexivity|]. split; [reflexivity|].
    split; [reflexivity|]. split; [|intros ? [=]].
    cbn -[optionalString optionalInt64].
    now rewrite StringValue_String_fmap, !StringValue_optionalString,
      Int64Value_optionalInt64.
  - destruct ao as [cfg|]; [|discriminate].
    do 2 eexists. split; [reflexivity|]. unfold lbListenerRuleAction; cbn -[optionalString optionalInt64].
    rewrite Horder; cbn -[optionalString optionalInt64]. split; [reflexivity|]. split; [reflexivity|].
    split; [reflexivity|]. split; [|now intros ? [= <-]].
    cbn -[optionalString optionalInt64].
    now rewrite StringValue_String_fmap, !StringValue_optionalString,
      Int64Value_optionalInt64.
  - discriminate.
Qed.

(** X19: an action of the API whose type is one of the five, with the
    configuration of its type, is flattened by Read into a map that the
    expansion turns into an action again, with the same type and the same
    values as strings and numbers (a nil member and an empty one are not
    told apart).  The order is kept unless it is nil or 0, in which case the
    action gets the order of its place in the list.  The client secret of an
    [authenticate-oidc] action is the one of the resource data, whatever the
    API returned. *)
Theorem flatten_expand_action (i : nat) (clientSecret : string) (a : Action) :
  actionConfigPresent a = true ->
  exists m a',
    flattenAction clientSecret a = Returns m
    /\ lbListenerRuleAction i m = Returns (inl a')
    /\ act_Type a' = act_Type a
    /\ act_Order a'
       = Some (if aws_Int64Value (act_Order a) =? 0 then Z.of_nat i + 1
               else aws_Int64Value (act_Order a))
    /\ actionValuesOf a' = actionValuesOf a
    /\ (forall cfg', act_AuthenticateOidcConfig a' = Some cfg' ->
        oc_ClientSecret cfg' = Some clientSecret).
Proof. apply flatten_expand_action_at. Qed.

(** An [authenticate-oidc] action, for which the API returns no client
    secret. *)
Lemma flatten_expand_action_witness :
  actionConfigPresent exampleOidcAction = true
  /\ exists m a',
       flattenAction "secret" exampleOidcAction = Returns m
       /\ lbListenerRuleAction 0 m = Returns (inl a')
       /\ actionValuesOf a' = actionValuesOf exampleOidcAction
       /\ (forall cfg', act_AuthenticateOidcConfig a' = Some cfg' ->
           oc_ClientSecret cfg' = Some "secret").
Proof.
  split; [reflexivity|].
  destruct (flatten_expand_action 0 "secret" exampleOidcAction eq_refl)
    as (m & a' & H1 & H2 & _ & _ & H3 & H4).
  exists m, a'. auto.
Defined.

Lemma flatten_expand_actions_from (GetClientSecret : nat -> string)
  (sorted : list Action) :
  Forall (fun a => actionConfigPresent a = true) sorted ->
  forall i elbActions,
    exists ms l,
      flattenActionsFrom i GetClientSecret sorted = Returns ms
      /\ lbListenerRuleActionsFrom i elbActions ms = Returns (inl (elbActions ++ l))
      /\ length l = length sorted
      /\ forall j a a',
           sorted !! j = Some a -> l !! j = Some a' ->
           act_Type a' = act_Type a
           /\ actionValuesOf a' = actionValuesOf a
           /\ act_Order a'
              = Some (if aws_Int64Value (act_Order a) =? 0
                      then Z.of_nat (i + j) + 1
                      else aws_Int64Value (act_Order a)).
Proof.
  induction 1 as [|a sorted Ha _ IH]; intros i acc.
  - exists [], []. cbn. rewrite app_nil_r. do 3 (split; [reflexivity|]).
    intros j a a' Hj. discriminate Hj.
  - destruct (flatten_expand_action_at i (GetClientSecret i) a Ha)
      as (m & a' & Hm & Ha' & Htype & Horder & Hvalues & _).
    destruct (IH (S i) (acc ++ [a'])) as (ms & l & Hms & Hl & Hlen & Hall).
    exists (m :: ms), (a' :: l). cbn [flattenActionsFrom lbListenerRuleActionsFrom].
    rewrite Hm, Hms, Ha', Hl, <- app_assoc.
    split; [reflexivity|]. split; [reflexivity|]. split; [cbn; lia|].
    intros [|j] b b'; cbn.
    + intros [= <-] [= <-]. now rewrite Nat.add_0_r.
    + intros Hb Hb'. rewrite <- Nat.add_succ_comm. now apply Hall.
Qed.

(** X20: the actions of a rule, which Read stores in the order of their
    [Order], are expanded from the state into as many actions, one for
    one: the action at each place has the type and the values of the action
    that the API returned at that place, and its order, or the number of the
    place (counted from 1) when the API gave it no order or the order 0. *)
Theorem read_then_expand_actions (GetClientSecret : nat -> string)
  (actions sorted : list Action) :
  sortedByOrder actions sorted ->
  Forall (fun a => actionConfigPresent a = true) actions ->
  exists ms l,
    flattenActionsFrom 0 GetClientSecret sorted = Returns ms
    /\ lbListenerRuleActions ms = Returns (inl l)
    /\ length l = length actions
    /\ forall i a a',
         sorted !! i = Some a -> l !! i = Some a' ->
         act_Type a' = act_Type a
         /\ actionValuesOf a' = actionValuesOf a
         /\ act_Order a'
            = Some (if aws_Int64Value (act_Order a) =? 0
                    then Z.of_nat i + 1
                    else aws_Int64Value (act_Order a)).
Proof.
  intros [Hperm _] Hall. rewrite <- Hperm in Hall.
  destruct (flatten_expand_actions_from GetClientSecret sorted Hall 0 [])
    as (ms & l & Hms & Hl & Hlen & Hlookup).
  exists ms, l. split; [exact Hms|]. split; [exact Hl|].
  split; [now rewrite Hlen, Hperm|exact Hlookup].
Qed.

Lemma exampleActions_sorted :
  sortedByOrder [exampleForwardAction; exampleOidcAction]
                [exampleOidcAction; exampleForwardAction].
Proof.
  split.
  - apply Permutation_swap.
  - repeat constructor. cbn. lia.
Qed.

(** A rule that authenticates and then forwards, which the API returns
    with the actions the other way round. *)
Lemma read_then_expand_actions_witness :
  sortedByOrder [exampleForwardAction; exampleOidcAction]
                [exampleOidcAction; exampleForwardAction]
  /\ exists ms l,
       flattenActionsFrom 0 (fun _ => "secret")
         [exampleOidcAction; exampleForwardAction] = Returns ms
       /\ lbListenerRuleActions ms = Returns (inl l)
       /\ length l = 2%nat.
Proof.
  split; [exact exampleActions_sorted|].
  destruct (read_then_expand_actions (fun _ => "secret") _ _
              exampleActions_sorted)
    as (ms & l & H1 & H2 & H3 & _).
  - repeat constructor.
  - exists ms, l. auto.
Defined.

(** ** Read: the retried call *)

Section DescribeProperties.

Context (elb : ELBV2).

Lemma RetryFrom_notFoundFailures (id : string) n (c c1 : conn elb) :
  notFoundFailures elb id n c c1 ->
  forall k r e,
    exists e',
      RetryFrom (n + k) (fun s => Some (describeAttempt elb true id s))
        {| rs_conn := c; rs_resp := r |} e
      = RetryFrom k (fun s => Some (describeAttempt elb true id s))
          {| rs_conn := c1; rs_resp := match n with O => r | S _ => None end |} e'
      /\ match n with
         | O => e' = e
         | S _ => exists err, e' = Some err
                   /\ isAWSErr err ErrCodeRuleNotFoundException "" = true
         end.
Proof.
  induction 1 as [c|n c c1 err c' Hcall Herr _ IH]; intros k r e.
  - exists e. split; reflexivity.
  - destruct (IH k None (Some err)) as (e' & Heq & He').
    cbn [Nat.add RetryFrom]. unfold describeAttempt at 1. cbn [rs_conn].
    change {| dri_ListenerArn := None; dri_Marker := None;
              dri_RuleArns := [aws_String id] |} with (describeRule id).
    rewrite Hcall, Herr. cbn [andb].
    destruct n as [|n].
    + exists e'. split; [exact Heq|]. exists err. now rewrite He'.
    + exists e'. split; [exact Heq|]. exact He'.
Qed.

(** X21: for a resource that is not new, Read calls DescribeRules once,
    whatever the time allows and whatever the call returns: its result
    is that of the rest of the function on the outcome of that one call.
    In particular a rule that is not found is taken out of the state at
    once. *)
Theorem resourceAwsLbListenerRuleRead_all_existing
  (budget : nat) (c : conn elb) (d : ResourceData) :
  (0 < budget)%nat ->
  resourceAwsLbListenerRuleRead_all elb budget false c d
  = let (c', res) := DescribeRules elb c (describeRule (rd_Id d)) in
    let (d', err) := resourceAwsLbListenerRuleRead res d in
    Returns (c', d', err).
Proof.
  intros Hbudget. destruct budget as [|budget]; [lia|].
  unfold resourceAwsLbListenerRuleRead_all, Retry.
  cbn [RetryFrom]. unfold describeAttempt, describeRule. cbn [rs_conn andb].
  destruct (DescribeRules elb c _) as [c' [out|err]]; reflexivity.
Qed.

(** X22: for a new resource, Read calls DescribeRules again for as long
    as the rule is not found: when the first [n] calls do not find it and
    there is time for one more, the result is that of the rest of the
    function on the outcome of that call, the resource data being the one
    Read was given. *)
Theorem resourceAwsLbListenerRuleRead_all_new_waits
  (budget n : nat) (c c1 c2 : conn elb) (res : DescribeRulesOutput + error)
  (d : ResourceData) :
  notFoundFailures elb (rd_Id d) n c c1 ->
  (n < budget)%nat ->
  DescribeRules elb c1 (describeRule (rd_Id d)) = (c2, res) ->
  foundOrFailed res = true ->
  resourceAwsLbListenerRuleRead_all elb budget true c d
  = let (d', err) := resourceAwsLbListenerRuleRead res d in
    Returns (c2, d', err).
Proof.
  intros Hfail Hn Hcall Hres.
  destruct (RetryFrom_notFoundFailures _ _ _ _ Hfail (budget - n) None None)
    as (e' & Heq & _).
  replace (n + (budget - n))%nat with budget in Heq by lia.
  unfold resourceAwsLbListenerRuleRead_all, Retry.
  replace (match n with O => None | S _ => None end)
    with (@None DescribeRulesOutput) in Heq by now destruct n.
  rewrite Heq.
  destruct (budget - n)%nat as [|k] eqn:Hk; [lia|].
  cbn [RetryFrom]. unfold describeAttempt. cbn [rs_conn].
  change {| dri_ListenerArn := None; dri_Marker := None;
            dri_RuleArns := [aws_String (rd_Id d)] |}
    with (describeRule (rd_Id d)).
  rewrite Hcall.
  destruct res as [out|err]; [reflexivity|].
  cbn in Hres. apply negb_true_iff in Hres. rewrite Hres. reflexivity.
Qed.

(** X23: for a new resource whose rule is not found by any of the calls
    that the time allows, Read gives up without an error: it takes the
    rule out of the state by clearing the id, and leaves the attributes
    as they were. *)
Theorem resourceAwsLbListenerRuleRead_all_new_gives_up
  (budget : nat) (c c' : conn elb) (d : ResourceData) :
  (0 < budget)%nat ->
  notFoundFailures elb (rd_Id d) budget c c' ->
  resourceAwsLbListenerRuleRead_all elb budget true c d
  = Returns (c', rd_SetId d "", None).
Proof.
  intros Hbudget Hfail.
  destruct (RetryFrom_notFoundFailures _ _ _ _ Hfail 0%nat None None)
    as (e' & Heq & He').
  rewrite Nat.add_0_r in Heq.
  unfold resourceAwsLbListenerRuleRead_all, Retry. rewrite Heq.
  destruct budget as [|budget]; [lia|].
  destruct He' as (err & -> & Herr).
  cbn [RetryFrom rs_conn]. unfold resourceAwsLbListenerRuleRead.
  now rewrite Herr.
Qed.

End DescribeProperties.

(** The rule data read on the listener on which the rule shows up at the
    third call: as an existing rule it is given up at the first call. *)
Lemma resourceAwsLbListenerRuleRead_all_existing_witness :
  resourceAwsLbListenerRuleRead_all eventualListener 5 false 0%nat exampleRuleData
  = Returns (1%nat, rd_SetId exampleRuleData "", None).
Proof.
  apply (resourceAwsLbListenerRuleRead_all_existing eventualListener 5 0%nat
           exampleRuleData).
  lia.
Defined.

Lemma eventualListener_notFound (n k : nat) :
  (k + n <= 2)%nat ->
  notFoundFailures eventualListener (rd_Id exampleRuleData) n k (k + n)%nat.
Proof.
  revert k. induction n as [|n IH]; intros k Hk.
  - rewrite Nat.add_0_r. constructor.
  - eapply notFoundFailures_S with (c1 := S k).
    + destruct k as [|[|k]]; [reflexivity..|lia].
    + reflexivity.
    + replace (k + S n)%nat with (S k + n)%nat by lia. apply IH. lia.
Qed.

(** As a new rule it is waited for: the third call finds it, and the
    priority 8 is read into the state. *)
Lemma resourceAwsLbListenerRuleRead_all_new_waits_witness :
  exists d',
    resourceAwsLbListenerRuleRead_all eventualListener 5 true 0%nat exampleRuleData
    = Returns (3%nat, d', None)
    /\ rd_attrs d' !! "priority" = Some (AttrInt 8).
Proof.
  eexists. split.
  - apply (resourceAwsLbListenerRuleRead_all_new_waits eventualListener 5 2
             0%nat 2%nat 3%nat _ exampleRuleData
             (eventualListener_notFound 2 0 ltac:(lia)) ltac:(lia) eq_refl eq_refl).
  - vm_compute. reflexivity.
Defined.

(** With time for two calls only the new rule is given up. *)
Lemma resourceAwsLbListenerRuleRead_all_new_gives_up_witness :
  resourceAwsLbListenerRuleRead_all eventualListener 2 true 0%nat exampleRuleData
  = Returns (2%nat, rd_SetId exampleRuleData "", None).
Proof.
  apply (resourceAwsLbListenerRuleRead_all_new_gives_up eventualListener 2
           0%nat 2%nat exampleRuleData ltac:(lia)
           (eventualListener_notFound 2 0 ltac:(lia))).
Defined.

(** ** Update *)

Section UpdateProperties.

Context (elb : ELBV2) (m : ELBV2Modify elb).

Lemma RetryFrom_recorded (isNew : bool) (id : string) (budget : nat) :
  forall (s : readState (recorded elb)) e s' e',
    RetryFrom budget (fun s => Some (describeAttempt (recorded elb) isNew id s)) s e
    = Some (s', e') ->
    snd (rs_conn s') = snd (rs_conn s).
Proof.
  induction budget as [|budget IH]; intros s e s' e'; cbn [RetryFrom].
  - intros [= <- _]. reflexivity.
  - unfold describeAttempt at 1. cbn [DescribeRules recorded].
    destruct (DescribeRules elb (fst (rs_conn s)) _) as [c1 [out|err]].
    + intros [= <- _]. reflexivity.
    + destruct (isNew && isAWSErr err ErrCodeRuleNotFoundException "").
      * intros H. now apply IH in H.
      * intros [= <- _]. reflexivity.
Qed.

Lemma resourceAwsLbListenerRuleRead_all_recorded (budget : nat) (isNew : bool)
  (c c' : conn elb) (log log' : list request) (d d' : ResourceData)
  (err : option error) :
  resourceAwsLbListenerRuleRead_all (recorded elb) budget isNew (c, log) d
  = Returns ((c', log'), d', err) ->
  log' = log.
Proof.
  unfold resourceAwsLbListenerRuleRead_all, Retry.
  destruct (RetryFrom budget _ _ None) as [[s [e|]]|] eqn:Hretry;
    [| |discriminate].
  - apply RetryFrom_recorded in Hretry.
    destruct (resourceAwsLbListenerRuleRead (inr e) d).
    intros [= Hc _ _]. now rewrite Hc in Hretry.
  - apply RetryFrom_recorded in Hretry.
    destruct (rs_resp s); [|discriminate].
    destruct (resourceAwsLbListenerRuleRead (inl _) d).
    intros [= Hc _ _]. now rewrite Hc in Hretry.
Qed.

(** X24: the calls by which Update changes the rule are those that the
    changes ask for, in this order: SetRulePriorities with the id and the
    priority when the priority has changed, then one ModifyRule for the
    id, which carries the expanded actions when the actions have changed
    and the expanded conditions when the conditions have changed, and is
    left out when neither has.  An update that fails has made the first
    of these calls only, or none; an update that reaches the final Read
    has made them all. *)
Theorem resourceAwsLbListenerRuleUpdate_requests
  (budget : nat) (isNew : bool) (HasChange : string -> bool)
  (c c' : conn elb) (log : list request) (d d' : ResourceData)
  (priority : Z) (actions : list actionMap) (conditions : list conditionMap)
  (keys : option (gset string)) (err : option error) :
  resourceAwsLbListenerRuleUpdate (recorded elb) (recordedModify m) budget isNew
    HasChange (c, []) d priority actions conditions
  = Returns ((c', log), d', keys, err) ->
  log `prefix_of` plannedRequests HasChange (rd_Id d) priority actions conditions
  /\ (keys = None ->
      log = plannedRequests HasChange (rd_Id d) priority actions conditions).
Proof.
  unfold resourceAwsLbListenerRuleUpdate, plannedRequests, modifyRequest,
    expandedActions, expandedConditions, priorityRequest, aws_String, aws_Int64.
  cbn [SetRulePriorities ModifyRule recordedModify fst snd mri_RuleArn
       mri_Actions mri_Conditions].
  destruct (HasChange "priority"), (HasChange "action"), (HasChange "condition");
    cbn [orb app];
    repeat match goal with
    | |- context [SetRulePriorities m ?c ?i] =>
        destruct (SetRulePriorities m c i) as [? [?|]]
    | |- context [lbListenerRuleActions ?a] =>
        destruct (lbListenerRuleActions a) as [[?|?]|]
    | |- context [lbListenerRuleConditions ?a] =>
        destruct (lbListenerRuleConditions a) as [[? [?|]]|]
    | |- context [ModifyRule m ?c ?i] =>
        destruct (ModifyRule m c i) as [? [[[|? ?]]|?]]
    | |- context [resourceAwsLbListenerRuleRead_all ?e ?b ?n ?c ?d] =>
        let H := fresh "Hread" in
        destruct (resourceAwsLbListenerRuleRead_all e b n c d)
          as [[[[? ?] ?] ?]|] eqn:H;
        [apply resourceAwsLbListenerRuleRead_all_recorded in H; subst|]
    end;
    cbn [length Nat.eqb app];
    try discriminate;
    intros [= <- <- <- <- <-];
    (split; [eexists; reflexivity | try discriminate; try reflexivity]).
Qed.

(** X25: Update leaves the partial mode on exactly when it returns before
    the final Read.  It then returns an error and the resource data as it
    was given, and the attributes it has marked as applied are among those
    that have changed.  Otherwise the data and the error are those of the
    final Read. *)
Theorem resourceAwsLbListenerRuleUpdate_partial
  (budget : nat) (isNew : bool) (HasChange : string -> bool)
  (c c' : conn elb) (d d' : ResourceData)
  (priority : Z) (actions : list actionMap) (conditions : list conditionMap)
  (keys : option (gset string)) (err : option error) :
  resourceAwsLbListenerRuleUpdate elb m budget isNew HasChange c d priority
    actions conditions
  = Returns (c', d', keys, err) ->
  match keys with
  | Some keys => d' = d /\ err <> None /\ keys ⊆ changedKeys HasChange
  | None =>
      exists c0,
        resourceAwsLbListenerRuleRead_all elb budget isNew c0 d
        = Returns (c', d', err)
  end.
Proof.
  unfold resourceAwsLbListenerRuleUpdate, changedKeys.
  destruct (HasChange "priority"), (HasChange "action"), (HasChange "condition");
    repeat match goal with
    | |- context [SetRulePriorities m ?c ?i] =>
        destruct (SetRulePriorities m c i) as [? [?|]]
    | |- context [lbListenerRuleActions ?a] =>
        destruct (lbListenerRuleActions a) as [[?|?]|]
    | |- context [lbListenerRuleConditions ?a] =>
        destruct (lbListenerRuleConditions a) as [[? [?|]]|]
    | |- context [ModifyRule m ?c ?i] =>
        destruct (ModifyRule m c i) as [? [[[|? ?]]|?]]
    | |- context [resourceAwsLbListenerRuleRead_all ?e ?b ?n ?c ?d] =>
        let H := fresh "Hread" in
        destruct (resourceAwsLbListenerRuleRead_all e b n c d)
          as [[[? ?] ?]|] eqn:H
    end;
    cbn [length Nat.eqb];
    try discriminate;
    intros Hresult; inversion Hresult; subst;
    first [ eexists; eassumption
          | split; [reflexivity|]; split; [discriminate|];
            set_unfold; tauto ].
Qed.

(** X26: the attributes are marked as applied before ModifyRule is
    called.  When the priority, if it has changed, has been set, the
    actions and the conditions that have changed expand without an error,
    and ModifyRule then fails, Update returns that error, wrapped, with
    every attribute that has changed marked as applied, the actions and
    the conditions among them. *)
Theorem resourceAwsLbListenerRuleUpdate_modify_error
  (budget : nat) (isNew : bool) (HasChange : string -> bool)
  (c c1 c2 : conn elb) (d : ResourceData)
  (priority : Z) (actions : list actionMap) (conditions : list conditionMap)
  (e : error) :
  (if HasChange "priority"
   then SetRulePriorities m c (priorityRequest (rd_Id d) priority) = (c1, None)
   else c1 = c) ->
  (HasChange "action" = true ->
   exists elbActions, lbListenerRuleActions actions = Returns (inl elbActions)) ->
  (HasChange "condition" = true ->
   exists elbConditions,
     lbListenerRuleConditions conditions = Returns (elbConditions, None)) ->
  HasChange "action" || HasChange "condition" = true ->
  ModifyRule m c1 (modifyRequest HasChange (rd_Id d) actions conditions)
  = (c2, inr e) ->
  resourceAwsLbListenerRuleUpdate elb m budget isNew HasChange c d priority
    actions conditions
  = Returns (c2, d, Some (changedKeys HasChange),
             Some (ErrorfWrap "Error modifying LB Listener Rule: %s" [] e)).
Proof.
  intros Hpriority Hactions Hconditions Hchanged Hmodify.
  unfold resourceAwsLbListenerRuleUpdate, changedKeys.
  unfold modifyRequest, expandedActions, expandedConditions in Hmodify.
  unfold priorityRequest in Hpriority. unfold aws_String, aws_Int64.
  destruct (HasChange "priority"); [rewrite Hpriority|subst c1];
    destruct (HasChange "action");
    try (destruct (Hactions eq_refl) as (elbActions & Ha); rewrite Ha in * );
    destruct (HasChange "condition");
    try (destruct (Hconditions eq_refl) as (elbConditions & Hc); rewrite Hc in * );
    try discriminate Hchanged;
    cbn [mri_RuleArn mri_Actions mri_Conditions];
    rewrite Hmodify; do 3 f_equal; set_solver.
Qed.

End UpdateProperties.

(** An update of the priority, the actions and the conditions of the
    example rule, which is new and found by the third call of the final
    Read: the two planned calls have been made. *)
Lemma resourceAwsLbListenerRuleUpdate_requests_witness :
  let planned :=
    plannedRequests allChanged (rd_Id exampleRuleData) 5
      [forwardMap (Some 1) "targetgroup/1"] [deprecatedA] in
  exists d',
    resourceAwsLbListenerRuleUpdate (recorded eventualListener)
      (recordedModify exampleModify) 5 true allChanged (0%nat, [])
      exampleRuleData 5 [forwardMap (Some 1) "targetgroup/1"] [deprecatedA]
    = Returns ((3%nat, planned), d', None, None)
    /\ length planned = 2%nat
    /\ planned `prefix_of` planned
    /\ (@None (gset string) = None -> planned = planned).
Proof.
  cbn zeta. eexists.
  split; [vm_compute; reflexivity|]. split; [reflexivity|].
  eapply (resourceAwsLbListenerRuleUpdate_requests eventualListener exampleModify
           5 true allChanged 0%nat 3%nat _ exampleRuleData _ 5
           [forwardMap (Some 1) "targetgroup/1"] [deprecatedA] None None).
  vm_compute. reflexivity.
Defined.

(** An update in which the redirect action lacks its block: the priority
    has been set and is marked as applied, the data is as it was. *)
Lemma resourceAwsLbListenerRuleUpdate_partial_witness :
  resourceAwsLbListenerRuleUpdate eventualListener exampleModify 5 false
    allChanged 0%nat exampleRuleData 5 [redirectWithoutBlock] [deprecatedA]
  = Returns (0%nat, exampleRuleData, Some ({["priority"]} ∪ ∅),
             Some (ErrorsNew
               "for actions of type 'redirect', you must specify a 'redirect' block"))
  /\ (exampleRuleData = exampleRuleData
      /\ Some (ErrorsNew
           "for actions of type 'redirect', you must specify a 'redirect' block")
         <> None
      /\ ({["priority"]} ∪ ∅ : gset string) ⊆ changedKeys allChanged).
Proof.
  assert (H : resourceAwsLbListenerRuleUpdate eventualListener exampleModify 5 false
                allChanged 0%nat exampleRuleData 5 [redirectWithoutBlock] [deprecatedA]
              = Returns (0%nat, exampleRuleData, Some ({["priority"]} ∪ ∅),
                         Some (ErrorsNew
                           "for actions of type 'redirect', you must specify a 'redirect' block")))
    by reflexivity.
  split; [exact H|].
  exact (resourceAwsLbListenerRuleUpdate_partial eventualListener exampleModify
           5 false allChanged 0%nat 0%nat exampleRuleData exampleRuleData 5
           [redirectWithoutBlock] [deprecatedA] _ _ H).
Defined.

(** An update that leaves the rule without actions: ModifyRule refuses
    it, and the three attributes are marked as applied all the same. *)
Lemma resourceAwsLbListenerRuleUpdate_modify_error_witness :
  resourceAwsLbListenerRuleUpdate eventualListener exampleModify 5 false
    allChanged 0%nat exampleRuleData 5 [] [deprecatedA]
  = Returns (0%nat, exampleRuleData, Some (changedKeys allChanged),
             Some (ErrorfWrap "Error modifying LB Listener Rule: %s" []
                     (AWSError "ValidationError"
                        "A rule must have at least one action"))).
Proof.
  apply (resourceAwsLbListenerRuleUpdate_modify_error eventualListener
           exampleModify 5 false allChanged 0%nat 0%nat 0%nat exampleRuleData 5
           [] [deprecatedA]).
  - reflexivity.
  - intros _. eexists. reflexivity.
  - intros _. eexists. reflexivity.
  - reflexivity.
  - reflexivity.
Defined.
